(** * chesscoach: the engine adapter, the opening matcher and the move grader

    A shallow embedding of the two application variants of the repository,
    [src/App.jsx] (search bounded by depth) and the file kept as
    [unnamed/part_000] (search bounded by move time), and the properties
    of their common core.  The helpers [pgnTokens], [detectOpening],
    [gradeFromLoss] and [explainHeuristic] are textually the same in both
    files and are embedded once; the engine hook [useStockfish] and the
    handler [onPieceDrop] differ and live in [Module VariantA] (App.jsx)
    and [Module VariantB] (part_000). *)

From Stdlib Require Import ZArith List Bool Ascii String Lia QArith Qabs.
From Stdlib Require Import Floats DecimalString DecimalZ.
Import ListNotations.

Open Scope string_scope.
Open Scope Z_scope.

(** ** JavaScript strings

    Strings are ASCII strings: the protocol lines, the book and the
    notated moves use no other character. *)

Module Js.

(** [s.startsWith(p)] *)
Definition startsWith (s p : string) : bool := String.prefix p s.

(** [s.includes(p)] *)
Fixpoint includes (s p : string) : bool :=
  String.prefix p s ||
  match s with
  | EmptyString => false
  | String _ s' => includes s' p
  end.

Definition isDigit (c : ascii) : bool :=
  let n := nat_of_ascii c in (48 <=? n)%nat && (n <=? 57)%nat.

(** The ASCII part of the class [\s], which is also what [trim] removes:
    tab, line feed, vertical tab, form feed, carriage return, space. *)
Definition isSpace (c : ascii) : bool :=
  let n := nat_of_ascii c in
  ((9 <=? n)%nat && (n <=? 13)%nat) || (n =? 32)%nat.

Definition charIn (c : ascii) (cs : string) : bool :=
  existsb (Ascii.eqb c) (list_ascii_of_string cs).

(** [s.replace(/[cs]/g, "")] for a class of single characters. *)
Fixpoint removeChars (cs : string) (s : string) : string :=
  match s with
  | EmptyString => EmptyString
  | String c s' =>
      if charIn c cs then removeChars cs s' else String c (removeChars cs s')
  end.

(** [s.toUpperCase()] on ASCII. *)
Definition upperChar (c : ascii) : ascii :=
  let n := nat_of_ascii c in
  if (97 <=? n)%nat && (n <=? 122)%nat then ascii_of_nat (n - 32) else c.

Fixpoint toUpperCase (s : string) : string :=
  match s with
  | EmptyString => EmptyString
  | String c s' => String (upperChar c) (toUpperCase s')
  end.

(** The longest run of digits at the head of [s], and what follows it. *)
Fixpoint spanDigits (s : string) : string * string :=
  match s with
  | String c s' =>
      if isDigit c
      then let (d, r) := spanDigits s' in (String c d, r)
      else (EmptyString, s)
  | EmptyString => (EmptyString, EmptyString)
  end.

(** [parseInt(d, 10)] on a string of digits. *)
Definition digitsValue (d : string) : Z :=
  fold_left (fun acc c => 10 * acc + (Z.of_nat (nat_of_ascii c) - 48))
            (list_ascii_of_string d) 0.

(** [s.split(/\s+/).filter(Boolean)]: the maximal runs of characters that
    are not white space.  [cur] is the run being read, reversed. *)
Fixpoint words_aux (cur : list ascii) (s : string) : list string :=
  let flush := match cur with
               | [] => []
               | _ => [string_of_list_ascii (rev cur)]
               end in
  match s with
  | EmptyString => flush
  | String c s' =>
      if isSpace c then flush ++ words_aux [] s' else words_aux (c :: cur) s'
  end.

Definition words (s : string) : list string := words_aux [] s.

(** [s.split(" ")]: the fields between single spaces, empty ones kept. *)
Fixpoint splitSpace_aux (cur : list ascii) (s : string) : list string :=
  match s with
  | EmptyString => [string_of_list_ascii (rev cur)]
  | String c s' =>
      if Ascii.eqb c " "%char
      then string_of_list_ascii (rev cur) :: splitSpace_aux [] s'
      else splitSpace_aux (c :: cur) s'
  end.

Definition splitSpace (s : string) : list string := splitSpace_aux [] s.

(** [xs.join(" ")] *)
Fixpoint joinSpace (xs : list string) : string :=
  match xs with
  | [] => ""
  | [x] => x
  | x :: rest => x ++ " " ++ joinSpace rest
  end.

End Js.

(** ** The move grader

    [gradeFromLoss] divides the absolute loss by 100 and compares the
    quotient with the decimal bounds.  The quotient and the bounds are
    rationals here; [gradeFromLoss_f64] is the same function on binary64
    numbers, which is what the JavaScript engine computes. *)

Definition gradeFromLoss (cpLoss : Z) : string :=
  let loss := (Qabs (inject_Z cpLoss) / inject_Z 100)%Q in
  if Qle_bool loss (1 # 10) then "A+"
  else if Qle_bool loss (2 # 10) then "A"
  else if Qle_bool loss (5 # 10) then "B"
  else if Qle_bool loss (9 # 10) then "C"
  else if Qle_bool loss (15 # 10) then "D"
  else "F".

Definition gradeFromLoss_f64 (cpLoss : float) : string :=
  let loss := (abs cpLoss / 100)%float in
  if (loss <=? 0x1.999999999999ap-4)%float then "A+"     (* 0.1 *)
  else if (loss <=? 0x1.999999999999ap-3)%float then "A" (* 0.2 *)
  else if (loss <=? 0.5)%float then "B"
  else if (loss <=? 0x1.ccccccccccccdp-1)%float then "C" (* 0.9 *)
  else if (loss <=? 1.5)%float then "D"
  else "F".

(** The place of a grade in the order A+, A, B, C, D, F. *)
Definition gradeIndex (g : string) : nat :=
  if String.eqb g "A+" then 0
  else if String.eqb g "A" then 1
  else if String.eqb g "B" then 2
  else if String.eqb g "C" then 3
  else if String.eqb g "D" then 4
  else 5.

(** The step function in centipawns that the claim describes. *)
Definition gradeSteps (cpLoss : Z) : string :=
  let a := Z.abs cpLoss in
  if a <=? 10 then "A+"
  else if a <=? 20 then "A"
  else if a <=? 50 then "B"
  else if a <=? 90 then "C"
  else if a <=? 150 then "D"
  else "F".

(** An integer loss as a binary64 number, and the comparison of the two
    graders on the losses from [-n] to [n]. *)
Definition f64_of_Z (z : Z) : float :=
  match z with
  | Z0 => 0%float
  | Zpos p => PrimFloat.of_uint63 (Uint63.of_Z (Zpos p))
  | Zneg p => (- PrimFloat.of_uint63 (Uint63.of_Z (Zpos p)))%float
  end.

Definition f64_agrees_upto (n : nat) : bool :=
  forallb (fun k => let z := Z.of_nat k in
                    String.eqb (gradeFromLoss_f64 (f64_of_Z z)) (gradeFromLoss z)
                    && String.eqb (gradeFromLoss_f64 (f64_of_Z (- z))) (gradeFromLoss (- z)))
          (seq 0 (S n)).

(** ** The board-state collaborator

    The rules of chess are not part of the repository: both files import
    [Chess] from chess.js.  Its data is modelled as chess.js types it and
    the operations the code calls are the fields of [Board]. *)

Inductive Color := White | Black.

Definition color_str (c : Color) : string :=
  match c with White => "w" | Black => "b" end.

Inductive File := fa | fb | fc | fd | fe | ff | fg | fh.
Inductive Rank := r1 | r2 | r3 | r4 | r5 | r6 | r7 | r8.

Definition Square : Type := File * Rank.

Definition file_str (f : File) : string :=
  match f with
  | fa => "a" | fb => "b" | fc => "c" | fd => "d"
  | fe => "e" | ff => "f" | fg => "g" | fh => "h"
  end.

Definition rank_str (r : Rank) : string :=
  match r with
  | r1 => "1" | r2 => "2" | r3 => "3" | r4 => "4"
  | r5 => "5" | r6 => "6" | r7 => "7" | r8 => "8"
  end.

(** The name of a square, as in ["e4"]. *)
Definition sq_name (s : Square) : string := file_str (fst s) ++ rank_str (snd s).

Inductive Piece := Pawn | Knight | Bishop | Rook | Queen | King.

Definition piece_str (p : Piece) : string :=
  match p with
  | Pawn => "p" | Knight => "n" | Bishop => "b"
  | Rook => "r" | Queen => "q" | King => "k"
  end.

(** A verbose move of chess.js. *)
Record Move := mkMove {
  color : Color;
  from : Square;
  to : Square;
  piece : Piece;
  promotion : option Piece;
  flags : string;
  san : string
}.

(** The object form of a move request, [{ from, to, promotion }]; a verbose
    move handed back to [move] may carry no promotion. *)
Record MoveObj := mkMoveObj {
  o_from : Square;
  o_to : Square;
  o_promotion : option Piece
}.

(** [m.promotion || ""] *)
Definition promo_str (m : Move) : string :=
  match promotion m with Some p => piece_str p | None => "" end.

(** [m.from + m.to + (m.promotion || "")] *)
Definition uci_of (m : Move) : string :=
  sq_name (from m) ++ sq_name (to m) ++ promo_str m.

Class Board := mkBoard {
  Pos : Type;
  (** [new Chess()] *)
  start : Pos;
  (** [new Chess(fen)] *)
  load : string -> Pos;
  (** [.fen()] *)
  fen : Pos -> string;
  (** [.turn()] *)
  turn : Pos -> Color;
  (** [.moves({ verbose: true })] *)
  moves : Pos -> list Move;
  (** [.move(obj)]: the move made and the position reached, or [None]
      where chess.js answers null. *)
  move : Pos -> MoveObj -> option (Move * Pos);
  (** [.isGameOver()] *)
  isGameOver : Pos -> bool
}.

Arguments Pos : clear implicits.

(** ** The opening matcher *)

Record Opening := mkOpening {
  eco : string;
  name : string;
  pgn : string
}.

Definition OPENINGS : list Opening := [
  mkOpening "C20" "King's Pawn Game" "e4";
  mkOpening "C40" "King's Knight Opening" "e4 e5 Nf3";
  mkOpening "C50" "Italian Game" "e4 e5 Nf3 Nc6 Bc4";
  mkOpening "C60" "Ruy Lopez" "e4 e5 Nf3 Nc6 Bb5";
  mkOpening "B30" "Sicilian Defense" "e4 c5";
  mkOpening "C00" "French Defense" "e4 e6";
  mkOpening "B01" "Scandinavian Defense" "e4 d5";
  mkOpening "D00" "Queen's Pawn Game" "d4 d5";
  mkOpening "D06" "Slav Defense" "d4 d5 c4 c6";
  mkOpening "D20" "Queen's Gambit Accepted" "d4 d5 c4 dxc4";
  mkOpening "D30" "Queen's Gambit Declined" "d4 d5 c4 e6";
  mkOpening "E60" "King's Indian Defense" "d4 Nf6 c4 g6"
].

(** Does [s] begin with one or more digits followed by a dot? *)
Fixpoint digitsThenDot (s : string) : bool :=
  match s with
  | String c s' =>
      Js.isDigit c &&
      match s' with
      | String "."%char _ => true
      | _ => digitsThenDot s'
      end
  | EmptyString => false
  end.

(** [pgn.replace(/[0-9]+\.|[?!+#]/g, "")].  [inNum] holds while the scan is
    inside a move number that is being deleted. *)
Fixpoint dropNumbers (inNum : bool) (s : string) : string :=
  match s with
  | EmptyString => EmptyString
  | String c s' =>
      if inNum then dropNumbers (negb (Ascii.eqb c "."%char)) s'
      else if digitsThenDot s then dropNumbers true s'
      else if Js.charIn c "?!+#" then dropNumbers false s'
      else String c (dropNumbers false s')
  end.

Fixpoint trimStart (s : string) : string :=
  match s with
  | String c s' => if Js.isSpace c then trimStart s' else s
  | EmptyString => EmptyString
  end.

Definition rev_string (s : string) : string :=
  string_of_list_ascii (rev (list_ascii_of_string s)).

Definition trim (s : string) : string :=
  rev_string (trimStart (rev_string (trimStart s))).

Definition pgnTokens (pgn : string) : list string :=
  Js.words (trim (dropNumbers false pgn)).

(** [s.replace(/[+#]/g, "")] *)
Definition stripDecor (s : string) : string := Js.removeChars "+#" s.

Record OpeningInfo := mkInfo {
  i_eco : string;
  i_name : string;
  matchedLen : nat
}.

Section Matcher.

Context {B : Board}.

(** The predicate of [legal.find] in [tryMatch]. *)
Definition tokenMatches (tok : string) (mv : Move) : bool :=
  String.eqb (sq_name (from mv) ++ sq_name (to mv)) tok
  || String.eqb (stripDecor (san mv)) (stripDecor tok).

(** The first loop of [tryMatch]: the book line is replayed on [tmp] and
    the notated moves are pushed on [targetSAN]; [None] is [return null]. *)
Fixpoint replay (tmp : Pos B) (targetSAN : list string) (toks : list string)
  : option (list string) :=
  match toks with
  | [] => Some targetSAN
  | tok :: rest =>
      let legal := moves tmp in
      match find (tokenMatches tok) legal with
      | None => None
      | Some m =>
          let obj := mkMoveObj (from m) (to m)
                       (Some (match promotion m with Some p => p | None => Queen end)) in
          let tmp' := match move tmp obj with
                      | Some (_, p) => p
                      | None => tmp
                      end in
          replay tmp' (targetSAN ++ [san m]) rest
      end
  end.

(** The second loop of [tryMatch]: [true] when it runs to its end. *)
Definition prefixAgrees (targetSAN movesSAN : list string) : bool :=
  forallb (fun i => String.eqb (stripDecor (nth i targetSAN ""))
                               (stripDecor (nth i movesSAN "")))
          (seq 0 (Nat.min (List.length targetSAN) (List.length movesSAN))).

Definition tryMatch (movesSAN : list string) (opening : Opening)
  : option OpeningInfo :=
  match replay start [] (pgnTokens (pgn opening)) with
  | None => None
  | Some targetSAN =>
      if prefixAgrees targetSAN movesSAN
      then Some (mkInfo (eco opening) (name opening) (List.length targetSAN))
      else None
  end.

(** One turn of the loop of [detectOpening]. *)
Definition keepBest (movesSAN : list string) (best : option OpeningInfo)
  (op : Opening) : option OpeningInfo :=
  match tryMatch movesSAN op with
  | Some got =>
      match best with
      | None => Some got
      | Some b => if (matchedLen b <? matchedLen got)%nat then Some got else best
      end
  | None => best
  end.

Definition detectOpeningIn (book : list Opening) (movesSAN : list string)
  : option OpeningInfo :=
  fold_left (keepBest movesSAN) book None.

Definition detectOpening (movesSAN : list string) : option OpeningInfo :=
  detectOpeningIn OPENINGS movesSAN.

(** What the loop holds after a prefix of the book: the first entry, in
    book order, among those of greatest reported length. *)
Definition selects (movesSAN : list string) (book : list Opening)
  (best : option OpeningInfo) : Prop :=
  match best with
  | None => forall op, In op book -> tryMatch movesSAN op = None
  | Some b =>
      exists i op,
        nth_error book i = Some op
        /\ tryMatch movesSAN op = Some b
        /\ forall j op' c,
            nth_error book j = Some op' ->
            tryMatch movesSAN op' = Some c ->
            (matchedLen c <= matchedLen b)%nat
            /\ ((j < i)%nat -> (matchedLen c < matchedLen b)%nat)
  end.

End Matcher.

(** ** The rationale generator *)

Definition underDefended : string := "The moved piece is under-defended.".

Section Rationale.

Context {B : Board}.

(** [us]: the colour that is not to move in the position after the move. *)
Definition usOf (after : Pos B) : string :=
  if String.eqb (color_str (turn after)) "w" then "b" else "w".

Definition attackers (mv : Move) (after : Pos B) : list Move :=
  filter (fun m => String.eqb (sq_name (to m)) (sq_name (to mv))
                   && String.eqb (color_str (color m)) (usOf after))
         (moves after).

Definition defenders (mv : Move) (after : Pos B) : list Move :=
  filter (fun m => String.eqb (sq_name (to m)) (sq_name (to mv))
                   && negb (String.eqb (color_str (color m)) (usOf after)))
         (moves after).

Definition pushIf (c : bool) (phrase : string) (parts : list string) : list string :=
  if c then parts ++ [phrase] else parts.

(** The array [parts] when [explainHeuristic] reaches its [return].  The
    parameter [before] of the source is not read by its body. *)
Definition explainParts (mv : Move) (after : Pos B) : list string :=
  let parts := [] in
  let parts := pushIf (Js.includes (flags mv) "c") "You captured material." parts in
  let parts := pushIf (Js.includes (san mv) "+") "You gave check." parts in
  let parts := pushIf (Js.includes (san mv) "#") "Checkmate, nice." parts in
  let center := ["d4"; "d5"; "e4"; "e5"] in
  let parts := pushIf (existsb (String.eqb (sq_name (to mv))) center)
                      "You fought for the center." parts in
  let parts := pushIf (existsb (String.eqb (Js.toUpperCase (piece_str (piece mv)))) ["N"; "B"])
                      "You developed a minor piece." parts in
  let parts := pushIf (String.eqb (san mv) "O-O" || String.eqb (san mv) "O-O-O")
                      "You castled your king to safety." parts in
  let parts := pushIf (List.length (defenders mv after) <? List.length (attackers mv after))%nat
                      underDefended parts in
  let parts := pushIf (match parts with [] => true | _ => false end)
                      "Idea makes sense, but there may be a more precise square." parts in
  parts.

Definition explainHeuristic (mv : Move) (before after : Pos B) : string :=
  Js.joinSpace (explainParts mv after).

(** The rule as the specification words it: the legal moves of the
    opponent of the mover that land on the destination square, and the
    legal moves of the mover that land on it. *)
Definition color_eqb (a b : Color) : bool := String.eqb (color_str a) (color_str b).

Definition spec_opposingLanding (mv : Move) (after : Pos B) : list Move :=
  filter (fun m => String.eqb (sq_name (to m)) (sq_name (to mv))
                   && negb (color_eqb (color m) (color mv)))
         (moves after).

Definition spec_ownDefending (mv : Move) (after : Pos B) : list Move :=
  filter (fun m => String.eqb (sq_name (to m)) (sq_name (to mv))
                   && color_eqb (color m) (color mv))
         (moves after).

Definition spec_underDefended (mv : Move) (after : Pos B) : bool :=
  (List.length (spec_ownDefending mv after) <? List.length (spec_opposingLanding mv after))%nat.

(** chess.js lists the moves of the side to move. *)
Definition movesOfSideToMove : Prop :=
  forall (p : Pos B) (m : Move), In m (moves p) -> color m = turn p.

End Rationale.

(** ** The protocol parser

    The three regular expressions of the listener, each as a matcher at the
    head of a string and a search for the leftmost match. *)

Fixpoint stripPrefix (p s : string) : option string :=
  match p, s with
  | EmptyString, _ => Some s
  | String a p', String b s' => if Ascii.eqb a b then stripPrefix p' s' else None
  | String _ _, EmptyString => None
  end.

Fixpoint searchFirst {A : Type} (here : string -> option A) (s : string) : option A :=
  match here s with
  | Some a => Some a
  | None =>
      match s with
      | EmptyString => None
      | String _ s' => searchFirst here s'
      end
  end.

(** [-?\\d+] at the head of [s]: the text matched. *)
Definition signedDigitsHere (s : string) : option string :=
  match s with
  | String "-"%char s' =>
      match Js.spanDigits s' with
      | (EmptyString, _) => None
      | (d, _) => Some (String "-"%char d)
      end
  | _ =>
      match Js.spanDigits s with
      | (EmptyString, _) => None
      | (d, _) => Some d
      end
  end.

(** [/score (cp|mate) (-?\\d+)/]: the two groups. *)
Definition scoreHere (s : string) : option (string * string) :=
  match stripPrefix "score " s with
  | None => None
  | Some r =>
      match stripPrefix "cp " r with
      | Some n => option_map (pair "cp") (signedDigitsHere n)
      | None =>
          match stripPrefix "mate " r with
          | Some n => option_map (pair "mate") (signedDigitsHere n)
          | None => None
          end
      end
  end.

Definition matchScore (line : string) : option (string * string) :=
  searchFirst scoreHere line.

(** [/ pv ([a-h][1-8][a-h][1-8][qrbn]?)/]: the group. *)
Definition pvHere (s : string) : option string :=
  match stripPrefix " pv " s with
  | Some (String f1 (String k1 (String f2 (String k2 r)))) =>
      if Js.charIn f1 "abcdefgh" && Js.charIn k1 "12345678"
         && Js.charIn f2 "abcdefgh" && Js.charIn k2 "12345678"
      then
        let sq := String f1 (String k1 (String f2 (String k2 EmptyString))) in
        match r with
        | String p _ => if Js.charIn p "qrbn" then Some (sq ++ String p EmptyString) else Some sq
        | EmptyString => Some sq
        end
      else None
  | _ => None
  end.

Definition matchPV (line : string) : option string := searchFirst pvHere line.

(** [/ multipv (\\d+)/]: the group. *)
Definition multiHere (s : string) : option string :=
  match stripPrefix " multipv " s with
  | Some r =>
      match Js.spanDigits r with
      | (EmptyString, _) => None
      | (d, _) => Some d
      end
  | None => None
  end.

Definition matchMulti (line : string) : option string := searchFirst multiHere line.

(** *** Numbers

    The numbers of the program are JavaScript Numbers, binary64; the ones
    it handles are integers, and they are modelled by [Z].  An integer of
    at most 53 significant bits is a Number; [toNumber] is the Number a
    longer one becomes: the nearest with 53 significant bits, the even
    neighbour on a tie.  From 2^1024 - 2^970 on the Number is Infinity,
    which [Z] does not hold: a score of 309 digits or more is outside this
    model. *)
Definition toNumber (z : Z) : Z :=
  let a := Z.abs z in
  let drop := Z.log2 a - 52 in
  if drop <=? 0 then z
  else
    let q := Z.shiftr a drop in
    let r := Z.land a (Z.ones drop) in
    let half := Z.shiftl 1 (drop - 1) in
    let q' := if r <? half then q
              else if half <? r then q + 1
              else if Z.even q then q else q + 1 in
    Z.sgn z * Z.shiftl q' drop.

(** [Number.isSafeInteger(z)] *)
Definition isSafeInteger (z : Z) : bool := Z.abs z <=? 2 ^ 53 - 1.

(** The integer written at the head of a text that begins with [-?\\d+]:
    [parseInt] reads the digits and stops at the first other character.
    (A text with no digit at its head gives NaN, which this model does
    not hold; the program hands over texts matched by [-?\\d+] only.) *)
Definition digitsInt (t : string) : Z :=
  match t with
  | String "-"%char d => - Js.digitsValue (fst (Js.spanDigits d))
  | _ => Js.digitsValue (fst (Js.spanDigits t))
  end.

(** [parseInt(t, 10)]: the Number nearest to the integer written. *)
Definition parseInt (t : string) : Z := toNumber (digitsInt t).

(** ** The engine adapter: data shared by the two variants *)


(** The decimal digits of a natural number. *)
Definition digitsOf (a : Z) : string := NilEmpty.string_of_int (Z.to_int a).

Fixpoint zeros (n : nat) : string :=
  match n with
  | O => EmptyString
  | S n' => String "0"%char (zeros n')
  end.

(** The shortest digits that give the Number [a] back, as [Number::toString]
    chooses them: the least [k] from [k] on for which some [s] of [k] digits
    has [s * 10^(n - k)] round to [a], and of two such [s] the nearer one.
    The result is [s] and the [n] that goes with it. *)
Fixpoint shortestDigits (fuel : nat) (k n a : Z) : Z * Z :=
  match fuel with
  | O => (a, n)
  | S fuel' =>
      let p := 10 ^ (n - k) in
      let lo := a / p in
      let hi := lo + 1 in
      let okLo := toNumber (lo * p) =? a in
      let okHi := toNumber (hi * p) =? a in
      let up := if hi =? 10 ^ k then (10 ^ (k - 1), n + 1) else (hi, n) in
      if okLo && okHi then
        if a - lo * p <? hi * p - a then (lo, n)
        else if hi * p - a <? a - lo * p then up
        else if Z.even lo then (lo, n) else up
      else if okLo then (lo, n)
      else if okHi then up
      else shortestDigits fuel' (k + 1) n a
  end.

(** [Number::toString] of a Number [a >= 2^53]: all the digits up to 21 of
    them, the shortest ones followed by zeros, and the exponent form
    beyond. *)
Definition numberToString (a : Z) : string :=
  if 2 ^ 1024 <=? a then "Infinity"
  else
    let len := Z.of_nat (String.length (digitsOf a)) in
    let (s, n) := shortestDigits (Z.to_nat len) 1 len a in
    let ds := digitsOf s in
    if n <=? 21 then ds ++ zeros (Z.to_nat n - String.length ds)%nat
    else
      let mantissa :=
        match ds with
        | String d EmptyString => ds
        | String d rest => String d (String "."%char rest)
        | EmptyString => ds
        end in
      mantissa ++ "e+" ++ digitsOf (n - 1).

(** A number inside a template literal.  A safe integer is printed with
    all its digits; every number a render prints into a command (the
    rating, the number of variations, the depth, the move time) is one.
    A longer integer is printed as the Number it becomes. *)
Definition numStr (z : Z) : string :=
  if isSafeInteger z then NilEmpty.string_of_int (Z.to_int z)
  else
    let x := toNumber z in
    (if x <? 0 then "-" else "") ++ numberToString (Z.abs x).

Record Line := mkLine {
  l_uci : string;
  l_san : string;
  l_cp : Z
}.

(** What [analyze] resolves with. *)
Record Result := mkResult {
  bestmove : option string;
  cp : Z;
  lines : list Line
}.

Definition neutral : Result := mkResult None 0 [].

(** A JavaScript array written by index and read with [filter(Boolean)]:
    the elements that were set, by increasing index.  An index that is not
    an array index (negative, or above 2^32 - 2) names a plain property and
    leaves the elements as they are. *)
Fixpoint arrayInsert {A : Type} (i : Z) (v : A) (a : list (Z * A)) : list (Z * A) :=
  match a with
  | [] => [(i, v)]
  | (j, w) :: r =>
      if i <? j then (i, v) :: a
      else if i =? j then (i, v) :: r
      else (j, w) :: arrayInsert i v r
  end.

Definition arraySet {A : Type} (i : Z) (v : A) (a : list (Z * A)) : list (Z * A) :=
  if (0 <=? i) && (i <? 2 ^ 32 - 1) then arrayInsert i v a else a.

Definition filterBoolean {A : Type} (a : list (Z * A)) : list A := map snd a.

Section Adapter.

Context {B : Board}.

(** The variables one call of [analyze] declares after its guard, which its
    listener (and, in part_000, its timer) close over. *)
Record Env := mkEnv {
  e_bestmove : option string;
  e_lastCp : Z;
  e_lines : list (Z * Line);
  e_tmp : Pos B
}.

(** One call of [analyze]: its variables, if it got past the guard, and its
    promise, [None] while pending. *)
Record Call := mkCall {
  env : option Env;
  promise : option Result
}.

(** The state of the hook [useStockfish].  A call is named by its position
    in [calls]; [listeners] is the array [subs.current] (App.jsx) or
    [listeners.current] (part_000), holding the listener of each named
    call; [posted] is what was handed to [postMessage], oldest first;
    [timers] are the pending time-outs with their delays. *)
Record Hook := mkHook {
  engine : bool;
  ready : bool;
  listeners : list nat;
  calls : list Call;
  posted : list string;
  timers : list (nat * Z)
}.

Definition initial : Hook := mkHook false false [] [] [] [].

Definition post (msg : string) (h : Hook) : Hook :=
  mkHook (engine h) (ready h) (listeners h) (calls h) (posted h ++ [msg]) (timers h).

Definition setReady (b : bool) (h : Hook) : Hook :=
  mkHook (engine h) b (listeners h) (calls h) (posted h) (timers h).

(** [on(fn)]: push the listener. *)
Definition on (id : nat) (h : Hook) : Hook :=
  mkHook (engine h) (ready h) (listeners h ++ [id]) (calls h) (posted h) (timers h).

(** [off()]: the function [on] returned. *)
Definition off (id : nat) (h : Hook) : Hook :=
  mkHook (engine h) (ready h) (filter (fun f => negb (f =? id)%nat) (listeners h))
         (calls h) (posted h) (timers h).

Fixpoint updateAt {A : Type} (n : nat) (f : A -> A) (l : list A) : list A :=
  match l, n with
  | [], _ => []
  | x :: r, O => f x :: r
  | x :: r, S n' => x :: updateAt n' f r
  end.

Definition setEnv (id : nat) (e : Env) (h : Hook) : Hook :=
  mkHook (engine h) (ready h) (listeners h)
         (updateAt id (fun c => mkCall (Some e) (promise c)) (calls h))
         (posted h) (timers h).

(** [resolve(v)]: settles a pending promise and does nothing to a settled one. *)
Definition resolve (id : nat) (v : Result) (h : Hook) : Hook :=
  mkHook (engine h) (ready h) (listeners h)
         (updateAt id (fun c => mkCall (env c)
                                  (match promise c with
                                   | None => Some v
                                   | Some old => Some old
                                   end)) (calls h))
         (posted h) (timers h).

Definition envOf (id : nat) (h : Hook) : option Env :=
  match nth_error (calls h) id with
  | Some c => env c
  | None => None
  end.

Definition promiseOf (id : nat) (h : Hook) : option Result :=
  match nth_error (calls h) id with
  | Some c => promise c
  | None => None
  end.

(** Is the promise of the call [id] pending, is it settled? *)
Definition pendingb (h : Hook) (id : nat) : bool :=
  match nth_error (calls h) id with
  | Some c => match promise c with None => true | Some _ => false end
  | None => false
  end.

Definition settledb (h : Hook) (id : nat) : bool :=
  match nth_error (calls h) id with
  | Some c => match promise c with None => false | Some _ => true end
  | None => false
  end.

(** The calls whose promise is pending, in call order. *)
Definition pendingCalls (h : Hook) : list nat :=
  filter (pendingb h) (seq 0 (List.length (calls h))).

(** [{ bestmove, cp: lastCp, lines: lines.filter(Boolean) }] *)
Definition resultOf (e : Env) : Result :=
  mkResult (e_bestmove e) (e_lastCp e) (filterBoolean (e_lines e)).

(** The branch [line.startsWith("info ")] of the listener. *)
Definition onInfo (line : string) (e : Env) : Env :=
  let mScore := matchScore line in
  let mPV := matchPV line in
  let mMulti := matchMulti line in
  let lastCp :=
    match mScore with
    | Some (kind, num) =>
        if String.eqb kind "cp" then parseInt num
        else if Js.startsWith num "-" then -100000 else 100000
    | None => e_lastCp e
    end in
  let lines :=
    match mPV, mMulti with
    | Some uci, Some multi =>
        let idx := parseInt multi - 1 in
        match find (fun m => String.eqb (uci_of m) uci) (moves (e_tmp e)) with
        | Some mv => arraySet idx (mkLine uci (san mv) lastCp) (e_lines e)
        | None => e_lines e
        end
    | _, _ => e_lines e
    end in
  mkEnv (e_bestmove e) lastCp lines (e_tmp e).

(** [line.split(" ")[1] || null] *)
Definition bestmoveToken (line : string) : option string :=
  match nth_error (Js.splitSpace line) 1 with
  | Some t => if String.eqb t EmptyString then None else Some t
  | None => None
  end.

(** The listener that the call [id] registers; the same text in both files. *)
Definition listener (id : nat) (line : string) (h : Hook) : Hook :=
  match envOf id h with
  | None => h
  | Some e =>
      if String.eqb line EmptyString then h
      else
        let e := if Js.startsWith line "info " then onInfo line e else e in
        if Js.startsWith line "bestmove" then
          let e := mkEnv (bestmoveToken line) (e_lastCp e) (e_lines e) (e_tmp e) in
          resolve id (resultOf e) (off id (setEnv id e h))
        else setEnv id e h
  end.

(** [subs.current.forEach((fn) => fn(text))]: the array is read once; [off]
    replaces it by a filtered copy and leaves the one being walked alone. *)
Definition dispatch (text : string) (h : Hook) : Hook :=
  fold_left (fun h id => listener id text h) (listeners h) h.

(** A new entry of [calls]. *)
Definition newCall (c : Call) (h : Hook) : Hook :=
  mkHook (engine h) (ready h) (listeners h) (calls h ++ [c]) (posted h) (timers h).

Definition setTimeout (id : nat) (delay : Z) (h : Hook) : Hook :=
  mkHook (engine h) (ready h) (listeners h) (calls h) (posted h) (timers h ++ [(id, delay)]).

Definition clearTimer (id : nat) (h : Hook) : Hook :=
  mkHook (engine h) (ready h) (listeners h) (calls h) (posted h)
         (filter (fun t => negb (fst t =? id)%nat) (timers h)).

(** The listeners are the pending calls. *)
Definition listenersArePending (h : Hook) : Prop :=
  listeners h = pendingCalls h.

(** What a listener leaves alone: the engine handle, the ready flag, the
    posted commands, the timers and the number of calls. *)
Definition sameFrame (h h' : Hook) : Prop :=
  engine h' = engine h /\ ready h' = ready h /\ posted h' = posted h
  /\ timers h' = timers h /\ List.length (calls h') = List.length (calls h).

(** Has the call [id] a timer running? *)
Definition timerSet (id : nat) (h : Hook) : bool :=
  existsb (fun t => (fst t =? id)%nat) (timers h).

(** A call that passed the guard is settled or has its timer running. *)
Definition settledOrTimed (id : nat) (h : Hook) : Prop :=
  envOf id h <> None /\ (promiseOf id h <> None \/ timerSet id h = true).

(** A call that waits: pending, its timer running, no bestmove seen. *)
Definition waiting (id : nat) (h : Hook) : Prop :=
  promiseOf id h = None /\ timerSet id h = true
  /\ exists e, envOf id h = Some e /\ e_bestmove e = None.

(** Nothing is registered, posted or timed, and every call made so far is
    settled with the neutral result. *)
Definition idle (h : Hook) : Prop :=
  engine h = false /\ ready h = false /\ listeners h = [] /\ posted h = []
  /\ timers h = []
  /\ forall i, (i < List.length (calls h))%nat -> promiseOf i h = Some neutral.

(** The first effect of the hook, [hasCtor] telling whether the page
    defines an engine constructor. *)
Definition mount (hasCtor : bool) (h : Hook) : Hook :=
  if engine h then h
  else if negb hasCtor then h
  else post "uci" (mkHook true (ready h) (listeners h) (calls h) (posted h) (timers h)).

(** The second effect, run when [elo], [multipv] or [ready] changes. *)
Definition syncOptions (elo multipv : Z) (h : Hook) : Hook :=
  if negb (engine h) || negb (ready h) then h
  else post ("setoption name MultiPV value " ++ numStr multipv)
         (post ("setoption name UCI_Elo value " ++ numStr elo) h).

(** What can happen to the hook: its effects run, the engine delivers a
    line, a caller calls [analyze], a timer comes due. *)
Inductive Event :=
| Mount (hasCtor : bool)
| Sync (elo multipv : Z)
| Message (text : string)
| Analyze (fen : string) (limit : Z)
| Timeout (id : nat).

Definition isAnalyze (ev : Event) : bool :=
  match ev with Analyze _ _ => true | _ => false end.

(** The page defines no engine constructor. *)
Definition noConstructor (evs : list Event) : Prop :=
  forall c, In (Mount c) evs -> c = false.

End Adapter.

Arguments Env : clear implicits.
Arguments Call : clear implicits.
Arguments Hook : clear implicits.

(** ** The hook of App.jsx *)

Module VariantA.
Section Hook.

Context {B : Board}.

(** [elo] and [multipv] as the first render saw them: [onMsg] is created
    once and keeps them. *)
Variables (elo multipv : Z).

Definition onMsg (text : string) (h : Hook B) : Hook B :=
  let h :=
    if Js.includes text "uciok" then
      let h := post "setoption name UCI_LimitStrength value true" h in
      let h := post ("setoption name UCI_Elo value " ++ numStr elo) h in
      let h := post ("setoption name MultiPV value " ++ numStr multipv) h in
      setReady true h
    else h in
  dispatch text h.

(** [analyze(fen, d)]; the promise it returns is the call [length (calls h)]. *)
Definition analyze (fen : string) (d : Z) (h : Hook B) : Hook B :=
  let id := List.length (calls h) in
  if negb (engine h) then newCall (mkCall None (Some neutral)) h
  else
    let h := newCall (mkCall (Some (mkEnv None 0 [] (load fen))) None) h in
    let h := on id h in
    let h := post "stop" h in
    let h := post ("position fen " ++ fen) h in
    post ("go depth " ++ numStr d) h.

(** No timer is ever set in this file; the engine speaks only once it was
    constructed. *)
Definition step (h : Hook B) (ev : Event) : Hook B :=
  match ev with
  | Mount hasCtor => mount hasCtor h
  | Sync e m => syncOptions e m h
  | Message text => if engine h then onMsg text h else h
  | Analyze fen d => analyze fen d h
  | Timeout _ => h
  end.

Definition run (evs : list Event) (h : Hook B) : Hook B := fold_left step evs h.

End Hook.
End VariantA.

(** ** The hook of part_000 *)

Module VariantB.
Section Hook.

Context {B : Board}.
Variables (elo multipv : Z).

Definition MOVETIME_MS : Z := 450.

Definition onMsg (text : string) (h : Hook B) : Hook B :=
  let h :=
    if Js.includes text "uciok" then
      let h := post "setoption name UCI_LimitStrength value true" h in
      let h := post ("setoption name UCI_Elo value " ++ numStr elo) h in
      let h := post ("setoption name MultiPV value " ++ numStr multipv) h in
      post "isready" h
    else h in
  let h := if Js.includes text "readyok" then setReady true h else h in
  dispatch text h.

(** The callback handed to [setTimeout]. *)
Definition onTimeout (id : nat) (h : Hook B) : Hook B :=
  match envOf id h with
  | Some e => resolve id (resultOf e) (off id h)
  | None => h
  end.

Definition analyze (fen : string) (movetime : Z) (h : Hook B) : Hook B :=
  let id := List.length (calls h) in
  if negb (engine h) then newCall (mkCall None (Some neutral)) h
  else
    let h := newCall (mkCall (Some (mkEnv None 0 [] (load fen))) None) h in
    let h := on id h in
    let h := post "stop" h in
    let h := post ("position fen " ++ fen) h in
    let h := post ("go movetime " ++ numStr movetime) h in
    setTimeout id (movetime + 600) h.

(** A timer fires once, and only if it was set. *)
Definition step (h : Hook B) (ev : Event) : Hook B :=
  match ev with
  | Mount hasCtor => mount hasCtor h
  | Sync e m => syncOptions e m h
  | Message text => if engine h then onMsg text h else h
  | Analyze fen movetime => analyze fen movetime h
  | Timeout id =>
      if existsb (fun t => (fst t =? id)%nat) (timers h)
      then onTimeout id (clearTimer id h)
      else h
  end.

Definition run (evs : list Event) (h : Hook B) : Hook B := fold_left step evs h.

(** An engine that keeps to the protocol sends readyok only in answer to
    a readiness probe: whenever a line with readyok is delivered, isready
    was posted before. *)
Definition answersProbes (evs : list Event) : Prop :=
  forall (pre : list Event) (text : string) (rest : list Event),
    evs = (pre ++ Message text :: rest)%list ->
    Js.includes text "readyok" = true ->
    In "isready" (posted (run pre initial)).

End Hook.
End VariantB.

(** ** The coaching pipeline

    An asynchronous handler is a tree: it runs to its next
    [await engine.analyze(fen, limit)] and goes on with the result. *)

Inductive Task (R : Type) : Type :=
| Ret (r : R)
| Await (fen : string) (limit : Z) (k : Result -> Task R).

Arguments Ret {R} r.
Arguments Await {R} fen limit k.

Fixpoint bind {R S : Type} (t : Task R) (f : R -> Task S) : Task S :=
  match t with
  | Ret r => f r
  | Await fen limit k => Await fen limit (fun res => bind (k res) f)
  end.

Notation "x <- t ;; k" := (bind t (fun x => k))
  (at level 61, t at next level, right associativity).

(** [finishes t r]: the handler [t] returns [r] for some results of its
    analyses. *)
Inductive finishes {R : Type} : Task R -> R -> Prop :=
| finishes_ret (r : R) : finishes (Ret r) r
| finishes_await (fen : string) (limit : Z) (k : Result -> Task R) (res : Result) (r : R) :
    finishes (k res) r -> finishes (Await fen limit k) r.

(** The analyses a handler asks for along the results [ress], in order,
    and what it returns if these results take it to its end. *)
Fixpoint requests {R : Type} (t : Task R) (ress : list Result)
  : list (string * Z) * option R :=
  match t with
  | Ret r => ([], Some r)
  | Await fen limit k =>
      match ress with
      | [] => ([(fen, limit)], None)
      | res :: rest =>
          let (q, r) := requests (k res) rest in ((fen, limit) :: q, r)
      end
  end.

(** What a handler returns when the engine answers the analysis of [fen]
    with the limit [limit] by [answer fen limit]. *)
Fixpoint runWith {R : Type} (answer : string -> Z -> Result) (t : Task R) : R :=
  match t with
  | Ret r => r
  | Await fen limit k => runWith answer (k (answer fen limit))
  end.

(** An entry of the coaching feedback. *)
Record MoveRecord := mkRecord {
  ply : nat;
  r_move : string;
  grade : string;
  loss : Z;
  note : string
}.

Section Pipeline.

Context {B : Board}.

(** A [Chess] object: the position and what [undo] and [history] need. *)
Record Game := mkGame {
  cur : Pos B;
  hist : list (Pos B * Move)
}.

(** [new Chess(fen)] *)
Definition newChess (f : string) : Game := mkGame (load f) [].

(** [new Chess()] *)
Definition freshChess : Game := mkGame start [].

(** [game.move(obj)] *)
Definition gameMove (g : Game) (obj : MoveObj) : option (Move * Game) :=
  match move (cur g) obj with
  | Some (m, p) => Some (m, mkGame p ((cur g, m) :: hist g))
  | None => None
  end.

(** [game.undo()] *)
Definition gameUndo (g : Game) : Game :=
  match hist g with
  | (p, _) :: r => mkGame p r
  | [] => g
  end.

(** What a handler reads and writes: the [Chess] object [game] of the
    render it belongs to, the values last given to [setGame] and [setFen],
    and the feedback list of [setCoach]. *)
Record App := mkApp {
  game : Game;
  gameState : Game;
  fenState : string;
  coach : list MoveRecord
}.

Definition withGame (g : Game) (a : App) : App :=
  mkApp g (gameState a) (fenState a) (coach a).

(** [setGame(new Chess(game.fen())); setFen(game.fen())] *)
Definition publish (a : App) : App :=
  mkApp (game a) (newChess (fen (cur (game a)))) (fen (cur (game a))) (coach a).

(** [setCoach(f => [...f, r])] *)
Definition pushCoach (r : MoveRecord) (a : App) : App :=
  mkApp (game a) (gameState a) (fenState a) (coach a ++ [r]).

(** The move request of [onPieceDrop], in both files:
    [{ from: sourceSquare, to: targetSquare, promotion: "q" }]. *)
Definition userMoveObj (sourceSquare targetSquare : Square) : MoveObj :=
  mkMoveObj sourceSquare targetSquare (Some Queen).

(** [mv] handed to [game.move] as it came from [moves]. *)
Definition asMoveObj (mv : Move) : MoveObj :=
  mkMoveObj (from mv) (to mv) (promotion mv).

(** [m.from + m.to + (m.promotion || "") === res.bestmove] *)
Definition isBestmove (res : Result) (m : Move) : bool :=
  match bestmove res with
  | Some u => String.eqb (uci_of m) u
  | None => false
  end.

(** The body of [engineMove] after its guard, the same in both files. *)
Definition engineReply (res : Result) (a : App) : App :=
  match find (isBestmove res) (moves (cur (game a))) with
  | Some mv =>
      let g := match gameMove (game a) (asMoveObj mv) with
               | Some (_, g') => g'
               | None => game a
               end in
      publish (withGame g a)
  | None => a
  end.



End Pipeline.

Arguments Game : clear implicits.
Arguments App : clear implicits.

Module PipelineA.
Section Handlers.

Context {B : Board}.

(** [engine.ready] and [depth] as the render of the handler saw them. *)
Variables (ready : bool) (depth : Z).

Definition engineMove (a : App B) : Task (App B) :=
  if negb ready || isGameOver (cur (game a)) then Ret a
  else Await (fen (cur (game a))) depth (fun res => Ret (engineReply res a)).

Definition onPieceDrop (sourceSquare targetSquare : Square) (a : App B)
  : Task (bool * App B) :=
  let moveObj := userMoveObj sourceSquare targetSquare in
  match gameMove (game a) moveObj with
  | None => Ret (false, a)
  | Some (mv, g) =>
      let beforeFEN := fen (cur g) in
      let a := withGame (gameUndo g) a in
      pre <- (if ready then Await (fen (cur (game a))) depth Ret
              else Ret (mkResult None 0 [])) ;;
      let cpBefore := cp pre in
      let a := withGame (match gameMove (game a) moveObj with
                         | Some (_, g') => g'
                         | None => game a
                         end) a in
      let a := publish a in
      post <- (if ready then Await (fen (cur (game a))) depth Ret
               else Ret (mkResult None cpBefore [])) ;;
      let cpAfter := cp post in
      let loss := (cpBefore - cpAfter)
                  * (if String.eqb (color_str (turn (cur (game a)))) "w" then 1 else -1) in
      let grade := if ready then gradeFromLoss loss else "A" in
      let note := explainHeuristic mv (cur (newChess beforeFEN)) (cur (game a)) in
      let a := pushCoach (mkRecord (List.length (hist (game a))) (san mv) grade loss note) a in
      a <- engineMove a ;;
      Ret (true, a)
  end.

End Handlers.
End PipelineA.

Module PipelineB.
Section Handlers.

Context {B : Board}.
Variable ready : bool.

Definition engineMove (a : App B) : Task (App B) :=
  if negb ready || isGameOver (cur (game a)) then Ret a
  else Await (fen (cur (game a))) VariantB.MOVETIME_MS
             (fun res => Ret (engineReply res a)).

(** [bestSAN]: the notated form of the engine's choice before the move. *)
Definition bestSANOf (bestUci : option string) (g : Game B) : option string :=
  match bestUci with
  | None => None
  | Some u =>
      if String.eqb u EmptyString then None
      else
        let tmp : Game B := newChess (fen (cur g)) in
        match find (fun m => String.eqb (uci_of m) u) (moves (cur tmp)) with
        | Some mv => if String.eqb (san mv) EmptyString then None else Some (san mv)
        | None => None
        end
  end.

Definition onPieceDrop (sourceSquare targetSquare : Square) (a : App B)
  : Task (bool * App B) :=
  pre <- (if ready then Await (fen (cur (game a))) VariantB.MOVETIME_MS Ret
          else Ret (mkResult None 0 [])) ;;
  let cpBefore := cp pre in
  let bestUci := bestmove pre in
  let bestSAN := bestSANOf bestUci (game a) in
  let moveObj := userMoveObj sourceSquare targetSquare in
  match gameMove (game a) moveObj with
  | None => Ret (false, a)
  | Some (mv, g) =>
      let a := publish (withGame g a) in
      post <- (if ready then Await (fen (cur (game a))) VariantB.MOVETIME_MS Ret
               else Ret (mkResult None cpBefore [])) ;;
      let cpAfter := cp post in
      let cpAfterFromPlayer := - cpAfter in
      let cpLoss := cpBefore - cpAfterFromPlayer in
      let grade := gradeFromLoss cpLoss in
      let heur := explainHeuristic (B := B) mv (cur freshChess) (cur (newChess (fen (cur (game a))))) in
      let better :=
        match bestSAN, bestUci with
        | Some s, Some u =>
            if negb (String.eqb u (uci_of mv)) then "Stronger was " ++ s ++ ". " else EmptyString
        | _, _ => EmptyString
        end in
      let note := trim (better ++ heur) in
      let a := pushCoach (mkRecord (List.length (hist (game a))) (san mv) grade cpLoss note) a in
      a <- engineMove a ;;
      Ret (true, a)
  end.

End Handlers.
End PipelineB.

(** ** A fragment of chess

    A board with five positions of the game, each with the complete list
    of its legal moves in the order chess.js generates them, for running
    the code on concrete inputs.  [Beyond] stands for every other position;
    nothing is recorded about it. *)

Module Fragment.

Inductive FPos :=
| Initial      (* the starting position *)
| AfterE4      (* 1. e4 *)
| AfterE4D5    (* 1. e4 d5 *)
| PawnA7       (* white: Ka1, pawn a7; black: Kh8; white to move *)
| QueenA8      (* the same after a8=Q+ *)
| Beyond.

Definition fenOf (p : FPos) : string :=
  match p with
  | Initial => "rnbqkbnr/pppppppp/8/8/8/8/PPPPPPPP/RNBQKBNR w KQkq - 0 1"
  | AfterE4 => "rnbqkbnr/pppppppp/8/8/4P3/8/PPPP1PPP/RNBQKBNR b KQkq e3 0 1"
  | AfterE4D5 => "rnbqkbnr/ppp1pppp/8/3p4/4P3/8/PPPP1PPP/RNBQKBNR w KQkq d6 0 2"
  | PawnA7 => "7k/P7/8/8/8/8/8/K7 w - - 0 1"
  | QueenA8 => "Q6k/8/8/8/8/8/8/K7 b - - 0 1"
  | Beyond => EmptyString
  end.

Definition known : list FPos := [Initial; AfterE4; AfterE4D5; PawnA7; QueenA8].

Definition loadOf (f : string) : FPos :=
  match find (fun p => String.eqb (fenOf p) f) known with
  | Some p => p
  | None => Beyond
  end.

Definition turnOf (p : FPos) : Color :=
  match p with
  | AfterE4 | QueenA8 => Black
  | _ => White
  end.

(** A pawn push of one or two squares along a file. *)
Definition push (c : Color) (f : File) (a b : Rank) (two : bool) : Move :=
  mkMove c (f, a) (f, b) Pawn None (if two then "b" else "n") (file_str f ++ rank_str b).

(** A quiet move of a piece, notated [letter ++ destination ++ suffix]. *)
Definition quiet (c : Color) (p : Piece) (a b : Square) (suffix : string) : Move :=
  mkMove c a b p None "n" (Js.toUpperCase (piece_str p) ++ sq_name b ++ suffix).

Definition pawnPushes (c : Color) (a one two : Rank) (fs : list File) : list Move :=
  flat_map (fun f => [push c f a one false; push c f a two true]) fs.

Definition initialMoves : list Move :=
  pawnPushes White r2 r3 r4 [fa; fb; fc; fd; fe; ff; fg; fh]
  ++ [quiet White Knight (fb, r1) (fa, r3) ""; quiet White Knight (fb, r1) (fc, r3) "";
      quiet White Knight (fg, r1) (ff, r3) ""; quiet White Knight (fg, r1) (fh, r3) ""].

Definition afterE4Moves : list Move :=
  [quiet Black Knight (fb, r8) (fc, r6) ""; quiet Black Knight (fb, r8) (fa, r6) "";
   quiet Black Knight (fg, r8) (fh, r6) ""; quiet Black Knight (fg, r8) (ff, r6) ""]
  ++ pawnPushes Black r7 r6 r5 [fa; fb; fc; fd; fe; ff; fg; fh].

Definition afterE4D5Moves : list Move :=
  [push White fe r4 r5 false;
   mkMove White (fe, r4) (fd, r5) Pawn None "c" "exd5"]
  ++ pawnPushes White r2 r3 r4 [fa; fb; fc; fd; ff; fg; fh]
  ++ [quiet White Knight (fb, r1) (fa, r3) ""; quiet White Knight (fb, r1) (fc, r3) "";
      quiet White Queen (fd, r1) (fe, r2) ""; quiet White Queen (fd, r1) (ff, r3) "";
      quiet White Queen (fd, r1) (fg, r4) ""; quiet White Queen (fd, r1) (fh, r5) "";
      quiet White King (fe, r1) (fe, r2) "";
      quiet White Bishop (ff, r1) (fe, r2) ""; quiet White Bishop (ff, r1) (fd, r3) "";
      quiet White Bishop (ff, r1) (fc, r4) ""; quiet White Bishop (ff, r1) (fb, r5) "+";
      quiet White Bishop (ff, r1) (fa, r6) "";
      quiet White Knight (fg, r1) (fe, r2) ""; quiet White Knight (fg, r1) (ff, r3) "";
      quiet White Knight (fg, r1) (fh, r3) ""].

(** The promotions of the a-pawn, queen first. *)
Definition promote (p : Piece) (suffix : string) : Move :=
  mkMove White (fa, r7) (fa, r8) Pawn (Some p) "np"
         ("a8=" ++ Js.toUpperCase (piece_str p) ++ suffix).

Definition pawnA7Moves : list Move :=
  [promote Queen "+"; promote Rook "+"; promote Bishop ""; promote Knight "";
   quiet White King (fa, r1) (fa, r2) ""; quiet White King (fa, r1) (fb, r2) "";
   quiet White King (fa, r1) (fb, r1) ""].

Definition queenA8Moves : list Move :=
  [quiet Black King (fh, r8) (fh, r7) ""; quiet Black King (fh, r8) (fg, r7) ""].

Definition movesOf (p : FPos) : list Move :=
  match p with
  | Initial => initialMoves
  | AfterE4 => afterE4Moves
  | AfterE4D5 => afterE4D5Moves
  | PawnA7 => pawnA7Moves
  | QueenA8 => queenA8Moves
  | Beyond => []
  end.

(** The position a legal move leads to. *)
Definition next (p : FPos) (m : Move) : FPos :=
  match p with
  | Initial => if String.eqb (san m) "e4" then AfterE4 else Beyond
  | AfterE4 => if String.eqb (san m) "d5" then AfterE4D5 else Beyond
  | PawnA7 => if String.eqb (san m) "a8=Q+" then QueenA8 else Beyond
  | _ => Beyond
  end.

Definition sq_eqb (a b : Square) : bool := String.eqb (sq_name a) (sq_name b).

Definition piece_eqb (a b : Piece) : bool := String.eqb (piece_str a) (piece_str b).

(** The object form of [move] in chess.js: the first legal move with the
    squares asked for and, if it promotes, the piece asked for. *)
Definition accepts (obj : MoveObj) (m : Move) : bool :=
  sq_eqb (o_from obj) (from m) && sq_eqb (o_to obj) (to m)
  && match promotion m with
     | None => true
     | Some p => match o_promotion obj with
                 | Some q => piece_eqb p q
                 | None => false
                 end
     end.

Definition moveOf (p : FPos) (obj : MoveObj) : option (Move * FPos) :=
  match find (accepts obj) (movesOf p) with
  | Some m => Some (m, next p m)
  | None => None
  end.

Definition board : Board :=
  mkBoard FPos Initial loadOf fenOf turnOf movesOf moveOf (fun _ => false).

End Fragment.

(** ** Concrete runs

    Inputs on which the code is run in the properties below. *)

(** White, with a pawn on a7 and the engine not ready, drops the pawn on a8. *)
Definition pawnA7App : App Fragment.board :=
  mkApp (mkGame (B := Fragment.board) Fragment.PawnA7 [])
        (mkGame (B := Fragment.board) Fragment.PawnA7 [])
        (Fragment.fenOf Fragment.PawnA7) [].

Definition pawnA7Dropped : App Fragment.board :=
  match snd (requests (PipelineA.onPieceDrop false 16 (fa, r7) (fa, r8) pawnA7App) []) with
  | Some (_, a') => a'
  | None => pawnA7App
  end.

(** The engine answers the handshake and reports on its search, the
    options are changed and a timer event comes, but no bestmove line. *)
Definition silentRun : list Event :=
  [Message "uciok";
   Message "info depth 1 multipv 1 score cp 31 pv e2e4";
   Timeout 0;
   Sync 1400 3;
   Message "info depth 2 multipv 1 score cp 28 pv e2e4 e7e5"].

(** The user moves before the analysis of the starting position is over:
    a second call is made while the first is pending. *)
Definition overlappingRun : list Event :=
  [Mount true; Message "uciok"; Message "readyok";
   Analyze (Fragment.fenOf Fragment.Initial) 450;
   Analyze (Fragment.fenOf Fragment.AfterE4) 450;
   Message "info depth 1 multipv 1 score cp 33 pv e7e5"].

(** A page without the engine script, on which analyses are asked for. *)
Definition engineLessRun : list Event :=
  [Mount false;
   Analyze (Fragment.fenOf Fragment.Initial) 16;
   Sync 1400 3;
   Analyze (Fragment.fenOf Fragment.AfterE4) 450;
   Timeout 0].

(** The engine reports on its search and then falls silent; the timer of
    the call comes due. *)
Definition timedOutRun : list Event :=
  [Mount true; Message "uciok"; Message "readyok";
   Analyze (Fragment.fenOf Fragment.Initial) 450;
   Message "info depth 1 multipv 2 score cp 12 pv d2d4";
   Message "info depth 1 multipv 1 score cp 31 pv e2e4";
   Timeout 0;
   Message "bestmove e2e4 ponder e7e5";
   Timeout 0].

(** ** Further vocabulary of the engine adapter *)

Section AdapterVocabulary.

Context {B : Board}.

(** [l] names a legal move of [p] by its coordinates and its notation. *)
Definition lineOf (p : Pos B) (l : Line) : Prop :=
  exists m, In m (moves p) /\ l_uci l = uci_of m /\ l_san l = san m.

(** The lines a call has collected, and the lines it has published, name
    legal moves of the position it analyses. *)
Definition callLegal (c : Call B) : Prop :=
  match env c with
  | Some e =>
      Forall (fun il => lineOf (e_tmp e) (snd il)) (e_lines e)
      /\ match promise c with
         | Some r => Forall (lineOf (e_tmp e)) (lines r)
         | None => True
         end
  | None => promise c = Some neutral
  end.

(** The call [id] analyses the position [p]: what it has collected and
    what it has published names legal moves of [p]; or it was made without
    an engine and is settled with the neutral result. *)
Definition analyses (id : nat) (p : Pos B) (h : Hook B) : Prop :=
  (exists e,
      envOf id h = Some e
      /\ e_tmp e = p
      /\ Forall (fun il => lineOf p (snd il)) (e_lines e)
      /\ match promiseOf id h with
         | Some r => Forall (lineOf p) (lines r)
         | None => True
         end)
  \/ (envOf id h = None /\ promiseOf id h = Some neutral).

(** The handshake was posted once, first, and only with an engine. *)
Definition handshakeOnce (h : Hook B) : Prop :=
  (engine h = false /\ posted h = [])
  \/ (engine h = true /\ exists rest, posted h = "uci" :: rest /\ ~ In "uci" rest).

End AdapterVocabulary.

(** ** The remaining handlers *)

(** [clamp(n, a, b)], the same in both files. *)
Definition clamp (n a b : Z) : Z := Z.max a (Z.min b n).

(** The depth of the analysis that keeps the evaluation bar current in
    App.jsx, [Math.max(8, Math.min(depth, 18))], the depth of a hint,
    [Math.max(8, depth)], and the depth the slider sets,
    [clamp(parseInt(value), 8, 22)]. *)
Definition evalDepth (depth : Z) : Z := Z.max 8 (Z.min depth 18).
Definition hintDepth (depth : Z) : Z := Z.max 8 depth.
Definition sliderDepth (value : Z) : Z := clamp value 8 22.

(** [finishesWith t ress r]: the handler [t] returns [r] when its
    analyses are answered, in order, by exactly the results [ress]. *)
Inductive finishesWith {R : Type} : Task R -> list Result -> R -> Prop :=
| finishesWith_ret (r : R) : finishesWith (Ret r) [] r
| finishesWith_await (fen : string) (limit : Z) (k : Result -> Task R)
    (res : Result) (ress : list Result) (r : R) :
    finishesWith (k res) ress r -> finishesWith (Await fen limit k) (res :: ress) r.

Section Renders.

Context {B : Board}.

(** The handlers of the next render close over the game that [setGame]
    was last given. *)
Definition rerender (a : App B) : App B :=
  mkApp (gameState a) (gameState a) (fenState a) (coach a).

(** The sign by which App.jsx multiplies the loss: [game.turn() === "w" ? 1 : -1]. *)
Definition turnSign (p : Pos B) : Z :=
  if String.eqb (color_str (turn p)) "w" then 1 else -1.

End Renders.

Module HandlersA.
Section Handlers.

Context {B : Board}.
Variables (ready : bool) (depth : Z).

Definition onUndo (a : App B) : App B :=
  if (List.length (hist (game a)) =? 0)%nat then a
  else publish (withGame (gameUndo (gameUndo (game a))) a).

(** [newGame(color)]: the state after its synchronous part, and the
    handler it schedules for black, the [engineMove] of its own render. *)
Definition newGame (a : App B) : App B :=
  mkApp (game a) freshChess (fen (cur (freshChess (B := B)))) [].

Definition newGameScheduled (black : bool) (a : App B) : option (Z * Task (App B)) :=
  if black then Some (100, PipelineA.engineMove ready depth (newGame a)) else None.

End Handlers.
End HandlersA.

Module HandlersB.
Section Handlers.

Context {B : Board}.
Variable ready : bool.

Definition onUndo (a : App B) : App B :=
  if (List.length (hist (game a)) =? 0)%nat then a
  else
    let g := gameUndo (game a) in
    let g := if (0 <? List.length (hist g))%nat then gameUndo g else g in
    publish (withGame g a).

Definition newGame (a : App B) : App B :=
  mkApp (game a) freshChess (fen (cur (freshChess (B := B)))) [].

Definition newGameScheduled (black : bool) (a : App B) : option (Z * Task (App B)) :=
  if black then Some (150, PipelineB.engineMove ready (newGame a)) else None.

End Handlers.
End HandlersB.

(** ** Further concrete runs *)

(** The engine has answered the handshake and reported once on the search
    of the starting position. *)
Definition searchingRun : list Event :=
  [Message "uciok"; Message "readyok";
   Message "info depth 1 multipv 1 score cp 31 pv e2e4"].

Definition searchingHook : Hook Fragment.board :=
  VariantB.run 1200 3 searchingRun
    (VariantB.analyze (Fragment.fenOf Fragment.Initial) 450
       (mount (B := Fragment.board) true initial)).

Definition searchingEnv : Env Fragment.board :=
  mkEnv (B := Fragment.board) None 31 [(0, mkLine "e2e4" "e4" 31)] Fragment.Initial.

(** Black is to move after 1. e4; the engine is ready and answers the
    analyses before and after the move and the request for its reply. *)
Definition afterE4App : App Fragment.board :=
  mkApp (mkGame (B := Fragment.board) Fragment.AfterE4 [])
        (mkGame (B := Fragment.board) Fragment.AfterE4 [])
        (Fragment.fenOf Fragment.AfterE4) [].

Definition d5Answers : list Result :=
  [mkResult (Some "e7e5") (-30) [];
   mkResult (Some "e4d5") 45 [];
   mkResult (Some "e4d5") 45 []].

Definition outcomeOf {R : Type} (t : Task R) (ress : list Result) (default : R) : R :=
  match snd (requests t ress) with
  | Some r => r
  | None => default
  end.

Definition d5DroppedA : bool * App Fragment.board :=
  outcomeOf (PipelineA.onPieceDrop true 16 (fd, r7) (fd, r5) afterE4App) d5Answers
            (false, afterE4App).

Definition d5DroppedB : bool * App Fragment.board :=
  outcomeOf (PipelineB.onPieceDrop true (fd, r7) (fd, r5) afterE4App) d5Answers
            (false, afterE4App).

(** The engine answers that it has no move. *)
Definition noMoveAnswer : Result := mkResult (Some "(none)") 0 [].

(** A new game as black is asked for while the game on the board stands
    after 1. e4; the engine answers the scheduled request with d7d5. *)
Definition newGameAnswer : Result := mkResult (Some "d7d5") 20 [].

Definition newGameBlackA : App Fragment.board :=
  outcomeOf (PipelineA.engineMove true 16 (HandlersA.newGame afterE4App))
            [newGameAnswer] afterE4App.

Section Shown.

Context {B : Board}.

(** [game.history({ verbose: true }).map((m) => m.san)] of a render, and
    the opening shown for it. *)
Definition currentSAN (a : App B) : list string :=
  map (fun pm => san (snd pm)) (rev (hist (game a))).

Definition openingInfo (a : App B) : option OpeningInfo :=
  detectOpening (currentSAN a).

End Shown.

Definition fallbackPhrase : string :=
  "Idea makes sense, but there may be a more precise square.".

(** An info line as Stockfish sends it, up to its score. *)
Definition infoHead : string := "info depth 12 seldepth 18 multipv 1 ".

(** ** The open game

    A second board: the positions of the line 1. e4 e5 2. Nf3 Nc6, each
    with the complete list of its legal moves in the order chess.js
    generates them.  [Off] stands for every other position; nothing is
    recorded about it. *)

Module Mainline.

Inductive MPos :=
| Start        (* the starting position *)
| E4           (* 1. e4 *)
| E4E5         (* 1. e4 e5 *)
| Nf3          (* 1. e4 e5 2. Nf3 *)
| Nf3Nc6       (* 1. e4 e5 2. Nf3 Nc6 *)
| Off.

Definition fenOf (p : MPos) : string :=
  match p with
  | Start => Fragment.fenOf Fragment.Initial
  | E4 => Fragment.fenOf Fragment.AfterE4
  | E4E5 => "rnbqkbnr/pppp1ppp/8/4p3/4P3/8/PPPP1PPP/RNBQKBNR w KQkq e6 0 2"
  | Nf3 => "rnbqkbnr/pppp1ppp/8/4p3/4P3/5N2/PPPP1PPP/RNBQKB1R b KQkq - 1 2"
  | Nf3Nc6 => "r1bqkbnr/pppp1ppp/2n5/4p3/4P3/5N2/PPPP1PPP/RNBQKB1R w KQkq - 2 3"
  | Off => EmptyString
  end.

Definition known : list MPos := [Start; E4; E4E5; Nf3; Nf3Nc6].

Definition loadOf (f : string) : MPos :=
  match find (fun p => String.eqb (fenOf p) f) known with
  | Some p => p
  | None => Off
  end.

Definition turnOf (p : MPos) : Color :=
  match p with
  | E4 | Nf3 => Black
  | _ => White
  end.

Definition quiet := Fragment.quiet.
Definition pawnPushes := Fragment.pawnPushes.

(** White after 1. e4 e5. *)
Definition e4e5Moves : list Move :=
  pawnPushes White r2 r3 r4 [fa; fb; fc; fd; ff; fg; fh]
  ++ [quiet White Knight (fb, r1) (fa, r3) ""; quiet White Knight (fb, r1) (fc, r3) "";
      quiet White Queen (fd, r1) (fe, r2) ""; quiet White Queen (fd, r1) (ff, r3) "";
      quiet White Queen (fd, r1) (fg, r4) ""; quiet White Queen (fd, r1) (fh, r5) "";
      quiet White King (fe, r1) (fe, r2) "";
      quiet White Bishop (ff, r1) (fe, r2) ""; quiet White Bishop (ff, r1) (fd, r3) "";
      quiet White Bishop (ff, r1) (fc, r4) ""; quiet White Bishop (ff, r1) (fb, r5) "";
      quiet White Bishop (ff, r1) (fa, r6) "";
      quiet White Knight (fg, r1) (fe, r2) ""; quiet White Knight (fg, r1) (ff, r3) "";
      quiet White Knight (fg, r1) (fh, r3) ""].

(** Black after 2. Nf3. *)
Definition nf3Moves : list Move :=
  [quiet Black Knight (fb, r8) (fc, r6) ""; quiet Black Knight (fb, r8) (fa, r6) "";
   quiet Black Queen (fd, r8) (fe, r7) ""; quiet Black Queen (fd, r8) (ff, r6) "";
   quiet Black Queen (fd, r8) (fg, r5) ""; quiet Black Queen (fd, r8) (fh, r4) "";
   quiet Black King (fe, r8) (fe, r7) "";
   quiet Black Bishop (ff, r8) (fe, r7) ""; quiet Black Bishop (ff, r8) (fd, r6) "";
   quiet Black Bishop (ff, r8) (fc, r5) ""; quiet Black Bishop (ff, r8) (fb, r4) "";
   quiet Black Bishop (ff, r8) (fa, r3) "";
   quiet Black Knight (fg, r8) (fh, r6) ""; quiet Black Knight (fg, r8) (ff, r6) "";
   quiet Black Knight (fg, r8) (fe, r7) ""]
  ++ pawnPushes Black r7 r6 r5 [fa; fb; fc; fd; ff; fg; fh].

(** White after 2... Nc6. *)
Definition nc6Moves : list Move :=
  [quiet White Knight (ff, r3) (fd, r4) "";
   mkMove White (ff, r3) (fe, r5) Knight None "c" "Nxe5";
   quiet White Knight (ff, r3) (fg, r5) ""; quiet White Knight (ff, r3) (fh, r4) "";
   quiet White Knight (ff, r3) (fg, r1) ""]
  ++ pawnPushes White r2 r3 r4 [fa; fb; fc; fd; fg; fh]
  ++ [quiet White Knight (fb, r1) (fa, r3) ""; quiet White Knight (fb, r1) (fc, r3) "";
      quiet White Queen (fd, r1) (fe, r2) "";
      quiet White King (fe, r1) (fe, r2) "";
      quiet White Bishop (ff, r1) (fe, r2) ""; quiet White Bishop (ff, r1) (fd, r3) "";
      quiet White Bishop (ff, r1) (fc, r4) ""; quiet White Bishop (ff, r1) (fb, r5) "";
      quiet White Bishop (ff, r1) (fa, r6) "";
      quiet White Rook (fh, r1) (fg, r1) ""].

Definition movesOf (p : MPos) : list Move :=
  match p with
  | Start => Fragment.initialMoves
  | E4 => Fragment.afterE4Moves
  | E4E5 => e4e5Moves
  | Nf3 => nf3Moves
  | Nf3Nc6 => nc6Moves
  | Off => []
  end.

(** The position a legal move leads to. *)
Definition next (p : MPos) (m : Move) : MPos :=
  match p with
  | Start => if String.eqb (san m) "e4" then E4 else Off
  | E4 => if String.eqb (san m) "e5" then E4E5 else Off
  | E4E5 => if String.eqb (san m) "Nf3" then Nf3 else Off
  | Nf3 => if String.eqb (san m) "Nc6" then Nf3Nc6 else Off
  | _ => Off
  end.

Definition moveOf (p : MPos) (obj : MoveObj) : option (Move * MPos) :=
  match find (Fragment.accepts obj) (movesOf p) with
  | Some m => Some (m, next p m)
  | None => None
  end.

Definition board : Board :=
  mkBoard MPos Start loadOf fenOf turnOf movesOf moveOf (fun _ => false).

End Mainline.

(** ** The selection of the opening as the specification words it *)

(** The history 1. e4 e5 2. Nf3 and the two entries of the book that
    begin with it; [kingsKnight] is the second entry and [italianGame] the
    third. *)
Definition threeMoves : list string := ["e4"; "e5"; "Nf3"].

Definition kingsKnight : Opening := mkOpening "C40" "King's Knight Opening" "e4 e5 Nf3".

Definition italianGame : Opening := mkOpening "C50" "Italian Game" "e4 e5 Nf3 Nc6 Bc4".

Section SpecMatcher.

Context {B : Board}.

(** The number of matched moves of a candidate: the prefix comparison
    counts only up to the shorter of the book line and the history. *)
Definition spec_matchedMoves (movesSAN : list string) (op : Opening) : option nat :=
  match tryMatch movesSAN op with
  | Some got => Some (Nat.min (matchedLen got) (List.length movesSAN))
  | None => None
  end.

(** Among the candidates that replay fully and match the compared prefix,
    keep the one with the greatest number of matched moves; ties keep the
    first-encountered candidate. *)
Definition spec_keepBest (movesSAN : list string) (best : option OpeningInfo)
  (op : Opening) : option OpeningInfo :=
  match spec_matchedMoves movesSAN op with
  | Some n =>
      match best with
      | None => Some (mkInfo (eco op) (name op) n)
      | Some b => if (matchedLen b <? n)%nat then Some (mkInfo (eco op) (name op) n) else best
      end
  | None => best
  end.

Definition spec_detectOpening (movesSAN : list string) : option OpeningInfo :=
  fold_left (spec_keepBest movesSAN) OPENINGS None.

End SpecMatcher.

(** ** Further concrete runs *)

(** The engine answers every analysis with the neutral result. *)
Definition neutralAnswer : string -> Z -> Result := fun _ _ => neutral.

(** The pawn on a7 with the engine ready. *)
Definition pawnA7OutA : bool * App Fragment.board :=
  runWith neutralAnswer (PipelineA.onPieceDrop true 16 (fa, r7) (fa, r8) pawnA7App).

Definition pawnA7OutB : bool * App Fragment.board :=
  runWith neutralAnswer (PipelineB.onPieceDrop true (fa, r7) (fa, r8) pawnA7App).


(** * Properties *)

(** ** Strings and the parser on examples *)

Example pgnTokens_plain : pgnTokens "e4 e5 Nf3 Nc6 Bb5" = ["e4"; "e5"; "Nf3"; "Nc6"; "Bb5"].
Proof. reflexivity. Qed.

Example pgnTokens_numbered :
  pgnTokens " 1. e4 e5 2.Nf3+ Nc6!? 13 " = ["e4"; "e5"; "Nf3"; "Nc6"; "13"].
Proof. reflexivity. Qed.

Example matchScore_cp :
  matchScore "info depth 12 multipv 2 score cp -31 nodes 5 pv g1f3 d7d5" = Some ("cp", "-31").
Proof. reflexivity. Qed.

Example matchPV_promo : matchPV "info multipv 1 score mate 3 pv a7a8q h8h7" = Some "a7a8q".
Proof. reflexivity. Qed.

Example matchMulti_2 : matchMulti "info depth 12 multipv 2 score cp -31 pv g1f3" = Some "2".
Proof. reflexivity. Qed.

(** ** The move grader *)

Lemma loss_le_bound (z n : Z) :
  Qle_bool (Qabs (inject_Z z) / inject_Z 100)%Q (n # 10) = (Z.abs z <=? 10 * n).
Proof.
  apply eq_true_iff_eq. rewrite Qle_bool_iff, Z.leb_le.
  unfold Qle, Qdiv, Qmult, Qinv, Qabs, inject_Z; cbn -[Z.mul Z.abs].
  lia.
Qed.

Lemma gradeFromLoss_steps (z : Z) : gradeFromLoss z = gradeSteps z.
Proof.
  unfold gradeFromLoss, gradeSteps.
  rewrite !loss_le_bound. reflexivity.
Qed.

(** On every loss of at most 1000 centipawns in absolute value the
    binary64 computation gives the grade of the exact one: the quotient of
    two integers is correctly rounded and each decimal bound is the double
    nearest to it, so no boundary moves. *)
Lemma gradeFromLoss_f64_agrees : f64_agrees_upto 1000 = true.
Proof. vm_compute. reflexivity. Qed.

Lemma gradeSteps_monotone (a b : Z) :
  Z.abs a <= Z.abs b -> (gradeIndex (gradeSteps a) <= gradeIndex (gradeSteps b))%nat.
Proof.
  intros Hab. unfold gradeSteps.
  repeat match goal with
         | |- context [?x <=? ?y] => destruct (Z.leb_spec x y)
         end; cbn; lia.
Qed.

(** C5: for every integer loss, [gradeFromLoss] is the step function on the
    absolute loss with the bounds 0.10, 0.20, 0.50, 0.90 and 1.50 pawns
    (10, 20, 50, 90 and 150 centipawns), each bound belonging to the better
    grade; the grade never improves when the absolute loss grows; and the
    losses 10, 20, 50, 90, 150 and 151 are graded A+, A, B, C, D and F. *)
Theorem gradeFromLoss_step_function :
  (forall cpLoss : Z,
      gradeFromLoss cpLoss =
      if Z.abs cpLoss <=? 10 then "A+"
      else if Z.abs cpLoss <=? 20 then "A"
      else if Z.abs cpLoss <=? 50 then "B"
      else if Z.abs cpLoss <=? 90 then "C"
      else if Z.abs cpLoss <=? 150 then "D"
      else "F")
  /\ (forall a b : Z,
         Z.abs a <= Z.abs b ->
         (gradeIndex (gradeFromLoss a) <= gradeIndex (gradeFromLoss b))%nat)
  /\ gradeFromLoss 10 = "A+" /\ gradeFromLoss 20 = "A" /\ gradeFromLoss 50 = "B"
  /\ gradeFromLoss 90 = "C" /\ gradeFromLoss 150 = "D" /\ gradeFromLoss 151 = "F".
Proof.
  split; [exact gradeFromLoss_steps|].
  split; [intros a b Hab; rewrite !gradeFromLoss_steps; now apply gradeSteps_monotone|].
  repeat split; reflexivity.
Qed.

(** ** The opening matcher *)

Section MatcherFacts.

Context {B : Board}.

Lemma replay_extends (toks : list string) :
  forall (tmp : Pos B) (acc target : list string),
    replay tmp acc toks = Some target ->
    exists added, target = (acc ++ added)%list /\ List.length added = List.length toks.
Proof.
  induction toks as [|tok rest IH]; intros tmp acc target H; cbn [replay] in H.
  - injection H as <-. exists []. now rewrite app_nil_r.
  - destruct (find (tokenMatches tok) (moves tmp)) as [m|]; [|discriminate].
    apply IH in H. destruct H as (added & -> & Hlen).
    exists (san m :: added). rewrite <- app_assoc. cbn. now rewrite Hlen.
Qed.

(** A match reports the length of the whole book line. *)
Lemma tryMatch_matchedLen (movesSAN : list string) (op : Opening) (got : OpeningInfo) :
  tryMatch movesSAN op = Some got ->
  matchedLen got = List.length (pgnTokens (pgn op))
  /\ i_eco got = eco op /\ i_name got = name op.
Proof.
  unfold tryMatch. intros H.
  destruct (replay start [] (pgnTokens (pgn op))) as [target|] eqn:E; [|discriminate].
  destruct (prefixAgrees target movesSAN); [|discriminate].
  injection H as <-. cbn.
  apply replay_extends in E. destruct E as (added & -> & Hlen). cbn. auto.
Qed.

Lemma sq_name_length (s : Square) : String.length (sq_name s) = 2%nat.
Proof. destruct s as [f r]; destruct f, r; reflexivity. Qed.

Lemma string_app_length (s t : string) :
  String.length (s ++ t) = (String.length s + String.length t)%nat.
Proof. induction s as [|c s IH]; cbn; [reflexivity|now rewrite IH]. Qed.

(** A token that is not four characters long is resolved by notation. *)
Lemma tokenMatches_by_san (tok : string) (mv : Move) :
  String.length tok <> 4%nat ->
  tokenMatches tok mv = true ->
  stripDecor (san mv) = stripDecor tok.
Proof.
  intros Hlen H. unfold tokenMatches in H.
  apply orb_true_iff in H. destruct H as [H|H].
  - apply String.eqb_eq in H. exfalso. apply Hlen. rewrite <- H.
    now rewrite string_app_length, !sq_name_length.
  - now apply String.eqb_eq in H.
Qed.

Lemma find_holds {A : Type} (f : A -> bool) (l : list A) (x : A) :
  find f l = Some x -> f x = true.
Proof. intros H. now apply find_some in H. Qed.

(** A book line whose first token is not the first move played is
    rejected. *)
Lemma tryMatch_first_move_differs (op : Opening) (tok first : string)
      (others : list string) :
  hd_error (pgnTokens (pgn op)) = Some tok ->
  String.length tok <> 4%nat ->
  stripDecor tok <> stripDecor first ->
  tryMatch (first :: others) op = None.
Proof.
  intros Hhd Hlen Hne. unfold tryMatch.
  destruct (pgnTokens (pgn op)) as [|tok' rest]; [discriminate|].
  injection Hhd as ->. cbn [replay].
  destruct (find (tokenMatches tok) (moves start)) as [m|] eqn:Ef; [|reflexivity].
  apply find_holds in Ef. apply tokenMatches_by_san in Ef; [|assumption].
  match goal with |- context [replay ?p ?acc rest] => destruct (replay p acc rest) as [target|] eqn:E end;
    [|reflexivity].
  apply replay_extends in E. destruct E as (added & -> & _).
  unfold prefixAgrees. cbn [app List.length Nat.min seq forallb nth].
  rewrite Ef.
  destruct (String.eqb_spec (stripDecor tok) (stripDecor first)) as [Heq|_];
    [contradiction|reflexivity].
Qed.

(** The loop of [detectOpening], started with any [best]. *)
Lemma keepBest_fold_none (movesSAN : list string) (book : list Opening) :
  (forall op, In op book -> tryMatch movesSAN op = None) ->
  forall best, fold_left (keepBest movesSAN) book best = best.
Proof.
  induction book as [|op book IH]; intros Hall best; [reflexivity|].
  cbn [fold_left]. unfold keepBest at 2.
  rewrite (Hall op (or_introl eq_refl)).
  apply IH. intros op' Hin. apply Hall. now right.
Qed.

Lemma selects_snoc (movesSAN : list string) (book : list Opening)
      (best : option OpeningInfo) (op : Opening) :
  selects movesSAN book best ->
  selects movesSAN (book ++ [op]) (keepBest movesSAN best op).
Proof.
  intros Hsel. unfold keepBest.
  destruct (tryMatch movesSAN op) as [got|] eqn:Eop.
  - destruct best as [b|].
    + destruct (Nat.ltb_spec (matchedLen b) (matchedLen got)) as [Hlt|Hge].
      * (* the new entry is strictly longer *)
        cbn. exists (List.length book), op.
        split; [now rewrite nth_error_app2, Nat.sub_diag by lia|].
        split; [assumption|].
        intros j op' c Hj Hc.
        destruct (Nat.lt_ge_cases j (List.length book)) as [Hin|Hout].
        -- rewrite nth_error_app1 in Hj by assumption.
           destruct Hsel as (i & opi & Hi & Hbi & Hmax).
           destruct (Hmax j op' c Hj Hc) as [Hle _]. split; intros; lia.
        -- rewrite nth_error_app2 in Hj by assumption.
           destruct (j - List.length book)%nat as [|k] eqn:Ek; cbn in Hj.
           ++ injection Hj as <-. rewrite Eop in Hc. injection Hc as <-.
              split; [lia|]. intros Hji. lia.
           ++ destruct k; discriminate.
      * (* the earlier best is kept *)
        cbn. destruct Hsel as (i & opi & Hi & Hbi & Hmax).
        assert (Hib : (i < List.length book)%nat)
          by (apply nth_error_Some; congruence).
        exists i, opi.
        split; [now rewrite nth_error_app1|].
        split; [assumption|].
        intros j op' c Hj Hc.
        destruct (Nat.lt_ge_cases j (List.length book)) as [Hin|Hout].
        -- rewrite nth_error_app1 in Hj by assumption. eauto.
        -- rewrite nth_error_app2 in Hj by assumption.
           destruct (j - List.length book)%nat as [|k] eqn:Ek; cbn in Hj.
           ++ injection Hj as <-. rewrite Eop in Hc. injection Hc as <-.
              split; [lia|]. intros Hji. lia.
           ++ destruct k; discriminate.
    + (* nothing matched so far *)
      cbn. exists (List.length book), op.
      split; [now rewrite nth_error_app2, Nat.sub_diag by lia|].
      split; [assumption|].
      intros j op' c Hj Hc.
      destruct (Nat.lt_ge_cases j (List.length book)) as [Hin|Hout].
      * rewrite nth_error_app1 in Hj by assumption.
        apply nth_error_In in Hj. cbn in Hsel. rewrite (Hsel op' Hj) in Hc. discriminate.
      * rewrite nth_error_app2 in Hj by assumption.
        destruct (j - List.length book)%nat as [|k] eqn:Ek; cbn in Hj.
        -- injection Hj as <-. rewrite Eop in Hc. injection Hc as <-.
           split; [lia|]. intros Hji. lia.
        -- destruct k; discriminate.
  - destruct best as [b|]; cbn in *.
    + destruct Hsel as (i & opi & Hi & Hbi & Hmax).
      assert (Hib : (i < List.length book)%nat)
        by (apply nth_error_Some; congruence).
      exists i, opi.
      split; [now rewrite nth_error_app1|].
      split; [assumption|].
      intros j op' c Hj Hc.
      destruct (Nat.lt_ge_cases j (List.length book)) as [Hin|Hout].
      * rewrite nth_error_app1 in Hj by assumption. eauto.
      * rewrite nth_error_app2 in Hj by assumption.
        destruct (j - List.length book)%nat as [|k] eqn:Ek; cbn in Hj.
        -- injection Hj as <-. rewrite Eop in Hc. discriminate.
        -- destruct k; discriminate.
    + intros op' Hin. apply in_app_or in Hin. destruct Hin as [Hin|[<-|[]]]; auto.
Qed.

Lemma detectOpeningIn_selects (movesSAN : list string) (book : list Opening) :
  selects movesSAN book (detectOpeningIn book movesSAN).
Proof.
  unfold detectOpeningIn.
  induction book as [|op book IH] using rev_ind.
  - cbn. intros op [].
  - rewrite fold_left_app. cbn [fold_left]. now apply selects_snoc.
Qed.

(** No line of the book begins with a3. *)
Lemma book_rejects_a3 (op : Opening) :
  In op OPENINGS -> tryMatch ["a3"] op = None.
Proof.
  intros Hin. unfold OPENINGS in Hin. cbn [In] in Hin.
  repeat (destruct Hin as [<-|Hin];
          [ first [ apply (tryMatch_first_move_differs _ "e4"); [reflexivity|discriminate|discriminate]
                  | apply (tryMatch_first_move_differs _ "d4"); [reflexivity|discriminate|discriminate] ] | ]).
  destruct Hin.
Qed.

(** Once the best match is as long as any line of the rest of the book,
    the loop keeps it. *)
Lemma keepBest_bounded (movesSAN : list string) (b : OpeningInfo) (book : list Opening) :
  (forall op got, In op book -> tryMatch movesSAN op = Some got ->
                  (matchedLen got <= matchedLen b)%nat) ->
  fold_left (keepBest movesSAN) book (Some b) = Some b.
Proof.
  induction book as [|op book IH]; intros H; [reflexivity|].
  cbn [fold_left]. unfold keepBest at 2.
  destruct (tryMatch movesSAN op) as [got|] eqn:E.
  - pose proof (H op got (or_introl eq_refl) E) as Hle.
    replace (matchedLen b <? matchedLen got)%nat with false
      by (symmetry; apply Nat.ltb_ge; lia).
    apply IH. intros op' got' Hin. apply H. now right.
  - apply IH. intros op' got' Hin. apply H. now right.
Qed.

(** No line of the book has more than five moves. *)
Lemma book_lines_at_most_five (movesSAN : list string) (op : Opening) (got : OpeningInfo) :
  In op OPENINGS -> tryMatch movesSAN op = Some got -> (matchedLen got <= 5)%nat.
Proof.
  intros Hin E. apply tryMatch_matchedLen in E. destruct E as (-> & _ & _).
  unfold OPENINGS in Hin. cbn [In] in Hin.
  repeat (destruct Hin as [<-|Hin]; [vm_compute; lia|]).
  destruct Hin.
Qed.

(** Counting matched moves, a candidate that matches the whole history
    cannot be overtaken. *)
Lemma spec_keepBest_full (movesSAN : list string) (b : OpeningInfo) (book : list Opening) :
  matchedLen b = List.length movesSAN ->
  fold_left (spec_keepBest movesSAN) book (Some b) = Some b.
Proof.
  intros Hb. induction book as [|op book IH]; [reflexivity|].
  cbn [fold_left]. unfold spec_keepBest at 2, spec_matchedMoves.
  destruct (tryMatch movesSAN op) as [got|]; [|exact IH].
  replace (matchedLen b <? Nat.min (matchedLen got) (List.length movesSAN))%nat with false
    by (symmetry; apply Nat.ltb_ge; lia).
  exact IH.
Qed.

End MatcherFacts.

(** What the loop of [detectOpening] computes, for every move history: it
    returns null exactly when no entry of the book is matched by
    [tryMatch], and otherwise the match of an entry such that no matched
    entry has a greater [matchedLen] and every matched entry earlier in
    the book has a strictly smaller one; the history a3 is matched by no
    entry and gives null.  (The [matchedLen] that [tryMatch] reports is
    the length of the book line.) *)
Lemma detectOpening_selects_by_matchedLen {B : Board} (movesSAN : list string) :
  match detectOpening (B := B) movesSAN with
  | None => forall op, In op OPENINGS -> tryMatch (B := B) movesSAN op = None
  | Some best =>
      exists i op,
        nth_error OPENINGS i = Some op
        /\ tryMatch (B := B) movesSAN op = Some best
        /\ forall j op' c,
            nth_error OPENINGS j = Some op' ->
            tryMatch (B := B) movesSAN op' = Some c ->
            (matchedLen c <= matchedLen best)%nat
            /\ ((j < i)%nat -> (matchedLen c < matchedLen best)%nat)
  end
  /\ detectOpening (B := B) ["a3"] = None.
Proof.
  split.
  - exact (detectOpeningIn_selects movesSAN OPENINGS).
  - unfold detectOpening, detectOpeningIn.
    apply keepBest_fold_none. intros op Hin. now apply book_rejects_a3.
Qed.

(** C7: the history is 1. e4 e5 2. Nf3.  On every board on which the
    entries King's Knight Opening and Italian Game of the book match this
    history, as they do in chess, both match its three moves, and the
    King's Knight Opening comes first in the book: the selection by the
    greatest number of matched moves, ties to the first-encountered
    candidate, keeps the King's Knight Opening with three matched moves.
    [detectOpening] returns the Italian Game and reports five matched
    moves, more than the history has: it ranks the candidates by the
    length of their book lines. *)
Theorem detectOpening_ranks_by_book_length {B : Board} :
  tryMatch threeMoves kingsKnight <> None ->
  tryMatch threeMoves italianGame <> None ->
  nth_error OPENINGS 1 = Some kingsKnight
  /\ nth_error OPENINGS 2 = Some italianGame
  /\ spec_matchedMoves threeMoves kingsKnight = Some 3%nat
  /\ spec_matchedMoves threeMoves italianGame = Some 3%nat
  /\ spec_detectOpening threeMoves = Some (mkInfo "C40" "King's Knight Opening" 3)
  /\ detectOpening threeMoves = Some (mkInfo "C50" "Italian Game" 5)
  /\ (List.length threeMoves < 5)%nat.
Proof.
  intros H1 H2.
  destruct (tryMatch threeMoves kingsKnight) as [kk|] eqn:E1; [|contradiction].
  destruct (tryMatch threeMoves italianGame) as [it|] eqn:E2; [|contradiction].
  clear H1 H2.
  pose proof (tryMatch_matchedLen _ _ _ E1) as (Hl1 & He1 & Hn1).
  pose proof (tryMatch_matchedLen _ _ _ E2) as (Hl2 & He2 & Hn2).
  destruct kk as [e1 n1 l1], it as [e2 n2 l2]. cbn [matchedLen i_eco i_name] in *.
  vm_compute in Hl1, He1, Hn1, Hl2, He2, Hn2. subst.
  split; [reflexivity|]. split; [reflexivity|].
  split; [unfold spec_matchedMoves; now rewrite E1|].
  split; [unfold spec_matchedMoves; now rewrite E2|].
  split; [|split; [|vm_compute; lia]].
  - unfold spec_detectOpening.
    change OPENINGS
      with ([mkOpening "C20" "King's Pawn Game" "e4"; kingsKnight] ++ skipn 2 OPENINGS)%list.
    rewrite fold_left_app. cbn [fold_left].
    assert (Hfirst : spec_keepBest threeMoves
                       (spec_keepBest threeMoves None (mkOpening "C20" "King's Pawn Game" "e4"))
                       kingsKnight
                     = Some (mkInfo "C40" "King's Knight Opening" 3)).
    { unfold spec_keepBest, spec_matchedMoves. rewrite E1.
      destruct (tryMatch threeMoves (mkOpening "C20" "King's Pawn Game" "e4"))
        as [c|] eqn:E0; [|reflexivity].
      apply tryMatch_matchedLen in E0. destruct E0 as (Hl0 & _ & _).
      match type of Hl0 with
      | _ = ?r => let v := eval vm_compute in r in change r with v in Hl0
      end.
      rewrite Hl0. reflexivity. }
    rewrite Hfirst. now apply spec_keepBest_full.
  - unfold detectOpening, detectOpeningIn.
    change OPENINGS
      with ([mkOpening "C20" "King's Pawn Game" "e4"; kingsKnight; italianGame]
            ++ skipn 3 OPENINGS)%list.
    rewrite fold_left_app. cbn [fold_left].
    assert (Hfirst : keepBest threeMoves
                       (keepBest threeMoves
                          (keepBest threeMoves None (mkOpening "C20" "King's Pawn Game" "e4"))
                          kingsKnight)
                       italianGame
                     = Some (mkInfo "C50" "Italian Game" 5)).
    { unfold keepBest. rewrite E1, E2.
      destruct (tryMatch threeMoves (mkOpening "C20" "King's Pawn Game" "e4"))
        as [c|] eqn:E0; [|reflexivity].
      apply tryMatch_matchedLen in E0. destruct E0 as (Hl0 & _ & _).
      match type of Hl0 with
      | _ = ?r => let v := eval vm_compute in r in change r with v in Hl0
      end.
      rewrite Hl0. reflexivity. }
    rewrite Hfirst. apply keepBest_bounded. intros op got Hin E. cbn [matchedLen].
    apply (book_lines_at_most_five threeMoves op got); [|exact E].
    rewrite <- (firstn_skipn 3 OPENINGS). apply in_or_app. now right.
Qed.

(** On the board of the open game the two entries match the history, and
    the loop returns the Italian Game. *)
Lemma detectOpening_ranks_by_book_length_witness :
  nth_error OPENINGS 1 = Some kingsKnight
  /\ nth_error OPENINGS 2 = Some italianGame
  /\ spec_matchedMoves (B := Mainline.board) threeMoves kingsKnight = Some 3%nat
  /\ spec_matchedMoves (B := Mainline.board) threeMoves italianGame = Some 3%nat
  /\ spec_detectOpening (B := Mainline.board) threeMoves
     = Some (mkInfo "C40" "King's Knight Opening" 3)
  /\ detectOpening (B := Mainline.board) threeMoves = Some (mkInfo "C50" "Italian Game" 5)
  /\ (List.length threeMoves < 5)%nat.
Proof.
  apply (detectOpening_ranks_by_book_length (B := Mainline.board)).
  - vm_compute. discriminate.
  - vm_compute. discriminate.
Defined.

(** C6: with no move played yet, the entry King's Pawn Game (the single
    move e4) is returned as a match whose [matchedLen] is 1, more than the
    length 0 of the move history.  This is the input the matcher gets
    from [App] when a game starts. *)
Theorem tryMatch_exceeds_history :
  tryMatch (B := Fragment.board) [] (mkOpening "C20" "King's Pawn Game" "e4")
    = Some (mkInfo "C20" "King's Pawn Game" 1)
  /\ (List.length (@nil string) <? 1)%nat = true.
Proof. split; reflexivity. Qed.

(** ** The rationale generator *)

Section RationaleFacts.

Context {B : Board}.

Lemma filter_none {A : Type} (f : A -> bool) (l : list A) :
  (forall x, In x l -> f x = false) -> filter f l = [].
Proof.
  induction l as [|x l IH]; intros H; [reflexivity|].
  cbn. rewrite (H x (or_introl eq_refl)). apply IH. intros y Hy. apply H. now right.
Qed.

(** No legal move of the position after the move has the colour [us]. *)
Lemma attackers_nil (mv : Move) (after : Pos B) :
  movesOfSideToMove -> attackers mv after = [].
Proof.
  intros Hside. unfold attackers. apply filter_none. intros m Hm.
  rewrite (Hside after m Hm). unfold usOf.
  destruct (turn after); cbn; now rewrite andb_false_r.
Qed.

Lemma in_pushIf (c : bool) (phrase x : string) (parts : list string) :
  In x (pushIf c phrase parts) -> In x parts \/ (c = true /\ x = phrase).
Proof.
  unfold pushIf. destruct c; [|now left].
  intros H. apply in_app_or in H. destruct H as [H|[<-|[]]]; auto.
Qed.

(** The comparison of the two counts never succeeds, so the phrase is
    never pushed, whatever the position. *)
Lemma underDefended_never (mv : Move) (after : Pos B) :
  movesOfSideToMove -> ~ In underDefended (explainParts mv after).
Proof.
  intros Hside Hin. unfold explainParts in Hin.
  rewrite (attackers_nil mv after Hside) in Hin.
  change (List.length (@nil Move)) with 0%nat in Hin.
  replace (List.length (defenders mv after) <? 0)%nat with false in Hin
    by (symmetry; apply Nat.ltb_ge; lia).
  repeat (apply in_pushIf in Hin; destruct Hin as [Hin|[Hc Hx]];
          [|first [discriminate Hx | discriminate Hc]]).
  destruct Hin.
Qed.

End RationaleFacts.

(** C8: Black has answered 1. e4 with d5.  In the position after the move
    one legal move of the opponent lands on d5 (exd5) and no legal move of
    the mover does, so the count of opposing moves exceeds the count of
    own moves; [explainHeuristic] names the centre only and does not emit
    the under-defended phrase. *)
Theorem explainHeuristic_misses_under_defended :
  let d5 := Fragment.push Black fd r7 r5 true in
  let after := Fragment.AfterE4D5 in
  List.length (spec_opposingLanding (B := Fragment.board) d5 after) = 1%nat
  /\ List.length (spec_ownDefending (B := Fragment.board) d5 after) = 0%nat
  /\ spec_underDefended (B := Fragment.board) d5 after = true
  /\ List.length (attackers (B := Fragment.board) d5 after) = 0%nat
  /\ List.length (defenders (B := Fragment.board) d5 after) = 1%nat
  /\ explainParts (B := Fragment.board) d5 after = ["You fought for the center."]
  /\ explainHeuristic (B := Fragment.board) d5 Fragment.AfterE4 after
     = "You fought for the center.".
Proof. cbv zeta. repeat split; vm_compute; reflexivity. Qed.

(** ** The coaching pipeline *)




Section PipelineFacts.

Context {B : Board}.

Lemma gameMove_inv (g g' : Game B) (obj : MoveObj) (m : Move) :
  gameMove g obj = Some (m, g') ->
  exists p', move (cur g) obj = Some (m, p') /\ g' = mkGame p' ((cur g, m) :: hist g).
Proof.
  unfold gameMove. intros H.
  destruct (move (cur g) obj) as [[m0 p]|]; [|discriminate].
  injection H as <- <-. now exists p.
Qed.

(** [undo] takes back what [move] did. *)
Lemma gameUndo_gameMove (g g' : Game B) (obj : MoveObj) (m : Move) :
  gameMove g obj = Some (m, g') -> gameUndo g' = g.
Proof.
  intros H. apply gameMove_inv in H. destruct H as (p' & _ & ->).
  destruct g; reflexivity.
Qed.







(** A rejected drop in part_000: nothing is changed, but the engine was
    asked first if it is ready. *)
Lemma onPieceDropB_illegal (ready : bool) (s t : Square) (a : App B) (res : Result) :
  gameMove (game a) (userMoveObj s t) = None ->
  requests (PipelineB.onPieceDrop ready s t a) [res]
  = (if ready then [(fen (cur (game a)), VariantB.MOVETIME_MS)] else [], Some (false, a)).
Proof.
  unfold PipelineB.onPieceDrop. intros E.
  destruct ready; cbn; rewrite E; reflexivity.
Qed.






End PipelineFacts.



Example pawnA7Dropped_queen :
  map (fun pm => san (snd pm)) (hist (game pawnA7Dropped)) = ["a8=Q+"]
  /\ map r_move (coach pawnA7Dropped) = ["a8=Q+"].
Proof. split; vm_compute; reflexivity. Qed.

(** The pawn on a7 is dropped on a8 with the engine ready: both handlers
    return true and have made the queen promotion on the game. *)
Example pawnA7_queen_in_both :
  fst pawnA7OutA = true
  /\ fst pawnA7OutB = true
  /\ map (fun pm => (san (snd pm), promotion (snd pm))) (hist (game (snd pawnA7OutA)))
     = [("a8=Q+", Some Queen)]
  /\ map (fun pm => (san (snd pm), promotion (snd pm))) (hist (game (snd pawnA7OutB)))
     = [("a8=Q+", Some Queen)].
Proof. repeat split; vm_compute; reflexivity. Qed.


(** C9: at the starting position, with the engine ready, the user drops
    the pawn e2 on e5.  The board rejects the move, and the handler of
    part_000 returns false with the game, the published position and the
    feedback list as they were; but before trying the move it has asked
    the engine for an analysis of the position, for which [analyze] posts
    a stop, the position and a go command and sets a timer. *)
Theorem onPieceDropB_analyzes_rejected_move :
  let a := mkApp (B := Fragment.board) freshChess freshChess (Fragment.fenOf Fragment.Initial) [] in
  let hook := VariantB.run (B := Fragment.board) 1200 3
                [Mount true; Message "uciok"; Message "readyok"] initial in
  let asked := VariantB.analyze (Fragment.fenOf Fragment.Initial) VariantB.MOVETIME_MS hook in
  gameMove (game a) (userMoveObj (fe, r2) (fe, r5)) = None
  /\ PipelineA.onPieceDrop true 16 (fe, r2) (fe, r5) a = Ret (false, a)
  /\ requests (PipelineB.onPieceDrop true (fe, r2) (fe, r5) a) [neutral]
     = ([(Fragment.fenOf Fragment.Initial, 450)], Some (false, a))
  /\ ready hook = true
  /\ posted asked
     = (posted hook
        ++ ["stop";
            "position fen rnbqkbnr/pppppppp/8/8/8/8/PPPPPPPP/RNBQKBNR w KQkq - 0 1";
            "go movetime 450"])%list
  /\ listeners asked = [0%nat]
  /\ timers asked = [(0%nat, 1050)].
Proof. cbv zeta. repeat split; vm_compute; reflexivity. Qed.

(** ** The engine adapter: what the two hooks share *)

Section AdapterFacts.

Context {B : Board}.

Lemma nth_error_updateAt {A : Type} (f : A -> A) (l : list A) :
  forall n i,
    nth_error (updateAt n f l) i
    = if (i =? n)%nat then option_map f (nth_error l i) else nth_error l i.
Proof.
  induction l as [|x l IH]; intros n i.
  - destruct i, n; cbn; try reflexivity; now destruct (_ =? _)%nat.
  - destruct n as [|n], i as [|i]; cbn; try reflexivity. apply IH.
Qed.

Lemma length_updateAt {A : Type} (f : A -> A) (l : list A) :
  forall n, List.length (updateAt n f l) = List.length l.
Proof.
  induction l as [|x l IH]; intros [|n]; cbn; try reflexivity. now rewrite IH.
Qed.

Lemma filter_twice {A : Type} (f g : A -> bool) (l : list A) :
  filter f (filter g l) = filter (fun x => g x && f x) l.
Proof.
  induction l as [|x l IH]; [reflexivity|].
  cbn. destruct (g x); cbn; [destruct (f x)|]; now rewrite IH.
Qed.

(** *** Promises and variables under the primitive updates *)

Lemma pendingb_setEnv (id : nat) (e : Env B) (h : Hook B) (i : nat) :
  pendingb (setEnv id e h) i = pendingb h i.
Proof.
  unfold pendingb, setEnv. cbn. rewrite nth_error_updateAt.
  destruct (i =? id)%nat; [|reflexivity].
  now destruct (nth_error (calls h) i).
Qed.

Lemma promiseOf_setEnv (id : nat) (e : Env B) (h : Hook B) (i : nat) :
  promiseOf i (setEnv id e h) = promiseOf i h.
Proof.
  unfold promiseOf, setEnv. cbn. rewrite nth_error_updateAt.
  destruct (i =? id)%nat; [|reflexivity].
  now destruct (nth_error (calls h) i).
Qed.

Lemma pendingb_resolve (id : nat) (v : Result) (h : Hook B) (i : nat) :
  pendingb (resolve id v h) i = pendingb h i && negb (i =? id)%nat.
Proof.
  unfold pendingb, resolve. cbn. rewrite nth_error_updateAt.
  destruct (i =? id)%nat; cbn.
  - destruct (nth_error (calls h) i) as [c|]; cbn; [|reflexivity].
    destruct (promise c); now rewrite andb_false_r.
  - now rewrite andb_true_r.
Qed.

Lemma promiseOf_resolve_other (id : nat) (v : Result) (h : Hook B) (i : nat) :
  i <> id -> promiseOf i (resolve id v h) = promiseOf i h.
Proof.
  intros Hne. unfold promiseOf, resolve. cbn. rewrite nth_error_updateAt.
  now destruct (Nat.eqb_spec i id).
Qed.

(** A settled promise keeps its value. *)
Lemma promiseOf_resolve_settled (id : nat) (v w : Result) (h : Hook B) (i : nat) :
  promiseOf i h = Some w -> promiseOf i (resolve id v h) = Some w.
Proof.
  intros Hw. unfold promiseOf, resolve in *. cbn. rewrite nth_error_updateAt.
  destruct (i =? id)%nat; [|assumption].
  destruct (nth_error (calls h) i) as [c|]; [|discriminate]. cbn.
  now rewrite Hw.
Qed.

(** [resolve] settles the promise of a call that exists. *)
Lemma promiseOf_resolve_same (id : nat) (v : Result) (h : Hook B) :
  (id < List.length (calls h))%nat ->
  promiseOf id (resolve id v h)
  = Some (match promiseOf id h with Some w => w | None => v end).
Proof.
  intros Hlt. unfold promiseOf, resolve. cbn. rewrite nth_error_updateAt, Nat.eqb_refl.
  destruct (nth_error (calls h) id) as [c|] eqn:E.
  - cbn. now destruct (promise c).
  - apply nth_error_None in E. lia.
Qed.

Lemma envOf_setEnv_other (id : nat) (e : Env B) (h : Hook B) (i : nat) :
  i <> id -> envOf i (setEnv id e h) = envOf i h.
Proof.
  intros Hne. unfold envOf, setEnv. cbn. rewrite nth_error_updateAt.
  now destruct (Nat.eqb_spec i id).
Qed.

Lemma envOf_setEnv_same (id : nat) (e : Env B) (h : Hook B) :
  (id < List.length (calls h))%nat -> envOf id (setEnv id e h) = Some e.
Proof.
  intros Hlt. unfold envOf, setEnv. cbn. rewrite nth_error_updateAt, Nat.eqb_refl.
  destruct (nth_error (calls h) id) eqn:E; [reflexivity|].
  apply nth_error_None in E. lia.
Qed.

Lemma envOf_resolve (id : nat) (v : Result) (h : Hook B) (i : nat) :
  envOf i (resolve id v h) = envOf i h.
Proof.
  unfold envOf, resolve. cbn. rewrite nth_error_updateAt.
  destruct (i =? id)%nat; [|reflexivity].
  now destruct (nth_error (calls h) i).
Qed.

Lemma envOf_lt (id : nat) (e : Env B) (h : Hook B) :
  envOf id h = Some e -> (id < List.length (calls h))%nat.
Proof.
  unfold envOf. intros H. apply nth_error_Some.
  destruct (nth_error (calls h) id); [discriminate|discriminate].
Qed.

(** *** The listeners are the pending calls *)

Lemma lap_same (h h' : Hook B) :
  listeners h' = listeners h ->
  List.length (calls h') = List.length (calls h) ->
  (forall i, pendingb h' i = pendingb h i) ->
  listenersArePending h -> listenersArePending h'.
Proof.
  unfold listenersArePending, pendingCalls. intros -> -> Hp ->.
  apply filter_ext. intros i. symmetry. apply Hp.
Qed.

Lemma lap_setEnv (id : nat) (e : Env B) (h : Hook B) :
  listenersArePending h -> listenersArePending (setEnv id e h).
Proof.
  apply lap_same; [reflexivity| |].
  - cbn. apply length_updateAt.
  - intros i. apply pendingb_setEnv.
Qed.

(** Detaching a listener and settling its promise go together. *)
Lemma lap_resolve_off (id : nat) (v : Result) (h : Hook B) :
  listenersArePending h -> listenersArePending (resolve id v (off id h)).
Proof.
  unfold listenersArePending, pendingCalls. intros Hl.
  cbn [listeners resolve off calls]. rewrite Hl, length_updateAt, filter_twice.
  apply filter_ext. intros i.
  change (pendingb h i && negb (i =? id)%nat
          = pendingb (resolve id v (off id h)) i).
  rewrite pendingb_resolve. reflexivity.
Qed.

Lemma lap_listener (id : nat) (line : string) (h : Hook B) :
  listenersArePending h -> listenersArePending (listener id line h).
Proof.
  intros Hl. unfold listener.
  destruct (envOf id h) as [e|]; [|assumption].
  destruct (String.eqb line EmptyString); [assumption|].
  destruct (Js.startsWith line "bestmove").
  - apply lap_resolve_off. now apply lap_setEnv.
  - now apply lap_setEnv.
Qed.

Lemma fold_listener_invariant (P : Hook B -> Prop) (text : string) :
  (forall id h, P h -> P (listener id text h)) ->
  forall ids h, P h -> P (fold_left (fun h id => listener id text h) ids h).
Proof.
  intros Hstep ids. induction ids as [|id ids IH]; intros h Hh; [assumption|].
  cbn. apply IH. now apply Hstep.
Qed.

Lemma lap_dispatch (text : string) (h : Hook B) :
  listenersArePending h -> listenersArePending (dispatch text h).
Proof.
  unfold dispatch. apply fold_listener_invariant. intros id h'. apply lap_listener.
Qed.

(** A call that passes the guard brings its listener; one that does not
    is settled at once. *)
Lemma lap_newCall_on (e : Env B) (h : Hook B) :
  listenersArePending h ->
  listenersArePending (on (List.length (calls h)) (newCall (mkCall (Some e) None) h)).
Proof.
  unfold listenersArePending, pendingCalls. intros Hl.
  cbn [listeners on newCall calls]. rewrite length_app. cbn [List.length].
  rewrite Nat.add_1_r, seq_S, filter_app, Hl. cbn [filter Nat.add].
  f_equal.
  - apply filter_ext_in. intros i Hi. apply in_seq in Hi.
    unfold pendingb. cbn [calls on newCall]. now rewrite nth_error_app1 by lia.
  - unfold pendingb. cbn [calls on newCall].
    now rewrite nth_error_app2, Nat.sub_diag by lia.
Qed.

Lemma lap_newCall_settled (v : Result) (h : Hook B) :
  listenersArePending h ->
  listenersArePending (newCall (mkCall None (Some v)) h).
Proof.
  unfold listenersArePending, pendingCalls. intros Hl.
  cbn [listeners newCall calls]. rewrite length_app. cbn [List.length].
  rewrite Nat.add_1_r, seq_S, filter_app, Hl. cbn [filter Nat.add].
  replace (pendingb _ (List.length (calls h))) with false.
  - rewrite app_nil_r. apply filter_ext_in. intros i Hi. apply in_seq in Hi.
    unfold pendingb. cbn [calls on newCall]. now rewrite nth_error_app1 by lia.
  - unfold pendingb. cbn [calls on newCall].
    now rewrite nth_error_app2, Nat.sub_diag by lia.
Qed.

Lemma lap_mount (c : bool) (h : Hook B) :
  listenersArePending h -> listenersArePending (mount c h).
Proof. unfold mount. destruct (engine h), c; cbn; auto. Qed.

Lemma lap_syncOptions (e m : Z) (h : Hook B) :
  listenersArePending h -> listenersArePending (syncOptions e m h).
Proof. unfold syncOptions. destruct (negb (engine h) || negb (ready h)); auto. Qed.

End AdapterFacts.

Section FrameFacts.

Context {B : Board}.

Lemma sameFrame_refl (h : Hook B) : sameFrame h h.
Proof. repeat split. Qed.

Lemma sameFrame_trans (h1 h2 h3 : Hook B) :
  sameFrame h1 h2 -> sameFrame h2 h3 -> sameFrame h1 h3.
Proof.
  intros (E1 & R1 & P1 & T1 & L1) (E2 & R2 & P2 & T2 & L2).
  repeat split; congruence.
Qed.

Lemma listener_frame (id : nat) (line : string) (h : Hook B) :
  sameFrame h (listener id line h).
Proof.
  unfold listener.
  destruct (envOf id h) as [e|]; [|apply sameFrame_refl].
  destruct (String.eqb line EmptyString); [apply sameFrame_refl|].
  destruct (Js.startsWith line "bestmove");
    repeat split; cbn; now rewrite ?length_updateAt.
Qed.

Lemma dispatch_frame (text : string) (h : Hook B) : sameFrame h (dispatch text h).
Proof.
  unfold dispatch. generalize (listeners h) as ids.
  intros ids. revert h. induction ids as [|id ids IH]; intros h; [apply sameFrame_refl|].
  cbn. eapply sameFrame_trans; [apply listener_frame|apply IH].
Qed.

(** A line that is not a bestmove line settles nothing. *)
Lemma listener_keeps_promises (id : nat) (line : string) (h : Hook B) (i : nat) :
  Js.startsWith line "bestmove" = false ->
  promiseOf i (listener id line h) = promiseOf i h.
Proof.
  intros Hnb. unfold listener.
  destruct (envOf id h) as [e|]; [|reflexivity].
  destruct (String.eqb line EmptyString); [reflexivity|].
  rewrite Hnb. apply promiseOf_setEnv.
Qed.

Lemma dispatch_keeps_promises (text : string) (h : Hook B) (i : nat) :
  Js.startsWith text "bestmove" = false ->
  promiseOf i (dispatch text h) = promiseOf i h.
Proof.
  intros Hnb. unfold dispatch. generalize (listeners h) as ids.
  intros ids. revert h. induction ids as [|id ids IH]; intros h; [reflexivity|].
  cbn. rewrite IH. now apply listener_keeps_promises.
Qed.

(** Whatever the line, a settled promise keeps its value. *)
Lemma listener_keeps_settled (id : nat) (line : string) (h : Hook B) (i : nat) (w : Result) :
  promiseOf i h = Some w -> promiseOf i (listener id line h) = Some w.
Proof.
  intros Hw. unfold listener.
  destruct (envOf id h) as [e|]; [|assumption].
  destruct (String.eqb line EmptyString); [assumption|].
  destruct (Js.startsWith line "bestmove").
  - apply promiseOf_resolve_settled.
    change (promiseOf i (setEnv id
              (mkEnv (bestmoveToken line)
                     (e_lastCp (if Js.startsWith line "info " then onInfo line e else e))
                     (e_lines (if Js.startsWith line "info " then onInfo line e else e))
                     (e_tmp (if Js.startsWith line "info " then onInfo line e else e))) h)
            = Some w).
    now rewrite promiseOf_setEnv.
  - now rewrite promiseOf_setEnv.
Qed.

Lemma dispatch_keeps_settled (text : string) (h : Hook B) (i : nat) (w : Result) :
  promiseOf i h = Some w -> promiseOf i (dispatch text h) = Some w.
Proof.
  unfold dispatch. generalize (listeners h) as ids.
  intros ids. revert h. induction ids as [|id ids IH]; intros h Hw; [assumption|].
  cbn. apply IH. now apply listener_keeps_settled.
Qed.

(** The variables of a call, once declared, stay declared. *)
Lemma listener_keeps_env (id : nat) (line : string) (h : Hook B) (i : nat) :
  envOf i h <> None -> envOf i (listener id line h) <> None.
Proof.
  intros He. unfold listener.
  destruct (envOf id h) as [e|] eqn:E; [|assumption].
  pose proof (envOf_lt _ _ _ E) as Hlt.
  destruct (String.eqb line EmptyString); [assumption|].
  destruct (Js.startsWith line "bestmove").
  - rewrite envOf_resolve.
    change (envOf i (off id ?x)) with (envOf i x).
    destruct (Nat.eq_dec i id) as [->|Hne].
    + now rewrite envOf_setEnv_same.
    + now rewrite envOf_setEnv_other.
  - destruct (Nat.eq_dec i id) as [->|Hne].
    + now rewrite envOf_setEnv_same.
    + now rewrite envOf_setEnv_other.
Qed.

Lemma dispatch_keeps_env (text : string) (h : Hook B) (i : nat) :
  envOf i h <> None -> envOf i (dispatch text h) <> None.
Proof.
  unfold dispatch. generalize (listeners h) as ids.
  intros ids. revert h. induction ids as [|id ids IH]; intros h He; [assumption|].
  cbn. apply IH. now apply listener_keeps_env.
Qed.

Lemma promiseOf_newCall (c : Call B) (h : Hook B) (i : nat) :
  (i < List.length (calls h))%nat -> promiseOf i (newCall c h) = promiseOf i h.
Proof.
  intros Hlt. unfold promiseOf, newCall. cbn. now rewrite nth_error_app1.
Qed.

Lemma envOf_newCall (c : Call B) (h : Hook B) (i : nat) :
  (i < List.length (calls h))%nat -> envOf i (newCall c h) = envOf i h.
Proof.
  intros Hlt. unfold envOf, newCall. cbn. now rewrite nth_error_app1.
Qed.

Lemma promiseOf_newCall_last (c : Call B) (h : Hook B) :
  promiseOf (List.length (calls h)) (newCall c h) = promise c.
Proof.
  unfold promiseOf, newCall. cbn. now rewrite nth_error_app2, Nat.sub_diag by lia.
Qed.

Lemma envOf_newCall_last (c : Call B) (h : Hook B) :
  envOf (List.length (calls h)) (newCall c h) = env c.
Proof.
  unfold envOf, newCall. cbn. now rewrite nth_error_app2, Nat.sub_diag by lia.
Qed.

Lemma promiseOf_lt (i : nat) (w : Result) (h : Hook B) :
  promiseOf i h = Some w -> (i < List.length (calls h))%nat.
Proof.
  unfold promiseOf. intros H. apply nth_error_Some.
  destruct (nth_error (calls h) i); discriminate.
Qed.

End FrameFacts.

(** ** The hook of App.jsx *)

Section HookAFacts.

Context {B : Board}.
Variables (elo multipv : Z).

Lemma onMsgA_keeps_promises (text : string) (h : Hook B) (i : nat) :
  Js.startsWith text "bestmove" = false ->
  promiseOf i (VariantA.onMsg elo multipv text h) = promiseOf i h.
Proof.
  intros Hnb. unfold VariantA.onMsg.
  rewrite dispatch_keeps_promises by assumption.
  now destruct (Js.includes text "uciok").
Qed.

Lemma onMsgA_timers (text : string) (h : Hook B) :
  timers (VariantA.onMsg elo multipv text h) = timers h
  /\ List.length (calls (VariantA.onMsg elo multipv text h)) = List.length (calls h)
  /\ engine (VariantA.onMsg elo multipv text h) = engine h.
Proof.
  unfold VariantA.onMsg.
  match goal with |- context [dispatch text ?x] =>
    destruct (dispatch_frame text x) as (E & _ & _ & T & L) end.
  rewrite E, T, L. now destruct (Js.includes text "uciok").
Qed.

Lemma analyzeA_calls (fen : string) (d : Z) (h : Hook B) :
  List.length (calls (VariantA.analyze fen d h)) = S (List.length (calls h))
  /\ timers (VariantA.analyze fen d h) = timers h
  /\ engine (VariantA.analyze fen d h) = engine h
  /\ forall i, (i < List.length (calls h))%nat ->
               promiseOf i (VariantA.analyze fen d h) = promiseOf i h.
Proof.
  unfold VariantA.analyze.
  destruct (engine h) eqn:E; cbn; rewrite length_app; cbn;
    (repeat split; [lia|assumption|]);
    intros i Hi; unfold promiseOf; cbn; now rewrite nth_error_app1.
Qed.

(** No step of this hook sets a timer, and only a bestmove line settles a
    pending promise. *)
Lemma stepA_keeps_pending (h : Hook B) (ev : Event) (i : nat) :
  (i < List.length (calls h))%nat ->
  (forall text, ev = Message text -> Js.startsWith text "bestmove" = false) ->
  promiseOf i (VariantA.step elo multipv h ev) = promiseOf i h
  /\ timers (VariantA.step elo multipv h ev) = timers h
  /\ (i < List.length (calls (VariantA.step elo multipv h ev)))%nat.
Proof.
  intros Hi Hev. destruct ev as [c|e m|text|fen d|id]; cbn [VariantA.step].
  - unfold mount. destruct (engine h), c; cbn; auto.
  - unfold syncOptions. destruct (negb (engine h) || negb (ready h)); cbn; auto.
  - destruct (engine h); [|auto].
    destruct (onMsgA_timers text h) as (T & L & _).
    rewrite T, L, onMsgA_keeps_promises by (now apply Hev). auto.
  - destruct (analyzeA_calls fen d h) as (L & T & _ & P).
    rewrite L, T, P by assumption. auto.
  - auto.
Qed.

Lemma runA_keeps_pending (evs : list Event) :
  forall (h : Hook B) (i : nat),
    (i < List.length (calls h))%nat ->
    (forall text, In (Message text) evs -> Js.startsWith text "bestmove" = false) ->
    promiseOf i (VariantA.run elo multipv evs h) = promiseOf i h
    /\ timers (VariantA.run elo multipv evs h) = timers h.
Proof.
  induction evs as [|ev evs IH]; intros h i Hi Hev; [now split|].
  unfold VariantA.run in *. cbn [fold_left].
  destruct (stepA_keeps_pending h ev i Hi) as (P & T & L).
  { intros text ->. apply Hev. now left. }
  destruct (IH (VariantA.step elo multipv h ev) i L) as (P' & T').
  { intros text Hin. apply Hev. now right. }
  rewrite P', T', P, T. now split.
Qed.

(** A settled promise keeps its value through every step. *)
Lemma stepA_keeps_settled (h : Hook B) (ev : Event) (i : nat) (w : Result) :
  promiseOf i h = Some w -> promiseOf i (VariantA.step elo multipv h ev) = Some w.
Proof.
  intros Hw. pose proof (promiseOf_lt _ _ _ Hw) as Hi.
  destruct ev as [c|e m|text|fen d|id]; cbn [VariantA.step].
  - unfold mount. destruct (engine h), c; cbn; auto.
  - unfold syncOptions. destruct (negb (engine h) || negb (ready h)); cbn; auto.
  - destruct (engine h); [|assumption].
    unfold VariantA.onMsg. apply dispatch_keeps_settled.
    now destruct (Js.includes text "uciok").
  - destruct (analyzeA_calls fen d h) as (_ & _ & _ & P). now rewrite P.
  - assumption.
Qed.

Lemma lap_stepA (h : Hook B) (ev : Event) :
  listenersArePending h -> listenersArePending (VariantA.step elo multipv h ev).
Proof.
  intros Hl. destruct ev as [c|e m|text|fen d|id]; cbn [VariantA.step].
  - now apply lap_mount.
  - now apply lap_syncOptions.
  - destruct (engine h); [|assumption].
    unfold VariantA.onMsg. apply lap_dispatch.
    destruct (Js.includes text "uciok"); [|assumption].
    revert Hl. apply lap_same; reflexivity.
  - unfold VariantA.analyze. destruct (engine h).
    + cbn [negb].
      generalize (lap_newCall_on (mkEnv None 0 [] (load fen)) h Hl).
      apply lap_same; reflexivity.
    + now apply lap_newCall_settled.
  - assumption.
Qed.

Lemma lap_runA (evs : list Event) :
  forall h : Hook B, listenersArePending h ->
                     listenersArePending (VariantA.run elo multipv evs h).
Proof.
  induction evs as [|ev evs IH]; intros h Hl; [assumption|].
  unfold VariantA.run in *. cbn [fold_left]. apply IH. now apply lap_stepA.
Qed.

End HookAFacts.

(** C1: in App.jsx, a call of [analyze] made once the engine is
    constructed sets no timer, and as long as no line beginning with
    bestmove is delivered its promise stays pending, whatever else happens
    to the hook: the future of such a call never resolves. *)
Theorem analyzeA_pending_without_bestmove {B : Board} (elo multipv : Z)
        (h : Hook B) (fen : string) (d : Z) (evs : list Event) :
  engine h = true ->
  (forall text, In (Message text) evs -> Js.startsWith text "bestmove" = false) ->
  promiseOf (List.length (calls h))
            (VariantA.run elo multipv evs (VariantA.analyze fen d h)) = None
  /\ timers (VariantA.run elo multipv evs (VariantA.analyze fen d h)) = timers h.
Proof.
  intros He Hev.
  destruct (analyzeA_calls fen d h) as (L & T & _ & _).
  destruct (runA_keeps_pending elo multipv evs (VariantA.analyze fen d h)
              (List.length (calls h))) as (P & T'); [lia|assumption|].
  rewrite P, T', T. split; [|reflexivity].
  unfold VariantA.analyze. rewrite He. cbn [negb].
  unfold promiseOf. cbn. now rewrite nth_error_app2, Nat.sub_diag by lia.
Qed.

Lemma analyzeA_pending_without_bestmove_witness :
  engine (mount (B := Fragment.board) true initial) = true
  /\ promiseOf 0
       (VariantA.run 1200 3 silentRun
          (VariantA.analyze (Fragment.fenOf Fragment.Initial) 16
             (mount (B := Fragment.board) true initial))) = None
  /\ timers
       (VariantA.run 1200 3 silentRun
          (VariantA.analyze (Fragment.fenOf Fragment.Initial) 16
             (mount (B := Fragment.board) true initial))) = [].
Proof.
  split; [reflexivity|].
  apply (analyzeA_pending_without_bestmove (B := Fragment.board) 1200 3
           (mount true initial) (Fragment.fenOf Fragment.Initial) 16 silentRun).
  - reflexivity.
  - intros text Hin. unfold silentRun in Hin. cbn [In] in Hin.
    repeat (destruct Hin as [Hin|Hin];
            [first [discriminate Hin | injection Hin as <-; reflexivity]|]).
    destruct Hin.
Defined.

(** What the pending call has seen meanwhile. *)
Example silentRun_partial :
  option_map (fun e => (e_bestmove e, e_lastCp e, filterBoolean (e_lines e)))
    (envOf 0 (VariantA.run 1200 3 silentRun
                (VariantA.analyze (Fragment.fenOf Fragment.Initial) 16
                   (mount (B := Fragment.board) true initial))))
  = Some (None, 28, [mkLine "e2e4" "e4" 28]).
Proof. vm_compute. reflexivity. Qed.

(** C3: in App.jsx the handshake acknowledgment alone makes the session
    ready: after the line uciok the three options have been posted, no
    readiness probe has been posted, no readyok line has been received,
    and [ready] is set. *)
Theorem hookA_ready_on_uciok :
  let h := VariantA.run (B := Fragment.board) 1200 3
             [Mount true; Message "uciok"] initial in
  ready h = true
  /\ posted h = ["uci";
                 "setoption name UCI_LimitStrength value true";
                 "setoption name UCI_Elo value 1200";
                 "setoption name MultiPV value 3"]
  /\ existsb (String.eqb "isready") (posted h) = false.
Proof. cbv zeta. repeat split; vm_compute; reflexivity. Qed.

(** ** The hook of part_000 *)

Section HookBFacts.

Context {B : Board}.
Variables (elo multipv : Z).

Lemma onMsgB_frame (text : string) (h : Hook B) :
  timers (VariantB.onMsg elo multipv text h) = timers h
  /\ List.length (calls (VariantB.onMsg elo multipv text h)) = List.length (calls h)
  /\ engine (VariantB.onMsg elo multipv text h) = engine h.
Proof.
  unfold VariantB.onMsg.
  match goal with |- context [dispatch text ?x] =>
    destruct (dispatch_frame text x) as (E & _ & _ & T & L) end.
  rewrite E, T, L.
  now destruct (Js.includes text "uciok"), (Js.includes text "readyok").
Qed.

(** On the handshake acknowledgment the three options and then the
    readiness probe are posted; [ready] is set by a readyok line only. *)
Lemma onMsgB_handshake (text : string) (h : Hook B) :
  posted (VariantB.onMsg elo multipv text h)
  = (posted h ++
     if Js.includes text "uciok"
     then ["setoption name UCI_LimitStrength value true";
           ("setoption name UCI_Elo value " ++ numStr elo)%string;
           ("setoption name MultiPV value " ++ numStr multipv)%string;
           "isready"]
     else [])%list
  /\ ready (VariantB.onMsg elo multipv text h) = (Js.includes text "readyok" || ready h).
Proof.
  unfold VariantB.onMsg.
  match goal with |- context [dispatch text ?x] =>
    destruct (dispatch_frame text x) as (_ & R & P & _ & _) end.
  rewrite R, P.
  destruct (Js.includes text "uciok"), (Js.includes text "readyok"); cbn;
    rewrite <- ?app_assoc, ?app_nil_r; auto.
Qed.

Lemma analyzeB_calls (fen : string) (mt : Z) (h : Hook B) :
  List.length (calls (VariantB.analyze fen mt h)) = S (List.length (calls h))
  /\ engine (VariantB.analyze fen mt h) = engine h
  /\ (forall i, (i < List.length (calls h))%nat ->
                promiseOf i (VariantB.analyze fen mt h) = promiseOf i h
                /\ envOf i (VariantB.analyze fen mt h) = envOf i h)
  /\ (forall i, timerSet i h = true -> timerSet i (VariantB.analyze fen mt h) = true).
Proof.
  unfold VariantB.analyze, timerSet.
  destruct (engine h) eqn:E; cbn; rewrite length_app; cbn;
    (split; [lia|]); (split; [assumption|]); split.
  - intros i Hi. split.
    + unfold promiseOf; cbn; now rewrite nth_error_app1.
    + unfold envOf; cbn; now rewrite nth_error_app1.
  - intros i Hi. rewrite existsb_app, Hi. reflexivity.
  - intros i Hi. split.
    + unfold promiseOf; cbn; now rewrite nth_error_app1.
    + unfold envOf; cbn; now rewrite nth_error_app1.
  - intros i Hi. assumption.
Qed.

Lemma timerSet_clear_other (id id' : nat) (h : Hook B) :
  id <> id' -> timerSet id h = true -> timerSet id (clearTimer id' h) = true.
Proof.
  unfold timerSet, clearTimer. cbn. intros Hne H.
  apply existsb_exists in H. destruct H as (t & Hin & Ht).
  apply existsb_exists. exists t. split; [|assumption].
  apply filter_In. split; [assumption|].
  apply Nat.eqb_eq in Ht. rewrite Ht.
  now destruct (Nat.eqb_spec id id').
Qed.

Lemma onTimeout_frame (id : nat) (h : Hook B) :
  sameFrame h (VariantB.onTimeout id h).
Proof.
  unfold VariantB.onTimeout. destruct (envOf id h); [|apply sameFrame_refl].
  repeat split; cbn; now rewrite ?length_updateAt.
Qed.

Lemma onTimeout_keeps_settled (id : nat) (h : Hook B) (i : nat) (w : Result) :
  promiseOf i h = Some w -> promiseOf i (VariantB.onTimeout id h) = Some w.
Proof.
  intros Hw. unfold VariantB.onTimeout. destruct (envOf id h); [|assumption].
  now apply promiseOf_resolve_settled.
Qed.

Lemma onTimeout_keeps_env (id : nat) (h : Hook B) (i : nat) :
  envOf i (VariantB.onTimeout id h) = envOf i h.
Proof.
  unfold VariantB.onTimeout. destruct (envOf id h); [|reflexivity].
  now rewrite envOf_resolve.
Qed.

(** The time-out settles the promise of its call. *)
Lemma onTimeout_settles (id : nat) (h : Hook B) :
  envOf id h <> None -> promiseOf id (VariantB.onTimeout id h) <> None.
Proof.
  intros He. unfold VariantB.onTimeout.
  destruct (envOf id h) as [e|] eqn:E; [|contradiction].
  rewrite promiseOf_resolve_same; [discriminate|].
  cbn. eapply envOf_lt; eassumption.
Qed.

Lemma stepB_keeps_settled (h : Hook B) (ev : Event) (i : nat) (w : Result) :
  promiseOf i h = Some w -> promiseOf i (VariantB.step elo multipv h ev) = Some w.
Proof.
  intros Hw. pose proof (promiseOf_lt _ _ _ Hw) as Hi.
  destruct ev as [c|e m|text|fen mt|id]; cbn [VariantB.step].
  - unfold mount. destruct (engine h), c; cbn; auto.
  - unfold syncOptions. destruct (negb (engine h) || negb (ready h)); cbn; auto.
  - destruct (engine h); [|assumption].
    unfold VariantB.onMsg. apply dispatch_keeps_settled.
    now destruct (Js.includes text "uciok"), (Js.includes text "readyok").
  - destruct (analyzeB_calls fen mt h) as (_ & _ & P & _).
    now rewrite (proj1 (P i Hi)).
  - destruct (existsb _ (timers h)); [|assumption].
    now apply onTimeout_keeps_settled.
Qed.

Lemma runB_keeps_settled (evs : list Event) :
  forall (h : Hook B) (i : nat) (w : Result),
    promiseOf i h = Some w -> promiseOf i (VariantB.run elo multipv evs h) = Some w.
Proof.
  induction evs as [|ev evs IH]; intros h i w Hw; [assumption|].
  unfold VariantB.run in *. cbn [fold_left]. apply IH. now apply stepB_keeps_settled.
Qed.

Lemma stepB_settledOrTimed (id : nat) (h : Hook B) (ev : Event) :
  settledOrTimed id h -> settledOrTimed id (VariantB.step elo multipv h ev).
Proof.
  intros (He & Hs).
  assert (Hi : (id < List.length (calls h))%nat).
  { destruct (envOf id h) eqn:E; [eapply envOf_lt; eassumption|contradiction]. }
  destruct ev as [c|e m|text|fen mt|id']; cbn [VariantB.step].
  - unfold mount. destruct (engine h), c; cbn; split; assumption.
  - unfold syncOptions. destruct (negb (engine h) || negb (ready h)); cbn; split; assumption.
  - destruct (engine h); [|split; assumption].
    split.
    + unfold VariantB.onMsg. apply dispatch_keeps_env.
      now destruct (Js.includes text "uciok"), (Js.includes text "readyok").
    + destruct Hs as [Hs|Ht].
      * left. destruct (promiseOf id h) as [w|] eqn:Ew; [|contradiction].
        unfold VariantB.onMsg. erewrite dispatch_keeps_settled; [discriminate|].
        destruct (Js.includes text "uciok"), (Js.includes text "readyok"); exact Ew.
      * right. unfold timerSet in *.
        now rewrite (proj1 (onMsgB_frame text h)).
  - destruct (analyzeB_calls fen mt h) as (_ & _ & P & T).
    destruct (P id Hi) as (Pp & Pe). split.
    + now rewrite Pe.
    + destruct Hs as [Hs|Ht]; [left; now rewrite Pp|right; now apply T].
  - destruct (existsb (fun t => (fst t =? id')%nat) (timers h)) eqn:Et; [|split; assumption].
    split.
    + now rewrite onTimeout_keeps_env.
    + destruct (Nat.eq_dec id id') as [<-|Hne].
      * left. apply onTimeout_settles. assumption.
      * destruct Hs as [Hs|Ht].
        -- left. destruct (promiseOf id h) as [w|] eqn:Ew; [|contradiction].
           erewrite onTimeout_keeps_settled; [discriminate|exact Ew].
        -- right. unfold timerSet.
           rewrite (proj1 (proj2 (proj2 (proj2 (onTimeout_frame id' (clearTimer id' h)))))).
           now apply timerSet_clear_other.
Qed.

Lemma runB_settledOrTimed (id : nat) (evs : list Event) :
  forall h : Hook B, settledOrTimed id h ->
                     settledOrTimed id (VariantB.run elo multipv evs h).
Proof.
  induction evs as [|ev evs IH]; intros h Hq; [assumption|].
  unfold VariantB.run in *. cbn [fold_left]. apply IH. now apply stepB_settledOrTimed.
Qed.

Lemma runB_app (evs evs' : list Event) (h : Hook B) :
  VariantB.run elo multipv (evs ++ evs') h
  = VariantB.run elo multipv evs' (VariantB.run elo multipv evs h).
Proof. unfold VariantB.run. apply fold_left_app. Qed.

(** In part_000 every call of [analyze] is settled once its timer has come
    due, whatever the engine has sent or not sent meanwhile, and a settled
    call keeps its result. *)
Lemma analyzeB_settles_by_timeout (h : Hook B) (fen : string) (mt : Z)
      (evs later : list Event) :
  let id := List.length (calls h) in
  let h' := VariantB.run elo multipv (evs ++ [Timeout id]) (VariantB.analyze fen mt h) in
  exists w, promiseOf id h' = Some w
            /\ promiseOf id (VariantB.run elo multipv later h') = Some w.
Proof.
  cbv zeta.
  assert (Hs : exists w, promiseOf (List.length (calls h))
                 (VariantB.run elo multipv (evs ++ [Timeout (List.length (calls h))])
                    (VariantB.analyze fen mt h)) = Some w).
  { rewrite runB_app.
    destruct (engine h) eqn:E.
    - assert (Hq : settledOrTimed (List.length (calls h)) (VariantB.analyze fen mt h)).
      { unfold settledOrTimed, VariantB.analyze, timerSet. rewrite E. cbn [negb]. split.
        - unfold envOf. cbn. now rewrite nth_error_app2, Nat.sub_diag by lia.
        - right. cbn. rewrite existsb_app. cbn. rewrite Nat.eqb_refl. now rewrite orb_true_r. }
      apply (runB_settledOrTimed _ evs) in Hq.
      apply (stepB_settledOrTimed _ _ (Timeout (List.length (calls h)))) in Hq.
      destruct Hq as (He & Hq).
      unfold VariantB.run at 1. cbn [fold_left].
      remember (VariantB.run elo multipv evs (VariantB.analyze fen mt h)) as h1.
      cbn [VariantB.step] in *.
      fold (timerSet (List.length (calls h)) h1) in *.
      destruct (timerSet (List.length (calls h)) h1) eqn:Et.
      + destruct Hq as [Hq|Hq].
        * destruct (promiseOf _ _) as [w|]; [now exists w|contradiction].
        * exfalso. unfold timerSet in Hq.
          rewrite (proj1 (proj2 (proj2 (proj2 (onTimeout_frame _ (clearTimer _ h1)))))) in Hq.
          unfold clearTimer in Hq. cbn in Hq.
          apply existsb_exists in Hq. destruct Hq as (t & Hin & Ht).
          apply filter_In in Hin. destruct Hin as (_ & Hin). rewrite Ht in Hin. discriminate.
      + destruct Hq as [Hq|Hq]; [|congruence].
        destruct (promiseOf _ _) as [w|]; [now exists w|contradiction].
    - exists neutral. apply runB_keeps_settled. apply runB_keeps_settled.
      unfold VariantB.analyze. rewrite E. cbn [negb]. apply promiseOf_newCall_last. }
  destruct Hs as (w & Hw). exists w. split; [assumption|].
  now apply runB_keeps_settled.
Qed.

(** A line that is not a bestmove line leaves the best move of every call
    as it was. *)
Lemma listener_keeps_bestmove (id : nat) (line : string) (h : Hook B) (i : nat) (e : Env B) :
  Js.startsWith line "bestmove" = false ->
  envOf i h = Some e ->
  exists e', envOf i (listener id line h) = Some e' /\ e_bestmove e' = e_bestmove e.
Proof.
  intros Hnb He. unfold listener.
  destruct (envOf id h) as [e0|] eqn:E0; [|now exists e].
  destruct (String.eqb line EmptyString); [now exists e|].
  rewrite Hnb.
  destruct (Nat.eq_dec i id) as [->|Hne].
  - rewrite envOf_setEnv_same by (eapply envOf_lt; eassumption).
    rewrite E0 in He. injection He as <-.
    eexists. split; [reflexivity|].
    destruct (Js.startsWith line "info "); reflexivity.
  - rewrite envOf_setEnv_other by assumption. now exists e.
Qed.

Lemma dispatch_keeps_bestmove (text : string) (h : Hook B) (i : nat) (e : Env B) :
  Js.startsWith text "bestmove" = false ->
  envOf i h = Some e ->
  exists e', envOf i (dispatch text h) = Some e' /\ e_bestmove e' = e_bestmove e.
Proof.
  intros Hnb. unfold dispatch. generalize (listeners h) as ids.
  intros ids. revert h e. induction ids as [|id ids IH]; intros h e He; [now exists e|].
  cbn. destruct (listener_keeps_bestmove id text h i e Hnb He) as (e1 & He1 & Hb1).
  destruct (IH _ _ He1) as (e2 & He2 & Hb2).
  exists e2. split; [assumption|congruence].
Qed.

Lemma stepB_waiting (id : nat) (h : Hook B) (ev : Event) :
  (forall text, ev = Message text -> Js.startsWith text "bestmove" = false) ->
  ev <> Timeout id ->
  waiting id h -> waiting id (VariantB.step elo multipv h ev).
Proof.
  intros Hev Hnt (Hp & Ht & e & He & Hb).
  assert (Hi : (id < List.length (calls h))%nat) by (eapply envOf_lt; eassumption).
  destruct ev as [c|el m|text|fen mt|id']; cbn [VariantB.step].
  - unfold mount. destruct (engine h), c; cbn; repeat split; eauto.
  - unfold syncOptions. destruct (negb (engine h) || negb (ready h)); cbn;
      repeat split; eauto.
  - destruct (engine h); [|repeat split; eauto].
    pose proof (Hev text eq_refl) as Hnb.
    unfold waiting, timerSet. rewrite (proj1 (onMsgB_frame text h)).
    unfold VariantB.onMsg. rewrite dispatch_keeps_promises by assumption.
    split; [|split; [assumption|]].
    + now destruct (Js.includes text "uciok"), (Js.includes text "readyok").
    + match goal with |- context [dispatch text ?x] =>
        destruct (dispatch_keeps_bestmove text x id e Hnb) as (e' & He' & Hb') end.
      * now destruct (Js.includes text "uciok"), (Js.includes text "readyok").
      * exists e'. split; [assumption|congruence].
  - destruct (analyzeB_calls fen mt h) as (_ & _ & P & T).
    destruct (P id Hi) as (Pp & Pe).
    unfold waiting. rewrite Pp, Pe. repeat split; eauto.
  - destruct (existsb (fun t => (fst t =? id')%nat) (timers h)) eqn:Et;
      [|repeat split; eauto].
    assert (Hne : id <> id') by congruence.
    unfold waiting. rewrite onTimeout_keeps_env. split; [|split].
    + unfold VariantB.onTimeout.
      destruct (envOf id' (clearTimer id' h)); [|assumption].
      now rewrite promiseOf_resolve_other.
    + unfold timerSet.
      rewrite (proj1 (proj2 (proj2 (proj2 (onTimeout_frame id' (clearTimer id' h)))))).
      now apply timerSet_clear_other.
    + now exists e.
Qed.

Lemma runB_waiting (id : nat) (evs : list Event) :
  forall h : Hook B,
    (forall text, In (Message text) evs -> Js.startsWith text "bestmove" = false) ->
    ~ In (Timeout id) evs ->
    waiting id h -> waiting id (VariantB.run elo multipv evs h).
Proof.
  induction evs as [|ev evs IH]; intros h Hev Hnt Hw; [assumption|].
  unfold VariantB.run in *. cbn [fold_left]. apply IH.
  - intros text Hin. apply Hev. now right.
  - intros Hin. apply Hnt. now right.
  - apply stepB_waiting; [|intros ->; apply Hnt; now left|assumption].
    intros text ->. apply Hev. now left.
Qed.

(** In part_000, when no bestmove line arrives before the timer of a call
    comes due, the call is pending until then and the time-out settles it
    with no best move, the last score seen (0 if none was) and the
    variations collected so far. *)
Lemma analyzeB_timeout_result (h : Hook B) (fen : string) (mt : Z) (evs : list Event) :
  engine h = true ->
  (forall text, In (Message text) evs -> Js.startsWith text "bestmove" = false) ->
  ~ In (Timeout (List.length (calls h))) evs ->
  let id := List.length (calls h) in
  let h1 := VariantB.run elo multipv evs (VariantB.analyze fen mt h) in
  exists e,
    envOf id h1 = Some e
    /\ promiseOf id h1 = None
    /\ In (id, mt + 600) (timers (VariantB.analyze fen mt h))
    /\ promiseOf id (VariantB.step elo multipv h1 (Timeout id))
       = Some (mkResult None (e_lastCp e) (filterBoolean (e_lines e))).
Proof.
  intros He Hev Hnt. cbv zeta.
  assert (Hw : waiting (List.length (calls h)) (VariantB.analyze fen mt h)).
  { unfold waiting, timerSet, VariantB.analyze. rewrite He. cbn [negb]. repeat split.
    - unfold promiseOf. cbn. now rewrite nth_error_app2, Nat.sub_diag by lia.
    - cbn. rewrite existsb_app. cbn. rewrite Nat.eqb_refl. now rewrite orb_true_r.
    - eexists. split.
      + unfold envOf. cbn. rewrite nth_error_app2, Nat.sub_diag by lia. reflexivity.
      + reflexivity. }
  apply (runB_waiting _ evs _ Hev Hnt) in Hw.
  destruct Hw as (Hp & Ht & e & Hen & Hb).
  exists e. split; [assumption|]. split; [assumption|]. split.
  { unfold VariantB.analyze. rewrite He. cbn. apply in_or_app. right. now left. }
  cbn [VariantB.step]. unfold timerSet in Ht. rewrite Ht.
  unfold VariantB.onTimeout.
  change (envOf ?i (clearTimer ?j ?x)) with (envOf i x). rewrite Hen.
  rewrite promiseOf_resolve_same
    by (cbn; eapply envOf_lt; eassumption).
  change (promiseOf ?i (off ?j (clearTimer ?k ?x))) with (promiseOf i x).
  rewrite Hp. unfold resultOf. now rewrite Hb.
Qed.

(** [ready] is set by a readyok line only. *)
Lemma hookB_ready_needs_readyok (evs : list Event) :
  forall h : Hook B,
    ready (VariantB.run elo multipv evs h) = true ->
    ready h = true
    \/ exists text, In (Message text) evs /\ Js.includes text "readyok" = true.
Proof.
  induction evs as [|ev evs IH]; intros h Hr; [now left|].
  unfold VariantB.run in *. cbn [fold_left] in Hr.
  apply IH in Hr. destruct Hr as [Hr|(text & Hin & Ht)].
  - destruct ev as [c|e m|text|fen mt|id]; cbn [VariantB.step] in Hr.
    + left. unfold mount in Hr. destruct (engine h), c; cbn in Hr; assumption.
    + left. unfold syncOptions in Hr.
      destruct (negb (engine h) || negb (ready h)); cbn in Hr; assumption.
    + destruct (engine h); [|now left].
      rewrite (proj2 (onMsgB_handshake text h)) in Hr.
      apply orb_true_iff in Hr. destruct Hr as [Hr|Hr]; [|now left].
      right. exists text. split; [now left|assumption].
    + left. unfold VariantB.analyze in Hr. destruct (engine h); cbn in Hr; assumption.
    + left. destruct (existsb _ (timers h)); [|assumption].
      now rewrite (proj1 (proj2 (onTimeout_frame id (clearTimer id h)))) in Hr.
  - right. exists text. split; [now right|assumption].
Qed.

(** The readiness probe is posted on a handshake acknowledgment only. *)
Lemma stepB_posts_isready (h : Hook B) (ev : Event) :
  In "isready" (posted (VariantB.step elo multipv h ev)) ->
  In "isready" (posted h)
  \/ exists text, ev = Message text /\ Js.includes text "uciok" = true.
Proof.
  intros Hin. destruct ev as [c|e m|text|fen mt|id]; cbn [VariantB.step] in Hin.
  - left. unfold mount in Hin. destruct (engine h), c; cbn in Hin; try assumption.
    apply in_app_or in Hin. destruct Hin as [Hin|[Hin|[]]]; [assumption|discriminate].
  - left. unfold syncOptions in Hin.
    destruct (negb (engine h) || negb (ready h)); cbn in Hin; [assumption|].
    apply in_app_or in Hin. destruct Hin as [Hin|[Hin|[]]]; [|discriminate].
    apply in_app_or in Hin. destruct Hin as [Hin|[Hin|[]]]; [assumption|discriminate].
  - destruct (engine h); [|now left].
    rewrite (proj1 (onMsgB_handshake text h)) in Hin.
    destruct (Js.includes text "uciok") eqn:Hu.
    + right. now exists text.
    + left. now rewrite app_nil_r in Hin.
  - left. unfold VariantB.analyze in Hin. destruct (engine h); cbn in Hin; [|assumption].
    repeat (apply in_app_or in Hin; destruct Hin as [Hin|[Hin|[]]]; [|discriminate]).
    assumption.
  - left. destruct (existsb _ (timers h)); [|assumption].
    now rewrite (proj1 (proj2 (proj2 (onTimeout_frame id (clearTimer id h))))) in Hin.
Qed.

Lemma runB_posts_isready (evs : list Event) :
  In "isready" (posted (VariantB.run (B := B) elo multipv evs initial)) ->
  exists pre text rest,
    evs = (pre ++ Message text :: rest)%list /\ Js.includes text "uciok" = true.
Proof.
  induction evs as [|ev evs IH] using rev_ind; intros Hin; [destruct Hin|].
  rewrite runB_app in Hin. unfold VariantB.run at 1 in Hin. cbn [fold_left] in Hin.
  apply stepB_posts_isready in Hin. destruct Hin as [Hin|(text & -> & Hu)].
  - destruct (IH Hin) as (pre & text & rest & -> & Hu).
    exists pre, text, (rest ++ [ev])%list. split; [|assumption].
    now rewrite <- app_assoc.
  - exists evs, text, []. now split.
Qed.

(** The line that makes the session ready. *)
Lemma runB_ready_split (evs : list Event) :
  ready (VariantB.run (B := B) elo multipv evs initial) = true ->
  exists pre text rest,
    evs = (pre ++ Message text :: rest)%list /\ Js.includes text "readyok" = true.
Proof.
  intros Hr. apply hookB_ready_needs_readyok in Hr.
  destruct Hr as [Hr|(text & Hin & Ht)]; [discriminate|].
  apply in_split in Hin. destruct Hin as (pre & rest & ->).
  now exists pre, text, rest.
Qed.

(** In part_000, with an engine that answers probes only, the session is
    ready only after a handshake acknowledgment and a later ready
    acknowledgment. *)
Lemma hookB_ready_after_both_acks (evs : list Event) :
  VariantB.answersProbes (B := B) elo multipv evs ->
  ready (VariantB.run (B := B) elo multipv evs initial) = true ->
  exists pre ack mid readyAck rest,
    evs = (pre ++ Message ack :: mid ++ Message readyAck :: rest)%list
    /\ Js.includes ack "uciok" = true
    /\ Js.includes readyAck "readyok" = true.
Proof.
  intros Hconf Hr.
  destruct (runB_ready_split evs Hr) as (pre & readyAck & rest & Hevs & Hrok).
  pose proof (Hconf pre readyAck rest Hevs Hrok) as Hprobe.
  destruct (runB_posts_isready pre Hprobe) as (pre' & ack & mid & -> & Hu).
  exists pre', ack, mid, readyAck, rest. split; [|now split].
  rewrite Hevs. now rewrite <- app_assoc.
Qed.

Lemma lap_stepB (h : Hook B) (ev : Event) :
  listenersArePending h -> listenersArePending (VariantB.step elo multipv h ev).
Proof.
  intros Hl. destruct ev as [c|e m|text|fen mt|id]; cbn [VariantB.step].
  - now apply lap_mount.
  - now apply lap_syncOptions.
  - destruct (engine h); [|assumption].
    unfold VariantB.onMsg. apply lap_dispatch.
    destruct (Js.includes text "uciok"), (Js.includes text "readyok");
      try assumption; revert Hl; apply lap_same; reflexivity.
  - unfold VariantB.analyze. destruct (engine h).
    + cbn [negb].
      generalize (lap_newCall_on (mkEnv None 0 [] (load fen)) h Hl).
      apply lap_same; reflexivity.
    + now apply lap_newCall_settled.
  - destruct (existsb _ (timers h)); [|assumption].
    unfold VariantB.onTimeout.
    assert (Hc : listenersArePending (clearTimer id h))
      by (revert Hl; apply lap_same; reflexivity).
    destruct (envOf id (clearTimer id h)); [|assumption].
    now apply lap_resolve_off.
Qed.

Lemma lap_runB (evs : list Event) :
  forall h : Hook B, listenersArePending h ->
                     listenersArePending (VariantB.run elo multipv evs h).
Proof.
  induction evs as [|ev evs IH]; intros h Hl; [assumption|].
  unfold VariantB.run in *. cbn [fold_left]. apply IH. now apply lap_stepB.
Qed.

End HookBFacts.

(** The time-out of part_000 on a run: the call is settled with no best
    move, the last score and the two variations in rank order; the late
    bestmove line and a second timer event change nothing.  With no line
    at all the result is the neutral one. *)
Example timedOutRun_result :
  promiseOf 0 (VariantB.run (B := Fragment.board) 1200 3 timedOutRun initial)
  = Some (mkResult None 31 [mkLine "e2e4" "e4" 31; mkLine "d2d4" "d4" 12])
  /\ listeners (VariantB.run (B := Fragment.board) 1200 3 timedOutRun initial) = []
  /\ promiseOf 0 (VariantB.run (B := Fragment.board) 1200 3
                    [Mount true; Analyze (Fragment.fenOf Fragment.Initial) 450; Timeout 0]
                    initial)
     = Some neutral.
Proof. repeat split; vm_compute; reflexivity. Qed.

(** ** Listeners and pending calls *)

(** C2, as the code has it: before the new search [analyze] posts a stop
    but detaches no listener: called with the engine constructed, it adds
    the listener of the new call after those already registered.  In every
    state the hook can reach, in both files, the registered listeners are
    exactly the listeners of the calls whose future is still pending, in
    call order; hence a call made when no earlier call is pending leaves
    exactly one listener registered, its own. *)
Theorem listeners_are_pending_calls {B : Board} (elo multipv : Z) (evs : list Event) :
  let hA := VariantA.run (B := B) elo multipv evs initial in
  let hB := VariantB.run (B := B) elo multipv evs initial in
  listeners hA = pendingCalls hA
  /\ listeners hB = pendingCalls hB
  /\ (forall (h : Hook B) (fen : string) (d : Z),
         engine h = true ->
         listeners (VariantA.analyze fen d h) = (listeners h ++ [List.length (calls h)])%list
         /\ posted (VariantA.analyze fen d h)
            = (posted h ++ ["stop"; ("position fen " ++ fen)%string;
                            ("go depth " ++ numStr d)%string])%list)
  /\ (forall (h : Hook B) (fen : string) (mt : Z),
         engine h = true ->
         listeners (VariantB.analyze fen mt h) = (listeners h ++ [List.length (calls h)])%list
         /\ posted (VariantB.analyze fen mt h)
            = (posted h ++ ["stop"; ("position fen " ++ fen)%string;
                            ("go movetime " ++ numStr mt)%string])%list)
  /\ (forall (fen : string) (d : Z),
         engine hA = true -> pendingCalls hA = [] ->
         listeners (VariantA.analyze fen d hA) = [List.length (calls hA)])
  /\ (forall (fen : string) (mt : Z),
         engine hB = true -> pendingCalls hB = [] ->
         listeners (VariantB.analyze fen mt hB) = [List.length (calls hB)]).
Proof.
  cbv zeta.
  assert (HA : listenersArePending (VariantA.run (B := B) elo multipv evs initial))
    by (apply (lap_runA elo multipv evs initial); reflexivity).
  assert (HB : listenersArePending (VariantB.run (B := B) elo multipv evs initial))
    by (apply (lap_runB elo multipv evs initial); reflexivity).
  assert (HaA : forall (h : Hook B) (fen : string) (d : Z),
             engine h = true ->
             listeners (VariantA.analyze fen d h)
             = (listeners h ++ [List.length (calls h)])%list
             /\ posted (VariantA.analyze fen d h)
                = (posted h ++ ["stop"; ("position fen " ++ fen)%string;
                                ("go depth " ++ numStr d)%string])%list).
  { intros h fen d He. unfold VariantA.analyze. rewrite He. cbn.
    now rewrite <- !app_assoc. }
  assert (HaB : forall (h : Hook B) (fen : string) (mt : Z),
             engine h = true ->
             listeners (VariantB.analyze fen mt h)
             = (listeners h ++ [List.length (calls h)])%list
             /\ posted (VariantB.analyze fen mt h)
                = (posted h ++ ["stop"; ("position fen " ++ fen)%string;
                                ("go movetime " ++ numStr mt)%string])%list).
  { intros h fen mt He. unfold VariantB.analyze. rewrite He. cbn.
    now rewrite <- !app_assoc. }
  repeat match goal with |- _ /\ _ => split end; try assumption.
  - intros fen d He Hp. rewrite (proj1 (HaA _ fen d He)), HA, Hp. reflexivity.
  - intros fen mt He Hp. rewrite (proj1 (HaB _ fen mt He)), HB, Hp. reflexivity.
Qed.

(** Both listeners are registered, both record the line the engine sent
    for the second search, and the next bestmove line settles both calls,
    the first one with the move and the score found for the second. *)
Lemma two_listeners_active :
  let h := VariantB.run (B := Fragment.board) 1200 3 overlappingRun initial in
  let h' := VariantB.step 1200 3 h (Message "bestmove e7e5 ponder g1f3") in
  listeners h = [0%nat; 1%nat]
  /\ listeners (VariantA.run (B := Fragment.board) 1200 3 overlappingRun initial)
     = [0%nat; 1%nat]
  /\ option_map e_lastCp (envOf 0 h) = Some 33
  /\ option_map e_lastCp (envOf 1 h) = Some 33
  /\ promiseOf 0 h' = Some (mkResult (Some "e7e5") 33 [])
  /\ promiseOf 1 h' = Some (mkResult (Some "e7e5") 33 [mkLine "e7e5" "e5" 33])
  /\ listeners h' = [].
Proof. cbv zeta. repeat split; vm_compute; reflexivity. Qed.

(** ** Without an engine *)

Section NoEngine.

Context {B : Board}.
Variables (elo multipv : Z).

Lemma idle_newCall (h : Hook B) :
  idle h -> idle (newCall (mkCall None (Some neutral)) h).
Proof.
  intros (E & R & L & P & T & N). repeat split; try assumption.
  intros i Hi. cbn in Hi. rewrite length_app in Hi. cbn in Hi.
  destruct (Nat.eq_dec i (List.length (calls h))) as [->|Hne].
  - apply promiseOf_newCall_last.
  - rewrite promiseOf_newCall by lia. apply N. lia.
Qed.

Lemma idle_stepA (h : Hook B) (ev : Event) :
  (forall c, ev = Mount c -> c = false) ->
  idle h ->
  idle (VariantA.step elo multipv h ev)
  /\ List.length (calls (VariantA.step elo multipv h ev))
     = ((if isAnalyze ev then 1 else 0) + List.length (calls h))%nat.
Proof.
  intros Hc Hidle. pose proof Hidle as (E & R & L & P & T & N).
  destruct ev as [c|e m|text|fen d|id]; cbn [VariantA.step isAnalyze].
  - rewrite (Hc c eq_refl). unfold mount. rewrite E. cbn. now split.
  - unfold syncOptions. rewrite E. cbn. now split.
  - rewrite E. now split.
  - unfold VariantA.analyze. rewrite E. cbn [negb]. split.
    + now apply idle_newCall.
    + cbn. rewrite length_app. cbn. lia.
  - now split.
Qed.

Lemma idle_stepB (h : Hook B) (ev : Event) :
  (forall c, ev = Mount c -> c = false) ->
  idle h ->
  idle (VariantB.step elo multipv h ev)
  /\ List.length (calls (VariantB.step elo multipv h ev))
     = ((if isAnalyze ev then 1 else 0) + List.length (calls h))%nat.
Proof.
  intros Hc Hidle. pose proof Hidle as (E & R & L & P & T & N).
  destruct ev as [c|e m|text|fen d|id]; cbn [VariantB.step isAnalyze].
  - rewrite (Hc c eq_refl). unfold mount. rewrite E. cbn. now split.
  - unfold syncOptions. rewrite E. cbn. now split.
  - rewrite E. now split.
  - unfold VariantB.analyze. rewrite E. cbn [negb]. split.
    + now apply idle_newCall.
    + cbn. rewrite length_app. cbn. lia.
  - rewrite T. cbn. now split.
Qed.

Lemma idle_runA (evs : list Event) :
  forall h : Hook B,
    noConstructor evs -> idle h ->
    idle (VariantA.run elo multipv evs h)
    /\ List.length (calls (VariantA.run elo multipv evs h))
       = (List.length (filter isAnalyze evs) + List.length (calls h))%nat.
Proof.
  induction evs as [|ev evs IH]; intros h Hc Hidle; [now split|].
  unfold VariantA.run in *. cbn [fold_left filter].
  destruct (idle_stepA h ev) as (Hi & Hl); [intros c ->; apply Hc; now left|assumption|].
  destruct (IH (VariantA.step elo multipv h ev)) as (Hi' & Hl');
    [intros c Hin; apply Hc; now right|assumption|].
  split; [assumption|]. rewrite Hl', Hl. destruct (isAnalyze ev); cbn; lia.
Qed.

Lemma idle_runB (evs : list Event) :
  forall h : Hook B,
    noConstructor evs -> idle h ->
    idle (VariantB.run elo multipv evs h)
    /\ List.length (calls (VariantB.run elo multipv evs h))
       = (List.length (filter isAnalyze evs) + List.length (calls h))%nat.
Proof.
  induction evs as [|ev evs IH]; intros h Hc Hidle; [now split|].
  unfold VariantB.run in *. cbn [fold_left filter].
  destruct (idle_stepB h ev) as (Hi & Hl); [intros c ->; apply Hc; now left|assumption|].
  destruct (IH (VariantB.step elo multipv h ev)) as (Hi' & Hl');
    [intros c Hin; apply Hc; now right|assumption|].
  split; [assumption|]. rewrite Hl', Hl. destruct (isAnalyze ev); cbn; lia.
Qed.

Lemma idle_initial : idle initial.
Proof. repeat split. intros i Hi. cbn in Hi. lia. Qed.

End NoEngine.

(** C4, as the code has it: the guard of [analyze] tests the engine
    handle, not [ready].  When the page defines no engine constructor, so
    that the handle is never set and the session never becomes ready, then
    in both files, whatever happens to the hook, every call of [analyze]
    made so far is settled with the neutral result (the step that makes
    the call settles it), no listener is registered, nothing was posted
    and no timer is set. *)
Theorem analyze_without_engine {B : Board} (elo multipv : Z) (evs : list Event) :
  noConstructor evs ->
  let hA := VariantA.run (B := B) elo multipv evs initial in
  let hB := VariantB.run (B := B) elo multipv evs initial in
  (engine hA = false /\ ready hA = false /\ listeners hA = [] /\ posted hA = []
   /\ timers hA = []
   /\ List.length (calls hA) = List.length (filter isAnalyze evs)
   /\ forall i, (i < List.length (calls hA))%nat -> promiseOf i hA = Some neutral)
  /\ (engine hB = false /\ ready hB = false /\ listeners hB = [] /\ posted hB = []
      /\ timers hB = []
      /\ List.length (calls hB) = List.length (filter isAnalyze evs)
      /\ forall i, (i < List.length (calls hB))%nat -> promiseOf i hB = Some neutral).
Proof.
  intros Hc. cbv zeta. split.
  - destruct (idle_runA elo multipv evs initial Hc idle_initial)
      as ((E & R & L & P & T & N) & Hl).
    cbn in Hl. rewrite Nat.add_0_r in Hl. repeat split; assumption.
  - destruct (idle_runB elo multipv evs initial Hc idle_initial)
      as ((E & R & L & P & T & N) & Hl).
    cbn in Hl. rewrite Nat.add_0_r in Hl. repeat split; assumption.
Qed.

Lemma analyze_without_engine_witness :
  let hA := VariantA.run (B := Fragment.board) 1200 3 engineLessRun initial in
  let hB := VariantB.run (B := Fragment.board) 1200 3 engineLessRun initial in
  (engine hA = false /\ ready hA = false /\ listeners hA = [] /\ posted hA = []
   /\ timers hA = []
   /\ List.length (calls hA) = List.length (filter isAnalyze engineLessRun)
   /\ forall i, (i < List.length (calls hA))%nat -> promiseOf i hA = Some neutral)
  /\ (engine hB = false /\ ready hB = false /\ listeners hB = [] /\ posted hB = []
      /\ timers hB = []
      /\ List.length (calls hB) = List.length (filter isAnalyze engineLessRun)
      /\ forall i, (i < List.length (calls hB))%nat -> promiseOf i hB = Some neutral).
Proof.
  apply (analyze_without_engine (B := Fragment.board) 1200 3 engineLessRun).
  intros c Hin. unfold engineLessRun in Hin. cbn [In] in Hin.
  repeat (destruct Hin as [Hin|Hin];
          [first [discriminate Hin | injection Hin as <-; reflexivity]|]).
  destruct Hin.
Defined.

(** The engine is constructed but has not answered the handshake: the
    session is not ready, and yet a call of [analyze] registers its
    listener, posts its commands and stays pending, in both files. *)
Lemma analyze_before_ready_is_pending :
  let hA := VariantA.run (B := Fragment.board) 1200 3
              [Mount true; Analyze (Fragment.fenOf Fragment.Initial) 16] initial in
  let hB := VariantB.run (B := Fragment.board) 1200 3
              [Mount true; Analyze (Fragment.fenOf Fragment.Initial) 450] initial in
  ready hA = false /\ promiseOf 0 hA = None /\ listeners hA = [0%nat]
  /\ posted hA = ["uci"; "stop";
                  "position fen rnbqkbnr/pppppppp/8/8/8/8/PPPPPPPP/RNBQKBNR w KQkq - 0 1";
                  "go depth 16"]
  /\ ready hB = false /\ promiseOf 0 hB = None /\ listeners hB = [0%nat]
  /\ posted hB = ["uci"; "stop";
                  "position fen rnbqkbnr/pppppppp/8/8/8/8/PPPPPPPP/RNBQKBNR w KQkq - 0 1";
                  "go movetime 450"].
Proof. cbv zeta. repeat split; vm_compute; reflexivity. Qed.

(** * Further properties of the engine adapter *)

Section AdapterMore.

Context {B : Board}.

Lemma hook_eta (h : Hook B) :
  mkHook (engine h) (ready h) (listeners h) (calls h) (posted h) (timers h) = h.
Proof. now destruct h. Qed.

Lemma updateAt_same {A : Type} (f : A -> A) (l : list A) :
  forall n, (forall c, nth_error l n = Some c -> f c = c) -> updateAt n f l = l.
Proof.
  induction l as [|x l IH]; intros [|n] H; cbn; try reflexivity.
  - now rewrite (H x eq_refl).
  - f_equal. apply IH. exact H.
Qed.

Lemma setEnv_same (id : nat) (e : Env B) (h : Hook B) :
  envOf id h = Some e -> setEnv id e h = h.
Proof.
  intros He. unfold setEnv. rewrite updateAt_same; [apply hook_eta|].
  intros c Hc. unfold envOf in He. rewrite Hc in He. destruct c as [ce cp].
  cbn in *. now rewrite He.
Qed.

(** A line that is neither an info line nor a bestmove line leaves the
    hook as it is. *)
Lemma listener_ignores (id : nat) (line : string) (h : Hook B) :
  Js.startsWith line "info " = false ->
  Js.startsWith line "bestmove" = false ->
  listener id line h = h.
Proof.
  intros Hi Hb. unfold listener.
  destruct (envOf id h) as [e|] eqn:E; [|reflexivity].
  destruct (String.eqb line EmptyString); [reflexivity|].
  rewrite Hi, Hb. now apply setEnv_same.
Qed.

Lemma dispatch_ignores (text : string) (h : Hook B) :
  Js.startsWith text "info " = false ->
  Js.startsWith text "bestmove" = false ->
  dispatch text h = h.
Proof.
  intros Hi Hb. unfold dispatch. generalize (listeners h) as ids.
  induction ids as [|id ids IH]; [reflexivity|].
  cbn. now rewrite listener_ignores.
Qed.

(** The listener of another call leaves the variables and the promise of
    a call alone. *)
Lemma listener_other (id' : nat) (line : string) (h : Hook B) (id : nat) :
  id <> id' ->
  envOf id (listener id' line h) = envOf id h
  /\ promiseOf id (listener id' line h) = promiseOf id h.
Proof.
  intros Hne. unfold listener.
  destruct (envOf id' h) as [e|]; [|now split].
  destruct (String.eqb line EmptyString); [now split|].
  destruct (Js.startsWith line "bestmove").
  - rewrite envOf_resolve, promiseOf_resolve_other by assumption.
    change (envOf id (off id' ?x)) with (envOf id x).
    change (promiseOf id (off id' ?x)) with (promiseOf id x).
    now rewrite envOf_setEnv_other, promiseOf_setEnv.
  - now rewrite envOf_setEnv_other, promiseOf_setEnv.
Qed.

Lemma bestmove_not_info (line : string) :
  Js.startsWith line "bestmove" = true -> Js.startsWith line "info " = false.
Proof.
  unfold Js.startsWith. destruct line as [|c line]; [discriminate|].
  cbn [String.prefix].
  destruct (Ascii.ascii_dec "b"%char c) as [<-|Hc]; [|discriminate].
  intros _. now destruct (Ascii.ascii_dec "i"%char "b"%char).
Qed.

Lemma bestmove_not_empty (line : string) :
  Js.startsWith line "bestmove" = true -> String.eqb line EmptyString = false.
Proof. destruct line; [discriminate|reflexivity]. Qed.

(** The listener of a pending call, given a bestmove line, settles the
    call and detaches itself. *)
Lemma listener_bestmove (id : nat) (line : string) (h : Hook B) (e : Env B) :
  Js.startsWith line "bestmove" = true ->
  envOf id h = Some e ->
  promiseOf id h = None ->
  promiseOf id (listener id line h)
  = Some (mkResult (bestmoveToken line) (e_lastCp e) (filterBoolean (e_lines e)))
  /\ ~ In id (listeners (listener id line h)).
Proof.
  intros Hb He Hp. unfold listener.
  rewrite He, (bestmove_not_empty _ Hb), (bestmove_not_info _ Hb), Hb.
  pose proof (envOf_lt _ _ _ He) as Hlt. split.
  - rewrite promiseOf_resolve_same by (cbn; now rewrite length_updateAt).
    change (promiseOf id (off id ?x)) with (promiseOf id x).
    now rewrite promiseOf_setEnv, Hp.
  - cbn. intros Hin. apply filter_In in Hin. destruct Hin as [_ Hin].
    now rewrite Nat.eqb_refl in Hin.
Qed.

(** Listeners are never added while a line is dispatched. *)
Lemma listener_listeners (id' : nat) (line : string) (h : Hook B) (x : nat) :
  In x (listeners (listener id' line h)) -> In x (listeners h).
Proof.
  unfold listener.
  destruct (envOf id' h) as [e|]; [|auto].
  destruct (String.eqb line EmptyString); [auto|].
  destruct (Js.startsWith line "bestmove"); cbn; [|auto].
  intros Hin. now apply filter_In in Hin.
Qed.

Lemma fold_listener_bestmove (line : string) (id : nat) (ids : list nat) :
  Js.startsWith line "bestmove" = true ->
  forall (h : Hook B) (e : Env B),
    In id ids ->
    envOf id h = Some e ->
    promiseOf id h = None ->
    promiseOf id (fold_left (fun h id => listener id line h) ids h)
    = Some (mkResult (bestmoveToken line) (e_lastCp e) (filterBoolean (e_lines e)))
    /\ ~ In id (listeners (fold_left (fun h id => listener id line h) ids h)).
Proof.
  intros Hb. induction ids as [|id' ids IH]; intros h e Hin He Hp; [destruct Hin|].
  cbn [fold_left]. destruct (Nat.eq_dec id id') as [<-|Hne].
  - destruct (listener_bestmove id line h e Hb He Hp) as (Hs & Hd). split.
    + clear IH Hin. revert Hs. generalize (listener id line h) as h1.
      induction ids as [|i ids IH]; intros h1 Hs; [assumption|].
      cbn. apply IH. now apply listener_keeps_settled.
    + clear IH Hin Hs. revert Hd. generalize (listener id line h) as h1.
      induction ids as [|i ids IH]; intros h1 Hd; [assumption|].
      cbn. apply IH. intros Hin. apply Hd. eapply listener_listeners. eassumption.
  - destruct Hin as [Hin|Hin]; [congruence|].
    destruct (listener_other id' line h id Hne) as (E1 & E2).
    apply IH; [assumption|now rewrite E1|now rewrite E2].
Qed.

Lemma dispatch_bestmove (line : string) (id : nat) (h : Hook B) (e : Env B) :
  Js.startsWith line "bestmove" = true ->
  In id (listeners h) ->
  envOf id h = Some e ->
  promiseOf id h = None ->
  promiseOf id (dispatch line h)
  = Some (mkResult (bestmoveToken line) (e_lastCp e) (filterBoolean (e_lines e)))
  /\ ~ In id (listeners (dispatch line h)).
Proof. intros Hb Hin He Hp. unfold dispatch. now apply fold_listener_bestmove. Qed.

End AdapterMore.

(** X1: in part_000 every call of [analyze], with or without an engine, is
    settled once its timer event has come, whatever events came before,
    and keeps the result it was settled with through every later event. *)
Theorem analyzeB_always_settles {B : Board} (elo multipv : Z) (h : Hook B)
        (fen : string) (mt : Z) (evs later : list Event) :
  exists w,
    promiseOf (List.length (calls h))
      (VariantB.run elo multipv (evs ++ [Timeout (List.length (calls h))])
         (VariantB.analyze fen mt h)) = Some w
    /\ promiseOf (List.length (calls h))
         (VariantB.run elo multipv later
            (VariantB.run elo multipv (evs ++ [Timeout (List.length (calls h))])
               (VariantB.analyze fen mt h))) = Some w.
Proof. exact (analyzeB_settles_by_timeout elo multipv h fen mt evs later). Qed.

(** X2: in part_000, when the engine is constructed and neither a bestmove
    line nor the timer event of the call comes first, the call is still
    pending, its timer was set to the move time plus 600, and the timer
    event settles it with no best move, the last score seen and the lines
    collected so far. *)
Theorem analyzeB_times_out_with_partial_data {B : Board} (elo multipv : Z)
        (h : Hook B) (fen : string) (mt : Z) (evs : list Event) :
  engine h = true ->
  (forall text, In (Message text) evs -> Js.startsWith text "bestmove" = false) ->
  ~ In (Timeout (List.length (calls h))) evs ->
  exists e,
    envOf (List.length (calls h))
      (VariantB.run elo multipv evs (VariantB.analyze fen mt h)) = Some e
    /\ promiseOf (List.length (calls h))
         (VariantB.run elo multipv evs (VariantB.analyze fen mt h)) = None
    /\ In (List.length (calls h), mt + 600) (timers (VariantB.analyze fen mt h))
    /\ promiseOf (List.length (calls h))
         (VariantB.step elo multipv
            (VariantB.run elo multipv evs (VariantB.analyze fen mt h))
            (Timeout (List.length (calls h))))
       = Some (mkResult None (e_lastCp e) (filterBoolean (e_lines e))).
Proof. exact (analyzeB_timeout_result elo multipv h fen mt evs). Qed.

Lemma analyzeB_times_out_with_partial_data_witness :
  exists e,
    envOf 0 searchingHook = Some e
    /\ promiseOf 0 searchingHook = None
    /\ In (0%nat, 450 + 600)
          (timers (VariantB.analyze (Fragment.fenOf Fragment.Initial) 450
                     (mount (B := Fragment.board) true initial)))
    /\ promiseOf 0 (VariantB.step 1200 3 searchingHook (Timeout 0))
       = Some (mkResult None (e_lastCp e) (filterBoolean (e_lines e))).
Proof.
  apply (analyzeB_times_out_with_partial_data (B := Fragment.board) 1200 3
           (mount true initial) (Fragment.fenOf Fragment.Initial) 450 searchingRun).
  - reflexivity.
  - intros text Hin. unfold searchingRun in Hin. cbn [In] in Hin.
    repeat (destruct Hin as [Hin|Hin];
            [first [discriminate Hin | injection Hin as <-; reflexivity]|]).
    destruct Hin.
  - intros Hin. unfold searchingRun in Hin. cbn [In] in Hin.
    repeat (destruct Hin as [Hin|Hin]; [discriminate Hin|]).
    destruct Hin.
Defined.

Section SettledOnce.

Context {B : Board}.
Variables (elo multipv : Z).

Lemma runA_keeps_settled (evs : list Event) :
  forall (h : Hook B) (i : nat) (w : Result),
    promiseOf i h = Some w -> promiseOf i (VariantA.run elo multipv evs h) = Some w.
Proof.
  induction evs as [|ev evs IH]; intros h i w Hw; [assumption|].
  unfold VariantA.run in *. cbn [fold_left]. apply IH. now apply stepA_keeps_settled.
Qed.

End SettledOnce.

(** X3: a future is settled at most once: in both files, whatever happens
    to the hook afterwards (further lines, a late bestmove, the timer, new
    calls), a call that is settled keeps the result it was settled with. *)
Theorem settled_result_is_final {B : Board} (elo multipv : Z) (h : Hook B)
        (id : nat) (w : Result) (evs : list Event) :
  promiseOf id h = Some w ->
  promiseOf id (VariantA.run elo multipv evs h) = Some w
  /\ promiseOf id (VariantB.run elo multipv evs h) = Some w.
Proof.
  intros Hw. split; [now apply runA_keeps_settled|now apply runB_keeps_settled].
Qed.

Lemma settled_result_is_final_witness :
  promiseOf 0 (VariantB.step 1200 3 searchingHook (Timeout 0))
  = Some (mkResult None 31 [mkLine "e2e4" "e4" 31])
  /\ promiseOf 0 (VariantA.run 1200 3
                    [Message "bestmove e2e4 ponder e7e5"; Timeout 0;
                     Analyze (Fragment.fenOf Fragment.AfterE4) 16;
                     Message "bestmove e7e5"]
                    (VariantB.step 1200 3 searchingHook (Timeout 0)))
     = Some (mkResult None 31 [mkLine "e2e4" "e4" 31])
  /\ promiseOf 0 (VariantB.run 1200 3
                    [Message "bestmove e2e4 ponder e7e5"; Timeout 0;
                     Analyze (Fragment.fenOf Fragment.AfterE4) 16;
                     Message "bestmove e7e5"]
                    (VariantB.step 1200 3 searchingHook (Timeout 0)))
     = Some (mkResult None 31 [mkLine "e2e4" "e4" 31]).
Proof.
  split; [reflexivity|].
  apply (settled_result_is_final (B := Fragment.board) 1200 3
           (VariantB.step 1200 3 searchingHook (Timeout 0)) 0
           (mkResult None 31 [mkLine "e2e4" "e4" 31])).
  reflexivity.
Defined.

(** X4: in both files, when a line beginning with bestmove is delivered
    while the listener of a pending call is registered, the call is settled
    with the second space-separated field of the line as best move (null
    if it is missing or empty), the last score seen and the lines
    collected, and its listener is detached. *)
Theorem bestmove_line_settles {B : Board} (elo multipv : Z) (h : Hook B)
        (id : nat) (e : Env B) (text : string) :
  engine h = true ->
  In id (listeners h) ->
  envOf id h = Some e ->
  promiseOf id h = None ->
  Js.startsWith text "bestmove" = true ->
  (promiseOf id (VariantA.step elo multipv h (Message text))
   = Some (mkResult (bestmoveToken text) (e_lastCp e) (filterBoolean (e_lines e)))
   /\ ~ In id (listeners (VariantA.step elo multipv h (Message text))))
  /\ (promiseOf id (VariantB.step elo multipv h (Message text))
      = Some (mkResult (bestmoveToken text) (e_lastCp e) (filterBoolean (e_lines e)))
      /\ ~ In id (listeners (VariantB.step elo multipv h (Message text)))).
Proof.
  intros Heng Hin He Hp Hb. cbn [VariantA.step VariantB.step]. rewrite Heng. split.
  - unfold VariantA.onMsg. apply dispatch_bestmove; try assumption;
      now destruct (Js.includes text "uciok").
  - unfold VariantB.onMsg. apply dispatch_bestmove; try assumption;
      now destruct (Js.includes text "uciok"), (Js.includes text "readyok").
Qed.

Lemma bestmove_line_settles_witness :
  (promiseOf 0 (VariantA.step 1200 3 searchingHook (Message "bestmove e2e4 ponder e7e5"))
   = Some (mkResult (bestmoveToken "bestmove e2e4 ponder e7e5")
                    (e_lastCp searchingEnv) (filterBoolean (e_lines searchingEnv)))
   /\ ~ In 0%nat (listeners (VariantA.step 1200 3 searchingHook
                               (Message "bestmove e2e4 ponder e7e5"))))
  /\ (promiseOf 0 (VariantB.step 1200 3 searchingHook (Message "bestmove e2e4 ponder e7e5"))
      = Some (mkResult (bestmoveToken "bestmove e2e4 ponder e7e5")
                       (e_lastCp searchingEnv) (filterBoolean (e_lines searchingEnv)))
      /\ ~ In 0%nat (listeners (VariantB.step 1200 3 searchingHook
                                  (Message "bestmove e2e4 ponder e7e5")))).
Proof.
  apply (bestmove_line_settles (B := Fragment.board) 1200 3 searchingHook 0 searchingEnv
           "bestmove e2e4 ponder e7e5").
  - reflexivity.
  - vm_compute. left. reflexivity.
  - reflexivity.
  - reflexivity.
  - reflexivity.
Defined.

Example bestmoveToken_cases :
  bestmoveToken "bestmove e2e4 ponder e7e5" = Some "e2e4"
  /\ bestmoveToken "bestmove" = None
  /\ bestmoveToken "bestmove  e2e4" = None
  /\ bestmoveToken "bestmove (none)" = Some "(none)".
Proof. repeat split. Qed.

(** X5: a line that contains neither uciok nor readyok and begins neither
    with info nor with bestmove (an empty line, an identification line, an
    option line) changes nothing: in both files the hook is after it
    exactly what it was before. *)
Theorem unknown_line_is_ignored {B : Board} (elo multipv : Z) (h : Hook B)
        (text : string) :
  Js.includes text "uciok" = false ->
  Js.includes text "readyok" = false ->
  Js.startsWith text "info " = false ->
  Js.startsWith text "bestmove" = false ->
  VariantA.step elo multipv h (Message text) = h
  /\ VariantB.step elo multipv h (Message text) = h.
Proof.
  intros Hu Hr Hi Hb. cbn [VariantA.step VariantB.step].
  destruct (engine h); [|now split].
  unfold VariantA.onMsg, VariantB.onMsg. rewrite Hu, Hr.
  now rewrite dispatch_ignores.
Qed.

Lemma unknown_line_is_ignored_witness :
  VariantA.step 1200 3 searchingHook (Message "id name Stockfish 16") = searchingHook
  /\ VariantB.step 1200 3 searchingHook (Message "id name Stockfish 16") = searchingHook.
Proof.
  apply (unknown_line_is_ignored (B := Fragment.board) 1200 3 searchingHook
           "id name Stockfish 16"); reflexivity.
Defined.

(** ** The lines a call publishes *)

Section LegalLines.

Context {B : Board}.

Lemma arrayInsert_Forall {A : Type} (P : Z * A -> Prop) (i : Z) (v : A) (a : list (Z * A)) :
  P (i, v) -> Forall P a -> Forall P (arrayInsert i v a).
Proof.
  intros Hv Ha. induction Ha as [|[j w] a Hj Ha IH]; cbn.
  - now constructor.
  - destruct (i <? j); [now repeat constructor|].
    destruct (i =? j); now constructor.
Qed.

Lemma arraySet_Forall {A : Type} (P : Z * A -> Prop) (i : Z) (v : A) (a : list (Z * A)) :
  P (i, v) -> Forall P a -> Forall P (arraySet i v a).
Proof.
  intros Hv Ha. unfold arraySet.
  destruct ((0 <=? i) && (i <? 2 ^ 32 - 1)); [now apply arrayInsert_Forall|assumption].
Qed.

(** An info line adds a line only for a legal move of the position, and
    never touches the position or the best move. *)
Lemma onInfo_legal (line : string) (e : Env B) :
  Forall (fun il => lineOf (e_tmp e) (snd il)) (e_lines e) ->
  e_tmp (onInfo line e) = e_tmp e
  /\ e_bestmove (onInfo line e) = e_bestmove e
  /\ Forall (fun il => lineOf (e_tmp e) (snd il)) (e_lines (onInfo line e)).
Proof.
  intros Hl. unfold onInfo. cbn.
  split; [reflexivity|]. split; [reflexivity|].
  destruct (matchPV line) as [uci|]; [|assumption].
  destruct (matchMulti line) as [multi|]; [|assumption].
  destruct (find (fun m => String.eqb (uci_of m) uci) (moves (e_tmp e))) as [mv|] eqn:Ef;
    [|assumption].
  apply find_some in Ef. destruct Ef as [Hin Heq]. apply String.eqb_eq in Heq.
  apply arraySet_Forall; [|assumption].
  cbn. exists mv. now repeat split.
Qed.

Lemma analyses_same (id : nat) (p : Pos B) (h h' : Hook B) :
  envOf id h' = envOf id h ->
  promiseOf id h' = promiseOf id h ->
  analyses id p h -> analyses id p h'.
Proof. unfold analyses. now intros -> ->. Qed.

Lemma Forall_lines_result (p : Pos B) (e : Env B) :
  Forall (fun il => lineOf p (snd il)) (e_lines e) ->
  Forall (lineOf p) (lines (resultOf e)).
Proof.
  intros H. unfold resultOf, filterBoolean. cbn.
  induction H; cbn; now constructor.
Qed.

Lemma analyses_settle (id : nat) (p : Pos B) (h : Hook B) (e : Env B) :
  envOf id h = Some e ->
  e_tmp e = p ->
  Forall (fun il => lineOf p (snd il)) (e_lines e) ->
  match promiseOf id h with
  | Some r => Forall (lineOf p) (lines r)
  | None => True
  end ->
  analyses id p (resolve id (resultOf e) h).
Proof.
  intros He Ht Hl Hp. left. exists e.
  rewrite envOf_resolve. split; [assumption|]. split; [assumption|]. split; [assumption|].
  rewrite promiseOf_resolve_same by (eapply envOf_lt; eassumption).
  destruct (promiseOf id h); [assumption|].
  now apply Forall_lines_result.
Qed.

Lemma listener_analyses (id' : nat) (line : string) (h : Hook B) (id : nat) (p : Pos B) :
  analyses id p h -> analyses id p (listener id' line h).
Proof.
  intros Ha. destruct (Nat.eq_dec id id') as [<-|Hne].
  2:{ destruct (listener_other id' line h id Hne) as (E1 & E2).
      revert Ha. now apply analyses_same. }
  unfold listener. destruct Ha as [(e & He & Ht & Hl & Hp)|(He & Hp)].
  2:{ rewrite He. now right. }
  rewrite He.
  destruct (String.eqb line EmptyString); [left; now exists e|].
  pose proof (envOf_lt _ _ _ He) as Hlt.
  assert (H1 : e_tmp (if Js.startsWith line "info " then onInfo line e else e) = p
               /\ Forall (fun il => lineOf p (snd il))
                    (e_lines (if Js.startsWith line "info " then onInfo line e else e))).
  { destruct (Js.startsWith line "info "); [|now split].
    rewrite <- Ht in Hl. destruct (onInfo_legal line e Hl) as (T & _ & L).
    rewrite T, Ht in *. now split. }
  destruct H1 as (Ht1 & Hl1).
  destruct (Js.startsWith line "bestmove").
  - apply analyses_settle; try assumption.
    + change (envOf id (off id ?x)) with (envOf id x).
      now rewrite envOf_setEnv_same.
    + change (promiseOf id (off id ?x)) with (promiseOf id x).
      now rewrite promiseOf_setEnv.
  - left. eexists. rewrite envOf_setEnv_same by assumption.
    split; [reflexivity|]. split; [assumption|]. split; [assumption|].
    now rewrite promiseOf_setEnv.
Qed.

Lemma dispatch_analyses (text : string) (h : Hook B) (id : nat) (p : Pos B) :
  analyses id p h -> analyses id p (dispatch text h).
Proof.
  unfold dispatch. apply fold_listener_invariant.
  intros id' h'. apply listener_analyses.
Qed.

Lemma analyses_lt (id : nat) (p : Pos B) (h : Hook B) :
  analyses id p h -> (id < List.length (calls h))%nat.
Proof.
  intros [(e & He & _)|(_ & Hp)]; [eapply envOf_lt|eapply promiseOf_lt]; eassumption.
Qed.

Variables (elo multipv : Z).

Lemma stepA_analyses (h : Hook B) (ev : Event) (id : nat) (p : Pos B) :
  analyses id p h -> analyses id p (VariantA.step elo multipv h ev).
Proof.
  intros Ha. pose proof (analyses_lt _ _ _ Ha) as Hlt.
  destruct ev as [c|e m|text|fen d|id']; cbn [VariantA.step].
  - unfold mount. destruct (engine h), c;
      first [assumption | revert Ha; now apply analyses_same].
  - unfold syncOptions. destruct (negb (engine h) || negb (ready h)); [assumption|].
    revert Ha. now apply analyses_same.
  - destruct (engine h); [|assumption].
    unfold VariantA.onMsg. apply dispatch_analyses.
    destruct (Js.includes text "uciok"); [|assumption].
    revert Ha. now apply analyses_same.
  - revert Ha. apply analyses_same.
    + unfold VariantA.analyze. destruct (engine h); cbn [negb].
      * change (envOf id (newCall (mkCall (Some (mkEnv None 0 [] (load fen))) None) h)
                = envOf id h).
        now apply envOf_newCall.
      * now apply envOf_newCall.
    + now apply (analyzeA_calls fen d h).
  - assumption.
Qed.

Lemma stepB_analyses (h : Hook B) (ev : Event) (id : nat) (p : Pos B) :
  analyses id p h -> analyses id p (VariantB.step elo multipv h ev).
Proof.
  intros Ha. pose proof (analyses_lt _ _ _ Ha) as Hlt.
  destruct ev as [c|e m|text|fen d|id']; cbn [VariantB.step].
  - unfold mount. destruct (engine h), c;
      first [assumption | revert Ha; now apply analyses_same].
  - unfold syncOptions. destruct (negb (engine h) || negb (ready h)); [assumption|].
    revert Ha. now apply analyses_same.
  - destruct (engine h); [|assumption].
    unfold VariantB.onMsg. apply dispatch_analyses.
    destruct (Js.includes text "uciok"), (Js.includes text "readyok");
      try assumption; revert Ha; now apply analyses_same.
  - destruct (analyzeB_calls fen d h) as (_ & _ & P & _).
    destruct (P id Hlt) as (Pp & Pe). revert Ha. now apply analyses_same.
  - destruct (existsb _ (timers h)); [|assumption].
    assert (Hc : analyses id p (clearTimer id' h))
      by (revert Ha; now apply analyses_same).
    unfold VariantB.onTimeout.
    destruct (envOf id' (clearTimer id' h)) as [e'|] eqn:E'; [|assumption].
    destruct (Nat.eq_dec id id') as [<-|Hne].
    + destruct Hc as [(e & He & Ht & Hl & Hp)|(He & Hp)]; [|congruence].
      assert (e' = e) by congruence. subst e'.
      now apply analyses_settle.
    + revert Hc. apply analyses_same.
      * now rewrite envOf_resolve.
      * now rewrite promiseOf_resolve_other.
Qed.

Lemma runA_analyses (evs : list Event) :
  forall (h : Hook B) (id : nat) (p : Pos B),
    analyses id p h -> analyses id p (VariantA.run elo multipv evs h).
Proof.
  induction evs as [|ev evs IH]; intros h id p Ha; [assumption|].
  unfold VariantA.run in *. cbn [fold_left]. apply IH. now apply stepA_analyses.
Qed.

Lemma runB_analyses (evs : list Event) :
  forall (h : Hook B) (id : nat) (p : Pos B),
    analyses id p h -> analyses id p (VariantB.run elo multipv evs h).
Proof.
  induction evs as [|ev evs IH]; intros h id p Ha; [assumption|].
  unfold VariantB.run in *. cbn [fold_left]. apply IH. now apply stepB_analyses.
Qed.

Lemma analyzeA_analyses (fen : string) (d : Z) (h : Hook B) :
  analyses (List.length (calls h)) (load fen) (VariantA.analyze fen d h).
Proof.
  unfold VariantA.analyze. destruct (engine h); cbn [negb].
  - left. eexists.
    change (envOf ?i (post ?a (post ?b (post ?c (on ?j ?x))))) with (envOf i x).
    change (promiseOf ?i (post ?a (post ?b (post ?c (on ?j ?x))))) with (promiseOf i x).
    rewrite envOf_newCall_last, promiseOf_newCall_last. cbn.
    repeat split; constructor.
  - right. now rewrite envOf_newCall_last, promiseOf_newCall_last.
Qed.

Lemma analyzeB_analyses (fen : string) (mt : Z) (h : Hook B) :
  analyses (List.length (calls h)) (load fen) (VariantB.analyze fen mt h).
Proof.
  unfold VariantB.analyze. destruct (engine h); cbn [negb].
  - left. eexists.
    change (envOf ?i (setTimeout ?k ?t (post ?a (post ?b (post ?c (on ?j ?x))))))
      with (envOf i x).
    change (promiseOf ?i (setTimeout ?k ?t (post ?a (post ?b (post ?c (on ?j ?x))))))
      with (promiseOf i x).
    rewrite envOf_newCall_last, promiseOf_newCall_last. cbn.
    repeat split; constructor.
  - right. now rewrite envOf_newCall_last, promiseOf_newCall_last.
Qed.

End LegalLines.

(** X6: whatever the engine sends, every line of the result of a call
    [analyze(fen, ...)] names a legal move of the position [fen], with the
    coordinates and the notation of that move; a principal variation whose
    first move is not legal there is dropped.  This holds in both files,
    for a call made in any state and for any events after it. *)
Theorem analyze_publishes_legal_lines {B : Board} (elo multipv : Z) (h : Hook B)
        (fen : string) (limit : Z) (evs : list Event) :
  match promiseOf (List.length (calls h))
          (VariantA.run elo multipv evs (VariantA.analyze fen limit h)) with
  | Some r => Forall (lineOf (load fen)) (lines r)
  | None => True
  end
  /\ match promiseOf (List.length (calls h))
             (VariantB.run elo multipv evs (VariantB.analyze fen limit h)) with
     | Some r => Forall (lineOf (load fen)) (lines r)
     | None => True
     end.
Proof.
  split.
  - pose proof (runA_analyses elo multipv evs _ _ _ (analyzeA_analyses fen limit h)) as Ha.
    destruct Ha as [(e & _ & _ & _ & Hp)|(_ & Hp)]; [exact Hp|].
    rewrite Hp. constructor.
  - pose proof (runB_analyses elo multipv evs _ _ _ (analyzeB_analyses fen limit h)) as Ha.
    destruct Ha as [(e & _ & _ & _ & Hp)|(_ & Hp)]; [exact Hp|].
    rewrite Hp. constructor.
Qed.

(** A variation for a move that is not legal is dropped, one for a legal
    move is kept, ranks are published in order. *)
Example illegal_variation_dropped :
  promiseOf 0
    (VariantA.run (B := Fragment.board) 1200 3
       [Message "info depth 1 multipv 2 score cp 12 pv d2d5";
        Message "info depth 1 multipv 3 score cp 5 pv g1f3";
        Message "info depth 1 multipv 1 score cp 31 pv e2e4";
        Message "bestmove e2e4"]
       (VariantA.analyze (Fragment.fenOf Fragment.Initial) 16 (mount true initial)))
  = Some (mkResult (Some "e2e4") 31 [mkLine "e2e4" "e4" 31; mkLine "g1f3" "Nf3" 5]).
Proof. vm_compute. reflexivity. Qed.

(** ** The handshake and the options *)

Section Handshake.

Context {B : Board}.
Variables (elo multipv : Z).

Lemma handshakeOnce_same (h h' : Hook B) :
  engine h' = engine h -> posted h' = posted h ->
  handshakeOnce h -> handshakeOnce h'.
Proof. unfold handshakeOnce. now intros -> ->. Qed.

Lemma handshakeOnce_post (msg : string) (h : Hook B) :
  engine h = true -> msg <> "uci" ->
  handshakeOnce h -> handshakeOnce (post msg h).
Proof.
  intros He Hm [(E & _)|(_ & rest & Hp & Hn)]; [congruence|].
  right. split; [assumption|]. exists (rest ++ [msg])%list. cbn. rewrite Hp. split.
  - reflexivity.
  - intros Hin. apply in_app_or in Hin. destruct Hin as [Hin|[Hin|[]]]; [auto|congruence].
Qed.

Lemma handshakeOnce_stepA (h : Hook B) (ev : Event) :
  handshakeOnce h -> handshakeOnce (VariantA.step elo multipv h ev).
Proof.
  intros Hh. destruct ev as [c|e m|text|fen d|id]; cbn [VariantA.step].
  - unfold mount. destruct (engine h) eqn:E; [assumption|].
    destruct c; cbn [negb]; [|assumption].
    destruct Hh as [(_ & Hp)|(E' & _)]; [|congruence].
    right. split; [reflexivity|]. exists []. cbn. rewrite Hp. now split.
  - unfold syncOptions. destruct (engine h) eqn:E; cbn [negb orb]; [|assumption].
    destruct (negb (ready h)); [assumption|].
    repeat (apply handshakeOnce_post; [assumption|intros H; cbn in H; discriminate H|]).
    assumption.
  - destruct (engine h) eqn:E; [|assumption].
    unfold VariantA.onMsg.
    match goal with |- context [dispatch text ?x] =>
      destruct (dispatch_frame text x) as (F1 & _ & F2 & _);
      apply (handshakeOnce_same x); [assumption|assumption|] end.
    destruct (Js.includes text "uciok"); [|assumption].
    apply (handshakeOnce_same
             (post ("setoption name MultiPV value " ++ numStr multipv)
                (post ("setoption name UCI_Elo value " ++ numStr elo)
                   (post "setoption name UCI_LimitStrength value true" h))));
      [reflexivity|reflexivity|].
    repeat (apply handshakeOnce_post; [assumption|intros H; cbn in H; discriminate H|]).
    assumption.
  - unfold VariantA.analyze. destruct (engine h) eqn:E; cbn [negb].
    + apply (handshakeOnce_same
               (post ("go depth " ++ numStr d)
                  (post ("position fen " ++ fen) (post "stop" h))));
        [reflexivity|reflexivity|].
      repeat (apply handshakeOnce_post; [assumption|intros H; cbn in H; discriminate H|]).
      assumption.
    + revert Hh. now apply handshakeOnce_same.
  - assumption.
Qed.

Lemma handshakeOnce_stepB (h : Hook B) (ev : Event) :
  handshakeOnce h -> handshakeOnce (VariantB.step elo multipv h ev).
Proof.
  intros Hh. destruct ev as [c|e m|text|fen d|id]; cbn [VariantB.step].
  - unfold mount. destruct (engine h) eqn:E; [assumption|].
    destruct c; cbn [negb]; [|assumption].
    destruct Hh as [(_ & Hp)|(E' & _)]; [|congruence].
    right. split; [reflexivity|]. exists []. cbn. rewrite Hp. now split.
  - unfold syncOptions. destruct (engine h) eqn:E; cbn [negb orb]; [|assumption].
    destruct (negb (ready h)); [assumption|].
    repeat (apply handshakeOnce_post; [assumption|intros H; cbn in H; discriminate H|]).
    assumption.
  - destruct (engine h) eqn:E; [|assumption].
    unfold VariantB.onMsg.
    match goal with |- context [dispatch text ?x] =>
      destruct (dispatch_frame text x) as (F1 & _ & F2 & _);
      apply (handshakeOnce_same x); [assumption|assumption|] end.
    assert (H1 : handshakeOnce
                   (if Js.includes text "uciok"
                    then post "isready"
                           (post ("setoption name MultiPV value " ++ numStr multipv)
                              (post ("setoption name UCI_Elo value " ++ numStr elo)
                                 (post "setoption name UCI_LimitStrength value true" h)))
                    else h)).
    { destruct (Js.includes text "uciok"); [|assumption].
      repeat (apply handshakeOnce_post; [assumption|intros H; cbn in H; discriminate H|]).
      assumption. }
    destruct (Js.includes text "readyok"); [|exact H1].
    revert H1. now apply handshakeOnce_same.
  - unfold VariantB.analyze. destruct (engine h) eqn:E; cbn [negb].
    + apply (handshakeOnce_same
               (post ("go movetime " ++ numStr d)
                  (post ("position fen " ++ fen) (post "stop" h))));
        [reflexivity|reflexivity|].
      repeat (apply handshakeOnce_post; [assumption|intros H; cbn in H; discriminate H|]).
      assumption.
    + revert Hh. now apply handshakeOnce_same.
  - destruct (existsb _ (timers h)); [|assumption].
    destruct (onTimeout_frame id (clearTimer id h)) as (F1 & _ & F2 & _).
    revert Hh. now apply handshakeOnce_same.
Qed.

End Handshake.

(** X7: starting the session is idempotent.  In both files, however often
    the mounting effect runs and whatever else happens, nothing is posted
    as long as no engine is constructed, and once one is, the first
    command posted is the handshake uci and it is never posted again. *)
Theorem handshake_posted_once_and_first {B : Board} (elo multipv : Z) (evs : list Event) :
  let hA := VariantA.run (B := B) elo multipv evs initial in
  let hB := VariantB.run (B := B) elo multipv evs initial in
  ((engine hA = false /\ posted hA = [])
   \/ (engine hA = true /\ exists rest, posted hA = "uci" :: rest /\ ~ In "uci" rest))
  /\ ((engine hB = false /\ posted hB = [])
      \/ (engine hB = true /\ exists rest, posted hB = "uci" :: rest /\ ~ In "uci" rest)).
Proof.
  cbv zeta.
  assert (H0 : handshakeOnce (B := B) initial) by (left; now split).
  split.
  - unfold VariantA.run. revert H0. generalize (initial (B := B)) as h.
    induction evs as [|ev evs IH]; intros h Hh; [exact Hh|].
    cbn [fold_left]. apply IH. now apply handshakeOnce_stepA.
  - unfold VariantB.run. revert H0. generalize (initial (B := B)) as h.
    induction evs as [|ev evs IH]; intros h Hh; [exact Hh|].
    cbn [fold_left]. apply IH. now apply handshakeOnce_stepB.
Qed.

(** X8: in part_000, if the engine sends readyok only after a readiness
    probe was posted, the session is ready only after a line with uciok
    and a later line with readyok. *)
Theorem hookB_ready_only_after_both_acks {B : Board} (elo multipv : Z) (evs : list Event) :
  VariantB.answersProbes (B := B) elo multipv evs ->
  ready (VariantB.run (B := B) elo multipv evs initial) = true ->
  exists pre ack mid readyAck rest,
    evs = (pre ++ Message ack :: mid ++ Message readyAck :: rest)%list
    /\ Js.includes ack "uciok" = true
    /\ Js.includes readyAck "readyok" = true.
Proof. exact (hookB_ready_after_both_acks elo multipv evs). Qed.

Lemma hookB_ready_only_after_both_acks_witness :
  exists pre ack mid readyAck rest,
    [Mount true; Message "uciok"; Message "readyok"]
    = (pre ++ Message ack :: mid ++ Message readyAck :: rest)%list
    /\ Js.includes ack "uciok" = true
    /\ Js.includes readyAck "readyok" = true.
Proof.
  apply (hookB_ready_only_after_both_acks (B := Fragment.board) 1200 3
           [Mount true; Message "uciok"; Message "readyok"]).
  - intros pre text rest Hevs Hr.
    destruct pre as [|e1 [|e2 [|e3 pre]]]; cbn in Hevs.
    + discriminate Hevs.
    + injection Hevs as <- <- _. discriminate Hr.
    + injection Hevs as <- <- <- _. vm_compute. auto 10.
    + injection Hevs as _ _ _ Hevs. destruct pre; discriminate Hevs.
  - reflexivity.
Defined.

(** ** Numbers in commands *)

Lemma digitsValue_acc (u : Decimal.uint) :
  forall acc : positive,
    fold_left (fun a c => 10 * a + (Z.of_nat (nat_of_ascii c) - 48))
              (list_ascii_of_string (NilEmpty.string_of_uint u)) (Z.pos acc)
    = Z.pos (Pos.of_uint_acc u acc).
Proof.
  induction u; intros acc; cbn [NilEmpty.string_of_uint list_ascii_of_string fold_left
                                Pos.of_uint_acc];
    try reflexivity; rewrite <- IHu; f_equal;
    rewrite Pos2Z.inj_add, Pos2Z.inj_mul;
    match goal with
    | |- context [Z.of_nat ?n] =>
        let v := eval vm_compute in (Z.of_nat n) in change (Z.of_nat n) with v
    end; lia.
Qed.

Lemma digitsValue_string_of_uint (u : Decimal.uint) :
  Js.digitsValue (NilEmpty.string_of_uint u) = Z.of_N (Pos.of_uint u).
Proof.
  unfold Js.digitsValue.
  induction u; cbn [NilEmpty.string_of_uint list_ascii_of_string fold_left Pos.of_uint];
    try reflexivity; try exact IHu;
    (change (10 * 0 + (Z.of_nat (nat_of_ascii _) - 48)) with (Z.pos 1)
     || change (10 * 0 + (Z.of_nat (nat_of_ascii _) - 48)) with (Z.pos 2)
     || change (10 * 0 + (Z.of_nat (nat_of_ascii _) - 48)) with (Z.pos 3)
     || change (10 * 0 + (Z.of_nat (nat_of_ascii _) - 48)) with (Z.pos 4)
     || change (10 * 0 + (Z.of_nat (nat_of_ascii _) - 48)) with (Z.pos 5)
     || change (10 * 0 + (Z.of_nat (nat_of_ascii _) - 48)) with (Z.pos 6)
     || change (10 * 0 + (Z.of_nat (nat_of_ascii _) - 48)) with (Z.pos 7)
     || change (10 * 0 + (Z.of_nat (nat_of_ascii _) - 48)) with (Z.pos 8)
     || change (10 * 0 + (Z.of_nat (nat_of_ascii _) - 48)) with (Z.pos 9));
    apply digitsValue_acc.
Qed.

(** A printed natural number is a run of digits. *)
Lemma spanDigits_string_of_uint (u : Decimal.uint) (rest : string) :
  Js.spanDigits rest = (EmptyString, rest) ->
  Js.spanDigits (NilEmpty.string_of_uint u ++ rest) = (NilEmpty.string_of_uint u, rest).
Proof.
  intros Hr.
  induction u; cbn [NilEmpty.string_of_uint append Js.spanDigits];
    [exact Hr | ..];
    match goal with
    | |- context [Js.isDigit ?d] => change (Js.isDigit d) with true
    end; cbv iota; now rewrite IHu.
Qed.

Lemma string_app_nil (s : string) : (s ++ "")%string = s.
Proof. induction s as [|c s IH]; cbn; [reflexivity|now rewrite IH]. Qed.

Lemma spanDigits_digits (u : Decimal.uint) :
  Js.spanDigits (NilEmpty.string_of_uint u) = (NilEmpty.string_of_uint u, EmptyString).
Proof.
  rewrite <- (string_app_nil (NilEmpty.string_of_uint u)) at 1.
  now apply spanDigits_string_of_uint.
Qed.

Lemma string_of_uint_no_minus (u : Decimal.uint) :
  digitsInt (NilEmpty.string_of_uint u) = Js.digitsValue (NilEmpty.string_of_uint u).
Proof.
  pose proof (spanDigits_digits u) as H.
  destruct u; cbn [NilEmpty.string_of_uint] in *; try reflexivity;
    unfold digitsInt; now rewrite H.
Qed.

(** A safe integer is a Number. *)
Lemma toNumber_safe (z : Z) : isSafeInteger z = true -> toNumber z = z.
Proof.
  unfold isSafeInteger, toNumber. intros H. apply Z.leb_le in H.
  change (2 ^ 53 - 1) with 9007199254740991 in H.
  destruct (Z.leb_spec (Z.log2 (Z.abs z) - 52) 0) as [_|Hd]; [reflexivity|].
  exfalso. destruct (Z.eq_dec (Z.abs z) 0) as [E|E].
  - rewrite E in Hd. cbn in Hd. lia.
  - assert (Hlt : Z.log2 (Z.abs z) < 53).
    { apply Z.log2_lt_pow2; [lia|]. change (2 ^ 53) with 9007199254740992. lia. }
    lia.
Qed.

Lemma digitsInt_digits (z : Z) :
  digitsInt (NilEmpty.string_of_int (Z.to_int z)) = z.
Proof.
  rewrite <- (DecimalZ.of_to z) at 2.
  destruct (Z.to_int z) as [u|u]; cbn [NilEmpty.string_of_int Z.of_int].
  - rewrite string_of_uint_no_minus, digitsValue_string_of_uint. reflexivity.
  - cbn [digitsInt]. rewrite spanDigits_digits. cbn [fst].
    rewrite digitsValue_string_of_uint. unfold Z.of_uint.
    now destruct (Pos.of_uint u).
Qed.

(** A safe integer printed into a command is read back as itself. *)
Lemma parseInt_numStr (z : Z) : isSafeInteger z = true -> parseInt (numStr z) = z.
Proof.
  intros Hs. unfold numStr, parseInt. rewrite Hs, digitsInt_digits.
  now apply toNumber_safe.
Qed.

Lemma stripPrefix_app (p s : string) : stripPrefix p (p ++ s) = Some s.
Proof.
  induction p as [|c p IH]; cbn; [now destruct s|].
  now rewrite Ascii.eqb_refl.
Qed.



(** Beyond the safe integers a number is not read back as written: the
    score 2^53 + 1 becomes 2^53, and 10^21 is printed in exponent form. *)
Example numbers_beyond_safe :
  parseInt "9007199254740993" = 9007199254740992
  /\ numStr (10 ^ 21) = "1e+21"
  /\ numStr (2 ^ 60) = "1152921504606847000"
  /\ parseInt (numStr (10 ^ 21)) = 1.
Proof. repeat split; vm_compute; reflexivity. Qed.

(** * Further properties of the coaching pipeline *)

Lemma finishesWith_ret_inv {R : Type} (x r : R) (ress : list Result) :
  finishesWith (Ret x) ress r -> ress = [] /\ r = x.
Proof.
  intros H.
  refine (match H in finishesWith t l r0
                return match t with
                       | Ret y => l = [] /\ r0 = y
                       | Await _ _ _ => True
                       end
          with
          | finishesWith_ret _ => conj eq_refl eq_refl
          | finishesWith_await _ _ _ _ _ _ _ => I
          end).
Qed.

Lemma finishesWith_await_inv {R : Type} (f : string) (l : Z) (k : Result -> Task R)
      (ress : list Result) (r : R) :
  finishesWith (Await f l k) ress r ->
  exists res rest, ress = res :: rest /\ finishesWith (k res) rest r.
Proof.
  intros H.
  refine (match H in finishesWith t l0 r0
                return match t with
                       | Ret _ => True
                       | Await _ _ k0 =>
                           exists res rest, l0 = res :: rest /\ finishesWith (k0 res) rest r0
                       end
          with
          | finishesWith_ret _ => I
          | finishesWith_await _ _ _ res rest _ Hk =>
              ex_intro _ res (ex_intro _ rest (conj eq_refl Hk))
          end).
Qed.

Lemma finishesWith_bind_inv {R S : Type} (t : Task R) (f : R -> Task S) :
  forall (ress : list Result) (s : S),
    finishesWith (bind t f) ress s ->
    exists x r1 r2,
      ress = (r1 ++ r2)%list /\ finishesWith t r1 x /\ finishesWith (f x) r2 s.
Proof.
  induction t as [x|fe l k IH]; cbn [bind]; intros ress s H.
  - exists x, [], ress. repeat split; [constructor|assumption].
  - apply finishesWith_await_inv in H. destruct H as (res & rest & -> & H).
    apply IH in H. destruct H as (x & r1 & r2 & -> & Hx & Hf).
    exists x, (res :: r1), r2. repeat split; [now constructor|assumption].
Qed.

Lemma finishesWith_finishes {R : Type} (t : Task R) (ress : list Result) (r : R) :
  finishesWith t ress r -> finishes t r.
Proof. induction 1; econstructor; eassumption. Qed.

(** What [requests] computes is a run. *)
Lemma requests_finishesWith {R : Type} (t : Task R) :
  forall (ress : list Result) (r : R),
    snd (requests t ress) = Some r ->
    List.length (fst (requests t ress)) = List.length ress ->
    finishesWith t ress r.
Proof.
  induction t as [x|fe l k IH]; intros ress r Hr Hl; cbn in *.
  - injection Hr as <-. destruct ress; [constructor|discriminate].
  - destruct ress as [|res rest]; [discriminate|].
    destruct (requests (k res) rest) as [q o] eqn:E. cbn in *.
    constructor. apply IH; rewrite E; cbn; [assumption|lia].
Qed.

Section PipelineMore.

Context {B : Board}.

(** The one await of a handler that asks only if the engine is ready. *)
Lemma finishesWith_ask (ready : bool) (f : string) (l : Z) (dflt : Result)
      (ress : list Result) (x : Result) :
  finishesWith (if ready then Await f l Ret else Ret dflt) ress x ->
  if ready then ress = [x] else (ress = [] /\ x = dflt).
Proof.
  destruct ready; intros H.
  - apply finishesWith_await_inv in H. destruct H as (res & rest & -> & H).
    apply finishesWith_ret_inv in H. destruct H as (-> & ->). reflexivity.
  - now apply finishesWith_ret_inv in H.
Qed.

Lemma engineReply_frame (res : Result) (a : App B) :
  coach (engineReply res a) = coach a
  /\ (hist (gameState a) = [] -> hist (gameState (engineReply res a)) = []).
Proof.
  unfold engineReply.
  destruct (find (isBestmove res) (moves (cur (game a)))); [|now split].
  now split.
Qed.

(** The reply of the engine is played only if it is the coordinate form of
    a legal move. *)
Lemma engineReply_none (res : Result) (a : App B) :
  (forall m, In m (moves (cur (game a))) -> isBestmove res m = false) ->
  engineReply res a = a.
Proof.
  intros Hn. unfold engineReply.
  destruct (find (isBestmove res) (moves (cur (game a)))) as [mv|] eqn:E; [|reflexivity].
  apply find_some in E. destruct E as [Hin Ht]. rewrite (Hn mv Hin) in Ht. discriminate.
Qed.

Lemma engineMoveA_frame (ready : bool) (depth : Z) (a a' : App B) (ress : list Result) :
  finishesWith (PipelineA.engineMove ready depth a) ress a' ->
  coach a' = coach a
  /\ (hist (gameState a) = [] -> hist (gameState a') = [])
  /\ (List.length ress <= 1)%nat
  /\ (ready = false -> ress = []).
Proof.
  unfold PipelineA.engineMove. intros H.
  destruct ready; cbn [negb orb] in H.
  - destruct (isGameOver (cur (game a))).
    + apply finishesWith_ret_inv in H. destruct H as (-> & ->). cbn.
      repeat split; auto; discriminate.
    + apply finishesWith_await_inv in H. destruct H as (res & rest & -> & H).
      apply finishesWith_ret_inv in H. destruct H as (-> & ->).
      destruct (engineReply_frame res a). cbn. repeat split; auto; discriminate.
  - apply finishesWith_ret_inv in H. destruct H as (-> & ->). cbn. auto.
Qed.

Lemma engineMoveB_frame (ready : bool) (a a' : App B) (ress : list Result) :
  finishesWith (PipelineB.engineMove ready a) ress a' ->
  coach a' = coach a
  /\ (hist (gameState a) = [] -> hist (gameState a') = [])
  /\ (List.length ress <= 1)%nat
  /\ (ready = false -> ress = []).
Proof.
  unfold PipelineB.engineMove. intros H.
  destruct ready; cbn [negb orb] in H.
  - destruct (isGameOver (cur (game a))).
    + apply finishesWith_ret_inv in H. destruct H as (-> & ->). cbn.
      repeat split; auto; discriminate.
    + apply finishesWith_await_inv in H. destruct H as (res & rest & -> & H).
      apply finishesWith_ret_inv in H. destruct H as (-> & ->).
      destruct (engineReply_frame res a). cbn. repeat split; auto; discriminate.
  - apply finishesWith_ret_inv in H. destruct H as (-> & ->). cbn. auto.
Qed.

(** The grade depends on the size of the loss only. *)
Lemma gradeFromLoss_abs (x y : Z) : Z.abs x = Z.abs y -> gradeFromLoss x = gradeFromLoss y.
Proof. intros H. rewrite !gradeFromLoss_steps. unfold gradeSteps. now rewrite H. Qed.

Lemma gradeFromLoss_turnSign (x : Z) (p : Pos B) :
  gradeFromLoss (x * turnSign p) = gradeFromLoss x.
Proof. apply gradeFromLoss_abs. unfold turnSign. destruct (String.eqb _ _); lia. Qed.

(** What a drop does in App.jsx, with the results of its analyses. *)
Lemma onPieceDropA_run (ready : bool) (depth : Z) (s t : Square) (a a' : App B)
      (b : bool) (ress : list Result) :
  finishesWith (PipelineA.onPieceDrop ready depth s t a) ress (b, a') ->
  match gameMove (game a) (userMoveObj s t) with
  | None => ress = [] /\ b = false /\ a' = a
  | Some (mv, g) =>
      exists pre post rest r,
        b = true
        /\ (if ready then ress = pre :: post :: rest
            else ress = rest /\ pre = mkResult None 0 [] /\ post = mkResult None 0 [])
        /\ (List.length rest <= 1)%nat
        /\ (ready = false -> rest = [])
        /\ coach a' = (coach a ++ [r])%list
        /\ r = mkRecord (S (List.length (hist (game a)))) (san mv)
                        (if ready then gradeFromLoss ((cp pre - cp post) * turnSign (cur g))
                         else "A")
                        ((cp pre - cp post) * turnSign (cur g))
                        (explainHeuristic mv (load (fen (cur g))) (cur g))
        /\ hist (gameState a') = []
  end.
Proof.
  unfold PipelineA.onPieceDrop. intros H.
  destruct (gameMove (game a) (userMoveObj s t)) as [[mv g]|] eqn:E.
  2:{ apply finishesWith_ret_inv in H. destruct H as (-> & H). injection H as Hb Ha'. now subst b a'. }
  apply finishesWith_bind_inv in H. destruct H as (pre & r1 & r2 & -> & Hpre & H).
  cbv zeta in H.
  apply finishesWith_bind_inv in H. destruct H as (post & r3 & r4 & -> & Hpost & H).
  cbv zeta in H.
  apply finishesWith_bind_inv in H. destruct H as (a2 & r5 & r6 & -> & Hreply & H).
  apply finishesWith_ret_inv in H. destruct H as (-> & H). injection H as Hb Ha'. subst b a'.
  apply engineMoveA_frame in Hreply. destruct Hreply as (Hc & Hh & Hlen & Hnr).
  cbn [game withGame] in *.
  rewrite (gameUndo_gameMove _ _ _ _ E), E in *.
  pose proof (gameMove_inv _ _ _ _ E) as (p' & _ & Eg).
  apply finishesWith_ask in Hpre. apply finishesWith_ask in Hpost.
  exists pre, post, r5.
  eexists. split; [reflexivity|]. split.
  { destruct ready.
    - subst r1 r3. now rewrite app_nil_r.
    - destruct Hpre as (-> & ->). destruct Hpost as (-> & ->). cbn. now rewrite app_nil_r. }
  split; [assumption|]. split; [assumption|]. split; [rewrite Hc; reflexivity|]. split.
  - subst g. reflexivity.
  - apply Hh. reflexivity.
Qed.

(** What a drop does in part_000, with the results of its analyses. *)
Lemma onPieceDropB_run (ready : bool) (s t : Square) (a a' : App B)
      (b : bool) (ress : list Result) :
  finishesWith (PipelineB.onPieceDrop ready s t a) ress (b, a') ->
  exists pre,
    match gameMove (game a) (userMoveObj s t) with
    | None =>
        b = false /\ a' = a
        /\ (if ready then ress = [pre] else ress = [])
    | Some (mv, g) =>
        exists post rest r,
          b = true
          /\ (if ready then ress = pre :: post :: rest
              else ress = rest /\ pre = mkResult None 0 [] /\ post = mkResult None 0 [])
          /\ (List.length rest <= 1)%nat
          /\ (ready = false -> rest = [])
          /\ coach a' = (coach a ++ [r])%list
          /\ ply r = S (List.length (hist (game a)))
          /\ r_move r = san mv
          /\ loss r = cp pre + cp post
          /\ grade r = gradeFromLoss (cp pre + cp post)
          /\ hist (gameState a') = []
    end.
Proof.
  unfold PipelineB.onPieceDrop. intros H.
  apply finishesWith_bind_inv in H. destruct H as (pre & r1 & r2 & -> & Hpre & H).
  cbv zeta in H. apply finishesWith_ask in Hpre. exists pre.
  destruct (gameMove (game a) (userMoveObj s t)) as [[mv g]|] eqn:E.
  2:{ apply finishesWith_ret_inv in H. destruct H as (-> & H). injection H as Hb Ha'. subst b a'.
      split; [reflexivity|]. split; [reflexivity|].
      destruct ready; [now subst r1|now destruct Hpre as (-> & _)]. }
  apply finishesWith_bind_inv in H. destruct H as (post & r3 & r4 & -> & Hpost & H).
  cbv zeta in H.
  apply finishesWith_bind_inv in H. destruct H as (a2 & r5 & r6 & -> & Hreply & H).
  apply finishesWith_ret_inv in H. destruct H as (-> & H). injection H as Hb Ha'. subst b a'.
  apply engineMoveB_frame in Hreply. destruct Hreply as (Hc & Hh & Hlen & Hnr).
  pose proof (gameMove_inv _ _ _ _ E) as (p' & _ & Eg).
  apply finishesWith_ask in Hpost.
  exists post, r5. eexists. split; [reflexivity|]. split.
  { destruct ready.
    - subst r1 r3. now rewrite app_nil_r.
    - destruct Hpre as (-> & ->). destruct Hpost as (-> & ->). cbn. now rewrite app_nil_r. }
  split; [assumption|]. split; [assumption|]. split; [rewrite Hc; reflexivity|].
  subst g. split; [reflexivity|]. split; [reflexivity|].
  split; [cbn [loss]; lia|]. split; [cbn [grade]; f_equal; lia|].
  apply Hh. reflexivity.
Qed.

End PipelineMore.

(** X10: the feedback list is append-only, one record for each accepted
    move.  In both files, a drop that the board rejects returns false and
    leaves the game, the published position and the feedback as they
    were; a drop that it accepts returns true and appends exactly one
    record, after the earlier ones, with the notation of the move made,
    with the length of the game's history after the move as ply, and, if
    the engine is ready, with the grade of the loss it records. *)
Theorem onPieceDrop_appends_one_record {B : Board} (ready : bool) (depth : Z)
        (s t : Square) (a a' : App B) (b : bool) (ress : list Result) :
  finishesWith (PipelineA.onPieceDrop ready depth s t a) ress (b, a')
  \/ finishesWith (PipelineB.onPieceDrop ready s t a) ress (b, a') ->
  match gameMove (game a) (userMoveObj s t) with
  | None => b = false /\ a' = a
  | Some (mv, g) =>
      b = true
      /\ exists r,
          coach a' = (coach a ++ [r])%list
          /\ r_move r = san mv
          /\ ply r = S (List.length (hist (game a)))
          /\ (ready = true -> grade r = gradeFromLoss (loss r))
  end.
Proof.
  intros [H|H].
  - apply onPieceDropA_run in H.
    destruct (gameMove (game a) (userMoveObj s t)) as [[mv g]|].
    + destruct H as (pre & post & rest & r & -> & _ & _ & _ & Hc & -> & _).
      split; [reflexivity|]. eexists. split; [exact Hc|]. cbn.
      repeat split. now intros ->.
    + now destruct H as (_ & -> & ->).
  - apply onPieceDropB_run in H. destruct H as (pre & H).
    destruct (gameMove (game a) (userMoveObj s t)) as [[mv g]|].
    + destruct H as (post & rest & r & -> & _ & _ & _ & Hc & Hp & Hm & Hl & Hg & _).
      split; [reflexivity|]. exists r. repeat split; try assumption.
      intros _. now rewrite Hg, Hl.
    + now destruct H as (-> & -> & _).
Qed.

Lemma onPieceDrop_appends_one_record_witness :
  match gameMove (game afterE4App) (userMoveObj (fd, r7) (fd, r5)) with
  | None => fst d5DroppedA = false /\ snd d5DroppedA = afterE4App
  | Some (mv, g) =>
      fst d5DroppedA = true
      /\ exists r,
          coach (snd d5DroppedA) = (coach afterE4App ++ [r])%list
          /\ r_move r = san mv
          /\ ply r = S (List.length (hist (game afterE4App)))
          /\ (true = true -> grade r = gradeFromLoss (loss r))
  end.
Proof.
  apply (onPieceDrop_appends_one_record (B := Fragment.board) true 16 (fd, r7) (fd, r5)
           afterE4App (snd d5DroppedA) (fst d5DroppedA) d5Answers).
  left. apply requests_finishesWith; vm_compute; reflexivity.
Defined.

(** X11: how the loss is computed when the engine is ready.  With the
    score [pre] of the analysis before the accepted move and the score
    [post] of the analysis after it, App.jsx records the loss
    (pre - post), negated when Black is to move after the move, and grades
    |pre - post|: the sign factor never changes the grade.  part_000
    records and grades pre + post. *)
Theorem onPieceDrop_loss_conventions {B : Board} (depth : Z) (s t : Square)
        (a : App B) (mv : Move) (g : Game B) :
  gameMove (game a) (userMoveObj s t) = Some (mv, g) ->
  (forall pre post rest b a',
      finishesWith (PipelineA.onPieceDrop true depth s t a) (pre :: post :: rest) (b, a') ->
      exists r,
        coach a' = (coach a ++ [r])%list
        /\ loss r = (cp pre - cp post) * turnSign (cur g)
        /\ grade r = gradeFromLoss (cp pre - cp post))
  /\ (forall pre post rest b a',
         finishesWith (PipelineB.onPieceDrop true s t a) (pre :: post :: rest) (b, a') ->
         exists r,
           coach a' = (coach a ++ [r])%list
           /\ loss r = cp pre + cp post
           /\ grade r = gradeFromLoss (cp pre + cp post)).
Proof.
  intros E. split; intros pre post rest b a' H.
  - apply onPieceDropA_run in H. rewrite E in H.
    destruct H as (pre' & post' & rest' & r & _ & Hr & _ & _ & Hc & -> & _).
    injection Hr as <- <- <-.
    eexists. split; [exact Hc|]. cbn. split; [reflexivity|].
    apply gradeFromLoss_turnSign.
  - apply onPieceDropB_run in H. destruct H as (pre' & H). rewrite E in H.
    destruct H as (post' & rest' & r & _ & Hr & _ & _ & Hc & _ & _ & Hl & Hg & _).
    injection Hr as <- <- <-.
    exists r. now repeat split.
Qed.

Lemma onPieceDrop_loss_conventions_witness :
  (forall pre post rest b a',
      finishesWith (PipelineA.onPieceDrop true 16 (fd, r7) (fd, r5) afterE4App)
                   (pre :: post :: rest) (b, a') ->
      exists r,
        coach a' = (coach afterE4App ++ [r])%list
        /\ loss r = (cp pre - cp post) * turnSign (B := Fragment.board) Fragment.AfterE4D5
        /\ grade r = gradeFromLoss (cp pre - cp post))
  /\ (forall pre post rest b a',
         finishesWith (PipelineB.onPieceDrop true (fd, r7) (fd, r5) afterE4App)
                      (pre :: post :: rest) (b, a') ->
         exists r,
           coach a' = (coach afterE4App ++ [r])%list
           /\ loss r = cp pre + cp post
           /\ grade r = gradeFromLoss (cp pre + cp post)).
Proof.
  apply (onPieceDrop_loss_conventions (B := Fragment.board) 16 (fd, r7) (fd, r5) afterE4App
           (Fragment.push Black fd r7 r5 true)
           (mkGame (B := Fragment.board) Fragment.AfterE4D5
                   [(Fragment.AfterE4, Fragment.push Black fd r7 r5 true)])).
  reflexivity.
Defined.

(** The same answers, -30 before the move and 45 after it, are graded C in
    App.jsx (a loss of 75) and A in part_000 (a loss of 15). *)
Example d5_graded_differently :
  map (fun r => (r_move r, grade r, loss r)) (coach (snd d5DroppedA)) = [("d5", "C", -75)]
  /\ map (fun r => (r_move r, grade r, loss r)) (coach (snd d5DroppedB)) = [("d5", "A", 15)].
Proof. split; vm_compute; reflexivity. Qed.

(** X12: with the engine not ready, an accepted drop requests no analysis
    at all and records a loss of 0; App.jsx then grades the move A, while
    part_000 grades it A+, the grade of a loss of 0. *)
Theorem onPieceDrop_without_engine {B : Board} (depth : Z) (s t : Square)
        (a : App B) (mv : Move) (g : Game B) :
  gameMove (game a) (userMoveObj s t) = Some (mv, g) ->
  (forall ress b a',
      finishesWith (PipelineA.onPieceDrop false depth s t a) ress (b, a') ->
      ress = []
      /\ exists r, coach a' = (coach a ++ [r])%list /\ loss r = 0 /\ grade r = "A")
  /\ (forall ress b a',
         finishesWith (PipelineB.onPieceDrop false s t a) ress (b, a') ->
         ress = []
         /\ exists r, coach a' = (coach a ++ [r])%list /\ loss r = 0 /\ grade r = "A+").
Proof.
  intros E. split; intros ress b a' H.
  - apply onPieceDropA_run in H. rewrite E in H.
    destruct H as (pre & post & rest & r & _ & (-> & -> & ->) & _ & Hn & Hc & -> & _).
    split; [now apply Hn|]. eexists. split; [exact Hc|]. cbn. now split.
  - apply onPieceDropB_run in H. destruct H as (pre & H). rewrite E in H.
    destruct H as (post & rest & r & _ & (-> & -> & ->) & _ & Hn & Hc & _ & _ & Hl & Hg & _).
    split; [now apply Hn|]. exists r. now repeat split.
Qed.

Lemma onPieceDrop_without_engine_witness :
  (forall ress b a',
      finishesWith (PipelineA.onPieceDrop false 16 (fa, r7) (fa, r8) pawnA7App) ress (b, a') ->
      ress = []
      /\ exists r, coach a' = (coach pawnA7App ++ [r])%list /\ loss r = 0 /\ grade r = "A")
  /\ (forall ress b a',
         finishesWith (PipelineB.onPieceDrop false (fa, r7) (fa, r8) pawnA7App) ress (b, a') ->
         ress = []
         /\ exists r, coach a' = (coach pawnA7App ++ [r])%list /\ loss r = 0 /\ grade r = "A+").
Proof.
  apply (onPieceDrop_without_engine (B := Fragment.board) 16 (fa, r7) (fa, r8) pawnA7App
           (Fragment.promote Queen "+")
           (mkGame (B := Fragment.board) Fragment.QueenA8
                   [(Fragment.PawnA7, Fragment.promote Queen "+")])).
  reflexivity.
Defined.

(** X13: the reply of the engine.  In both files [engineMove] plays a move
    only if the bestmove of the analysis is the coordinate form of a legal
    move of the game: when it is null or anything else (as when the engine
    has no move), the game, the published position and the feedback list
    stay exactly as they were. *)
Theorem engineMove_ignores_illegal_bestmove {B : Board} (ready : bool) (depth : Z)
        (a a' : App B) (res : Result) :
  finishesWith (PipelineA.engineMove ready depth a) [res] a'
  \/ finishesWith (PipelineB.engineMove ready a) [res] a' ->
  (forall m, In m (moves (cur (game a))) -> bestmove res <> Some (uci_of m)) ->
  a' = a.
Proof.
  intros H Hn.
  assert (Hr : engineReply res a = a).
  { apply engineReply_none. intros m Hin. unfold isBestmove.
    destruct (bestmove res) as [u|] eqn:Eb; [|reflexivity].
    destruct (String.eqb_spec (uci_of m) u) as [<-|]; [|reflexivity].
    exfalso. now apply (Hn m Hin). }
  destruct H as [H|H].
  - unfold PipelineA.engineMove in H.
    destruct (negb ready || isGameOver (cur (game a))).
    + apply finishesWith_ret_inv in H. destruct H as (H & _). discriminate H.
    + apply finishesWith_await_inv in H. destruct H as (res' & rest & Hl & H).
      injection Hl as <- <-. apply finishesWith_ret_inv in H. destruct H as (_ & ->).
      exact Hr.
  - unfold PipelineB.engineMove in H.
    destruct (negb ready || isGameOver (cur (game a))).
    + apply finishesWith_ret_inv in H. destruct H as (H & _). discriminate H.
    + apply finishesWith_await_inv in H. destruct H as (res' & rest & Hl & H).
      injection Hl as <- <-. apply finishesWith_ret_inv in H. destruct H as (_ & ->).
      exact Hr.
Qed.

Lemma engineMove_ignores_illegal_bestmove_witness : afterE4App = afterE4App.
Proof.
  apply (engineMove_ignores_illegal_bestmove (B := Fragment.board) true 16
           afterE4App afterE4App noMoveAnswer).
  - left. apply requests_finishesWith; vm_compute; reflexivity.
  - intros m Hin H. vm_compute in Hin.
    repeat (destruct Hin as [<-|Hin]; [vm_compute in H; discriminate H|]).
    destruct Hin.
Defined.

(** X14: the two undo handlers do the same.  With an empty history they
    return without doing anything; otherwise they take back two moves, or
    the only one, and publish the position reached; the feedback list is
    never touched. *)
Theorem onUndo_takes_back_two {B : Board} (a : App B) :
  HandlersA.onUndo a = HandlersB.onUndo a
  /\ (hist (game a) = [] -> HandlersA.onUndo a = a)
  /\ hist (game (HandlersA.onUndo a)) = skipn 2 (hist (game a))
  /\ cur (game (HandlersA.onUndo a))
     = match hist (game a) with
       | [] => cur (game a)
       | [(p, _)] => p
       | _ :: (p, _) :: _ => p
       end
  /\ coach (HandlersA.onUndo a) = coach a
  /\ (hist (game a) <> [] ->
      fenState (HandlersA.onUndo a) = fen (cur (game (HandlersA.onUndo a)))
      /\ gameState (HandlersA.onUndo a) = newChess (fen (cur (game (HandlersA.onUndo a))))).
Proof.
  unfold HandlersA.onUndo, HandlersB.onUndo.
  destruct a as [[c h] gs fs co]. cbn [game hist cur].
  destruct h as [|[p1 m1] [|[p2 m2] h]]; cbn; repeat split; intros;
    first [reflexivity | congruence].
Qed.

(** X15: the Undo button after a move.  Every game a completed drop
    publishes is rebuilt from a position string and has an empty history;
    so the undo handler of the next render, in both files, returns without
    taking anything back. *)
Theorem onUndo_does_nothing_after_drop {B : Board} (ready : bool) (depth : Z)
        (s t : Square) (a a' : App B) (ress : list Result) :
  finishesWith (PipelineA.onPieceDrop ready depth s t a) ress (true, a')
  \/ finishesWith (PipelineB.onPieceDrop ready s t a) ress (true, a') ->
  hist (gameState a') = []
  /\ HandlersA.onUndo (rerender a') = rerender a'
  /\ HandlersB.onUndo (rerender a') = rerender a'.
Proof.
  intros H.
  assert (Hh : hist (gameState a') = []).
  { destruct H as [H|H].
    - apply onPieceDropA_run in H.
      destruct (gameMove (game a) (userMoveObj s t)) as [[mv g]|].
      + now destruct H as (pre & post & rest & r & _ & _ & _ & _ & _ & _ & Hh).
      + destruct H as (_ & H & _). discriminate H.
    - apply onPieceDropB_run in H. destruct H as (pre & H).
      destruct (gameMove (game a) (userMoveObj s t)) as [[mv g]|].
      + now destruct H as (post & rest & r & _ & _ & _ & _ & _ & _ & _ & _ & _ & Hh).
      + destruct H as (H & _). discriminate H. }
  split; [assumption|].
  unfold HandlersA.onUndo, HandlersB.onUndo, rerender. cbn [game]. rewrite Hh. now split.
Qed.

Lemma onUndo_does_nothing_after_drop_witness :
  hist (gameState (snd d5DroppedA)) = []
  /\ HandlersA.onUndo (rerender (snd d5DroppedA)) = rerender (snd d5DroppedA)
  /\ HandlersB.onUndo (rerender (snd d5DroppedA)) = rerender (snd d5DroppedA).
Proof.
  apply (onUndo_does_nothing_after_drop (B := Fragment.board) true 16 (fd, r7) (fd, r5)
           afterE4App (snd d5DroppedA) d5Answers).
  left. apply requests_finishesWith; vm_compute; reflexivity.
Defined.

(** X16: [clamp] keeps a value inside the bounds it is given, leaves a
    value already inside alone and is idempotent; the depth App.jsx sends
    for the running evaluation is always between 8 and 18, the depth for a
    hint at least 8 and the depth the slider sets between 8 and 22. *)
Theorem clamp_bounds (n a b depth value : Z) :
  (a <= b -> a <= clamp n a b <= b)
  /\ (a <= n <= b -> clamp n a b = n)
  /\ clamp (clamp n a b) a b = clamp n a b
  /\ 8 <= evalDepth depth <= 18
  /\ 8 <= hintDepth depth
  /\ 8 <= sliderDepth value <= 22.
Proof. unfold sliderDepth, hintDepth, evalDepth, clamp. repeat split; lia. Qed.

(** X17: a new game as black.  [newGame] publishes the starting position
    and empties the feedback list, but the engine move it schedules is the
    [engineMove] of its own render, which reads the game that was on the
    board: in both files, when that handler has played the engine's legal
    bestmove, the position published is the one reached from the old
    game, not from the starting position. *)
Theorem newGame_black_replies_in_old_game {B : Board} (ready : bool) (depth : Z)
        (a a' : App B) (res : Result) (mv m : Move) (g' : Game B) :
  find (isBestmove res) (moves (cur (game a))) = Some mv ->
  gameMove (game a) (asMoveObj mv) = Some (m, g') ->
  finishesWith (PipelineA.engineMove ready depth (HandlersA.newGame a)) [res] a'
  \/ finishesWith (PipelineB.engineMove ready (HandlersB.newGame a)) [res] a' ->
  HandlersA.newGameScheduled ready depth true a
  = Some (100, PipelineA.engineMove ready depth (HandlersA.newGame a))
  /\ HandlersB.newGameScheduled ready true a
     = Some (150, PipelineB.engineMove ready (HandlersB.newGame a))
  /\ fenState (HandlersA.newGame a) = fen (cur (freshChess (B := B)))
  /\ coach (HandlersA.newGame a) = []
  /\ fenState a' = fen (cur g')
  /\ gameState a' = newChess (fen (cur g'))
  /\ coach a' = [].
Proof.
  intros Ef Eg H.
  assert (Hr : engineReply res (HandlersA.newGame a)
               = publish (withGame g' (HandlersA.newGame a))).
  { unfold engineReply, HandlersA.newGame. cbn [game]. now rewrite Ef, Eg. }
  assert (Ha : a' = publish (withGame g' (HandlersA.newGame a))).
  { destruct H as [H|H].
    - unfold PipelineA.engineMove in H.
      destruct (negb ready || isGameOver (cur (game (HandlersA.newGame a)))).
      + apply finishesWith_ret_inv in H. destruct H as (H & _). discriminate H.
      + apply finishesWith_await_inv in H. destruct H as (res' & rest & Hl & H).
        injection Hl as <- <-. apply finishesWith_ret_inv in H. destruct H as (_ & ->).
        exact Hr.
    - unfold PipelineB.engineMove in H.
      destruct (negb ready || isGameOver (cur (game (HandlersB.newGame a)))).
      + apply finishesWith_ret_inv in H. destruct H as (H & _). discriminate H.
      + apply finishesWith_await_inv in H. destruct H as (res' & rest & Hl & H).
        injection Hl as <- <-. apply finishesWith_ret_inv in H. destruct H as (_ & ->).
        exact Hr. }
  subst a'. repeat split.
Qed.

Lemma newGame_black_replies_in_old_game_witness :
  HandlersA.newGameScheduled true 16 true afterE4App
  = Some (100, PipelineA.engineMove true 16 (HandlersA.newGame afterE4App))
  /\ HandlersB.newGameScheduled true true afterE4App
     = Some (150, PipelineB.engineMove true (HandlersB.newGame afterE4App))
  /\ fenState (HandlersA.newGame afterE4App) = fen (cur (freshChess (B := Fragment.board)))
  /\ coach (HandlersA.newGame afterE4App) = []
  /\ fenState newGameBlackA
     = fen (cur (mkGame (B := Fragment.board) Fragment.AfterE4D5
                        [(Fragment.AfterE4, Fragment.push Black fd r7 r5 true)]))
  /\ gameState newGameBlackA
     = newChess (fen (cur (mkGame (B := Fragment.board) Fragment.AfterE4D5
                                  [(Fragment.AfterE4, Fragment.push Black fd r7 r5 true)])))
  /\ coach newGameBlackA = [].
Proof.
  apply (newGame_black_replies_in_old_game (B := Fragment.board) true 16 afterE4App
           newGameBlackA newGameAnswer
           (Fragment.push Black fd r7 r5 true) (Fragment.push Black fd r7 r5 true)).
  - reflexivity.
  - reflexivity.
  - left. apply requests_finishesWith; vm_compute; reflexivity.
Defined.

(** After New as Black the board shows 1. e4 d5, the old game with the
    engine's move, and not a first move of White. *)
Example newGame_black_shows_old_game :
  fenState (HandlersA.newGame afterE4App) = Fragment.fenOf Fragment.Initial
  /\ fenState newGameBlackA = Fragment.fenOf Fragment.AfterE4D5.
Proof. split; vm_compute; reflexivity. Qed.

(** ** The opening matcher, the tokens and the rationale *)

Section MatcherExtras.

Context {B : Board}.

Lemma prefixAgrees_nil (t : list string) : prefixAgrees t [] = true.
Proof. unfold prefixAgrees. cbn [List.length]. now rewrite Nat.min_0_r. Qed.

Lemma prefixAgrees_truncate (t ms more : list string) :
  prefixAgrees t (ms ++ more) = true -> prefixAgrees t ms = true.
Proof.
  unfold prefixAgrees. rewrite !forallb_forall. intros H i Hi.
  apply in_seq in Hi.
  assert (Hlt : (i < List.length ms)%nat) by lia.
  specialize (H i). rewrite (app_nth1 ms more "" Hlt) in H. apply H.
  apply in_seq. rewrite length_app. lia.
Qed.

Lemma prefixAgrees_beyond (t ms more : list string) :
  (List.length t <= List.length ms)%nat ->
  prefixAgrees t (ms ++ more) = prefixAgrees t ms.
Proof.
  intros Hle. unfold prefixAgrees. rewrite length_app.
  replace (Nat.min (List.length t) (List.length ms + List.length more))
    with (List.length t) by lia.
  replace (Nat.min (List.length t) (List.length ms)) with (List.length t) by lia.
  apply eq_true_iff_eq. rewrite !forallb_forall.
  split; intros H i Hi; specialize (H i Hi); apply in_seq in Hi;
    assert (Hlt : (i < List.length ms)%nat) by lia;
    rewrite (app_nth1 ms more "" Hlt) in *; exact H.
Qed.

Lemma forallb_pointwise {A : Type} (f g : A -> bool) (l : list A) :
  (forall x, f x = g x) -> forallb f l = forallb g l.
Proof. intros H. induction l as [|x l IH]; cbn; [reflexivity|]. now rewrite H, IH. Qed.

Lemma removeChars_idem (cs s : string) :
  Js.removeChars cs (Js.removeChars cs s) = Js.removeChars cs s.
Proof.
  induction s as [|c s IH]; [reflexivity|]. cbn [Js.removeChars].
  destruct (Js.charIn c cs) eqn:E; [exact IH|].
  cbn [Js.removeChars]. now rewrite E, IH.
Qed.

Lemma prefixAgrees_stripDecor (t ms : list string) :
  prefixAgrees t (map stripDecor ms) = prefixAgrees t ms.
Proof.
  unfold prefixAgrees. rewrite length_map. apply forallb_pointwise. intros i.
  replace (nth i (map stripDecor ms) "") with (stripDecor (nth i ms ""))
    by (symmetry; exact (map_nth stripDecor ms "" i)).
  unfold stripDecor. now rewrite removeChars_idem.
Qed.

Lemma tryMatch_stripDecor (ms : list string) (op : Opening) :
  tryMatch (map stripDecor ms) op = tryMatch ms op.
Proof.
  unfold tryMatch. destruct (replay start [] (pgnTokens (pgn op))) as [t|]; [|reflexivity].
  now rewrite prefixAgrees_stripDecor.
Qed.

Lemma fold_keepBest_ext (ms ms' : list string) (book : list Opening) :
  (forall op, tryMatch ms op = tryMatch ms' op) ->
  forall best, fold_left (keepBest ms) book best = fold_left (keepBest ms') book best.
Proof.
  intros H. induction book as [|op book IH]; intros best; [reflexivity|].
  cbn [fold_left]. unfold keepBest at 2 4. rewrite H. apply IH.
Qed.

End MatcherExtras.

(** X18: a match does not need the moves to have been played.  Whatever
    [tryMatch] returns for a history it returns for every shorter history
    the first is a continuation of, down to the empty one; and once the
    history is at least as long as the book line, moves played after it
    change nothing. *)
Theorem tryMatch_survives_truncation {B : Board} (ms more : list string)
        (op : Opening) (o : OpeningInfo) :
  tryMatch (ms ++ more) op = Some o ->
  tryMatch ms op = Some o
  /\ tryMatch [] op = Some o
  /\ ((matchedLen o <= List.length ms)%nat ->
      forall later, tryMatch (ms ++ later) op = Some o).
Proof.
  unfold tryMatch. destruct (replay start [] (pgnTokens (pgn op))) as [t|]; [|discriminate].
  destruct (prefixAgrees t (ms ++ more)) eqn:E; [|discriminate].
  intros [= <-]. rewrite (prefixAgrees_truncate _ _ _ E), prefixAgrees_nil.
  repeat split. cbn [matchedLen]. intros Hle later.
  rewrite (prefixAgrees_beyond t ms later Hle), (prefixAgrees_truncate _ _ _ E).
  reflexivity.
Qed.

Lemma tryMatch_survives_truncation_witness :
  let op := mkOpening "C20" "King's Pawn Game" "e4" in
  let o := mkInfo "C20" "King's Pawn Game" 1 in
  tryMatch (B := Fragment.board) ["e4"] op = Some o
  /\ tryMatch (B := Fragment.board) [] op = Some o
  /\ ((matchedLen o <= List.length ["e4"])%nat ->
      forall later, tryMatch (B := Fragment.board) (["e4"] ++ later) op = Some o).
Proof.
  intros op o.
  apply (tryMatch_survives_truncation (B := Fragment.board) ["e4"] ["d5"] op o).
  reflexivity.
Defined.

(** X19: check and mate marks in the history are not compared.  Removing
    every + and # from the moves of the history changes neither what
    [tryMatch] returns for any book entry nor the opening detected. *)
Theorem detectOpening_ignores_check_marks {B : Board} (ms : list string) :
  (forall op, tryMatch (map stripDecor ms) op = tryMatch ms op)
  /\ detectOpening (map stripDecor ms) = detectOpening ms.
Proof.
  split; [apply tryMatch_stripDecor|].
  unfold detectOpening, detectOpeningIn. apply fold_keepBest_ext, tryMatch_stripDecor.
Qed.

(** X20: the opening shown after a move.  The game a completed drop
    publishes has an empty history, so the history the next render hands
    to [detectOpening] is empty whatever has been played, in both files:
    the opening shown is the one detected for no moves at all. *)
Theorem openingInfo_after_drop {B : Board} (ready : bool) (depth : Z)
        (s t : Square) (a a' : App B) (ress : list Result) :
  finishesWith (PipelineA.onPieceDrop ready depth s t a) ress (true, a')
  \/ finishesWith (PipelineB.onPieceDrop ready s t a) ress (true, a') ->
  currentSAN (rerender a') = []
  /\ openingInfo (rerender a') = detectOpening [].
Proof.
  intros H.
  assert (Hh : hist (gameState a') = []).
  { destruct H as [H|H].
    - apply onPieceDropA_run in H.
      destruct (gameMove (game a) (userMoveObj s t)) as [[mv g]|].
      + now destruct H as (pre & post & rest & r & _ & _ & _ & _ & _ & _ & Hh).
      + destruct H as (_ & H & _). discriminate H.
    - apply onPieceDropB_run in H. destruct H as (pre & H).
      destruct (gameMove (game a) (userMoveObj s t)) as [[mv g]|].
      + now destruct H as (post & rest & r & _ & _ & _ & _ & _ & _ & _ & _ & _ & Hh).
      + destruct H as (H & _). discriminate H. }
  unfold openingInfo, currentSAN, rerender. cbn [game]. rewrite Hh. now split.
Qed.

Lemma openingInfo_after_drop_witness :
  currentSAN (rerender (snd d5DroppedA)) = []
  /\ openingInfo (rerender (snd d5DroppedA)) = detectOpening (B := Fragment.board) [].
Proof.
  apply (openingInfo_after_drop (B := Fragment.board) true 16 (fd, r7) (fd, r5)
           afterE4App (snd d5DroppedA) d5Answers).
  left. apply requests_finishesWith; vm_compute; reflexivity.
Defined.

(** *** The tokens of a book line *)

Lemma string_of_list_ascii_nil (l : list ascii) :
  string_of_list_ascii l = EmptyString -> l = [].
Proof. destruct l; [reflexivity | discriminate]. Qed.

Lemma flush_spec (cur : list ascii) (t : string) :
  In t (match cur with [] => [] | _ => [string_of_list_ascii (rev cur)] end) ->
  t <> EmptyString /\ forall c, In c (list_ascii_of_string t) -> In c cur.
Proof.
  destruct cur as [|a cur]; [intros []|]. intros [<-|[]]. split.
  - intros E. apply string_of_list_ascii_nil in E. cbn in E.
    now destruct (rev cur).
  - intros c. rewrite list_ascii_of_string_of_list_ascii. apply in_rev.
Qed.

Lemma words_aux_spec (s : string) :
  forall (cur : list ascii) (t : string),
    In t (Js.words_aux cur s) ->
    t <> EmptyString
    /\ forall c, In c (list_ascii_of_string t) ->
                 In c cur \/ (In c (list_ascii_of_string s) /\ Js.isSpace c = false).
Proof.
  induction s as [|a s IH]; intros cur t Hin; cbn [Js.words_aux] in Hin.
  - apply flush_spec in Hin. destruct Hin as (Hne & Hc). split; [assumption|]. auto.
  - destruct (Js.isSpace a) eqn:E.
    + apply in_app_or in Hin. destruct Hin as [Hin|Hin].
      * apply flush_spec in Hin. destruct Hin as (Hne & Hc). split; [assumption|]. auto.
      * apply IH in Hin. destruct Hin as (Hne & Hc). split; [assumption|].
        intros c Hin. destruct (Hc c Hin) as [[]|(H1 & H2)]. right. split; [now right|assumption].
    + apply IH in Hin. destruct Hin as (Hne & Hc). split; [assumption|].
      intros c Hin. destruct (Hc c Hin) as [[<-|H]|(H1 & H2)].
      * right. split; [now left|assumption].
      * now left.
      * right. split; [now right|assumption].
Qed.

Lemma in_trimStart (c : ascii) (s : string) :
  In c (list_ascii_of_string (trimStart s)) -> In c (list_ascii_of_string s).
Proof.
  induction s as [|a s IH]; [trivial|]. cbn [trimStart].
  destruct (Js.isSpace a); [|trivial]. intros H. right. now apply IH.
Qed.

Lemma in_rev_string (c : ascii) (s : string) :
  In c (list_ascii_of_string (rev_string s)) -> In c (list_ascii_of_string s).
Proof.
  unfold rev_string. rewrite list_ascii_of_string_of_list_ascii. apply in_rev.
Qed.

Lemma in_trim (c : ascii) (s : string) :
  In c (list_ascii_of_string (trim s)) -> In c (list_ascii_of_string s).
Proof.
  unfold trim. intros H.
  now apply in_trimStart, in_rev_string, in_trimStart, in_rev_string.
Qed.

Lemma in_dropNumbers (c : ascii) (s : string) :
  forall inNum,
    In c (list_ascii_of_string (dropNumbers inNum s)) ->
    In c (list_ascii_of_string s) /\ Js.charIn c "?!+#" = false.
Proof.
  induction s as [|a s IH]; intros inNum; [intros []|].
  cbn [dropNumbers]. destruct inNum.
  - intros H. apply IH in H. destruct H. split; [now right|assumption].
  - destruct (digitsThenDot (String a s)).
    + intros H. apply IH in H. destruct H. split; [now right|assumption].
    + destruct (Js.charIn a "?!+#") eqn:E.
      * intros H. apply IH in H. destruct H. split; [now right|assumption].
      * intros [<-|H]; [split; [now left|assumption]|].
        apply IH in H. destruct H. split; [now right|assumption].
Qed.

Lemma flush_chars (cur : list ascii) :
  flat_map list_ascii_of_string
           (match cur with [] => [] | _ => [string_of_list_ascii (rev cur)] end)
  = rev cur.
Proof.
  destruct cur as [|a cur]; [reflexivity|].
  cbn [flat_map]. now rewrite app_nil_r, list_ascii_of_string_of_list_ascii.
Qed.

Lemma words_aux_chars (s : string) :
  forall cur : list ascii,
    flat_map list_ascii_of_string (Js.words_aux cur s)
    = (rev cur ++ filter (fun c => negb (Js.isSpace c)) (list_ascii_of_string s))%list.
Proof.
  induction s as [|a s IH]; intros cur; cbn [Js.words_aux list_ascii_of_string filter].
  - now rewrite flush_chars, app_nil_r.
  - destruct (Js.isSpace a); cbn [negb].
    + rewrite flat_map_app, flush_chars, IH. reflexivity.
    + rewrite IH. cbn [rev]. now rewrite <- app_assoc.
Qed.

Lemma filter_trimStart (s : string) :
  filter (fun c => negb (Js.isSpace c)) (list_ascii_of_string (trimStart s))
  = filter (fun c => negb (Js.isSpace c)) (list_ascii_of_string s).
Proof.
  induction s as [|a s IH]; [reflexivity|]. cbn [trimStart].
  destruct (Js.isSpace a) eqn:E; [|reflexivity].
  cbn [list_ascii_of_string filter]. now rewrite E, IH.
Qed.

Lemma filter_reversed {A : Type} (f : A -> bool) (l : list A) :
  filter f (rev l) = rev (filter f l).
Proof.
  induction l as [|x l IH]; [reflexivity|]. cbn [rev filter].
  rewrite filter_app, IH. cbn [filter]. destruct (f x); [reflexivity|].
  now rewrite app_nil_r.
Qed.

Lemma filter_trim (s : string) :
  filter (fun c => negb (Js.isSpace c)) (list_ascii_of_string (trim s))
  = filter (fun c => negb (Js.isSpace c)) (list_ascii_of_string s).
Proof.
  unfold trim, rev_string.
  rewrite !list_ascii_of_string_of_list_ascii, filter_reversed, filter_trimStart.
  rewrite list_ascii_of_string_of_list_ascii, filter_reversed, rev_involutive.
  apply filter_trimStart.
Qed.

(** X21: what [pgnTokens] returns.  Every token is non-empty and holds no
    white space and none of the marks ?, !, + and #, and each of its
    characters occurs in the text given; put end to end, the tokens are
    the text with its move numbers and marks deleted, less its white
    space.  (A token need not be a run of the text: a mark inside a word
    is deleted and the word closes up.) *)
Theorem pgnTokens_clean (pgn : string) :
  Forall (fun t =>
            t <> EmptyString
            /\ forall c, In c (list_ascii_of_string t) ->
                         In c (list_ascii_of_string pgn)
                         /\ Js.isSpace c = false
                         /\ Js.charIn c "?!+#" = false)
         (pgnTokens pgn)
  /\ flat_map list_ascii_of_string (pgnTokens pgn)
     = filter (fun c => negb (Js.isSpace c))
              (list_ascii_of_string (dropNumbers false pgn)).
Proof.
  split.
  - apply Forall_forall. intros t Hin. unfold pgnTokens, Js.words in Hin.
    apply words_aux_spec in Hin. destruct Hin as (Hne & Hc). split; [assumption|].
    intros c Hin. destruct (Hc c Hin) as [[]|(H1 & H2)].
    apply in_trim, in_dropNumbers in H1. destruct H1. now repeat split.
  - unfold pgnTokens, Js.words. rewrite words_aux_chars. cbn [rev app].
    apply filter_trim.
Qed.

(** A mark inside a word is deleted and the word closes up. *)
Example pgnTokens_closes_up : pgnTokens "e4!5" = ["e45"].
Proof. vm_compute. reflexivity. Qed.

Example pgnTokens_annotated :
  pgnTokens "1. e4! e5 2. Nf3?! Nc6 3. Bb5+" = ["e4"; "e5"; "Nf3"; "Nc6"; "Bb5"].
Proof. vm_compute. reflexivity. Qed.

(** *** The rationale *)

(** X22: [explainHeuristic] always says something.  The list of phrases
    it joins is never empty and the text it returns is never the empty
    string; the fallback phrase is there exactly when no other phrase
    is. *)
Theorem explainHeuristic_never_silent {B : Board} (mv : Move) (before after : Pos B) :
  explainParts mv after <> []
  /\ explainHeuristic mv before after <> EmptyString
  /\ (In fallbackPhrase (explainParts mv after)
      <-> explainParts mv after = [fallbackPhrase]).
Proof.
  unfold explainHeuristic, explainParts.
  destruct (Js.includes (flags mv) "c");
    destruct (Js.includes (san mv) "+");
    destruct (Js.includes (san mv) "#");
    destruct (existsb (String.eqb (sq_name (to mv))) ["d4"; "d5"; "e4"; "e5"]);
    destruct (existsb (String.eqb (Js.toUpperCase (piece_str (piece mv)))) ["N"; "B"]);
    destruct (String.eqb (san mv) "O-O" || String.eqb (san mv) "O-O-O");
    destruct (List.length (defenders mv after) <? List.length (attackers mv after))%nat;
    cbn [pushIf app];
    (split; [discriminate|]); (split; [vm_compute; discriminate|]);
    (split; [|intros ->; now left]);
    cbn [In]; intros H; repeat (destruct H as [H|H]; [try discriminate H|]);
    first [reflexivity | contradiction].
Qed.

Lemma fragment_movesOfSideToMove : movesOfSideToMove (B := Fragment.board).
Proof.
  intros p m Hin. destruct p; vm_compute in Hin;
    repeat (destruct Hin as [<-|Hin]; [reflexivity|]); destruct Hin.
Qed.

(** X23: the position after the move has no say.  On a board that lists
    the moves of the side to move, the count of attackers is always zero:
    the under-defended phrase is never among the phrases, and the text
    returned is the same whatever positions are handed over with the
    move. *)
Theorem explainHeuristic_reads_only_the_move {B : Board} (mv : Move)
        (before before' after after' : Pos B) :
  movesOfSideToMove (B := B) ->
  List.length (attackers mv after) = 0%nat
  /\ ~ In underDefended (explainParts mv after)
  /\ explainHeuristic mv before after = explainHeuristic mv before' after'.
Proof.
  intros Hside. split; [now rewrite attackers_nil|].
  split; [now apply underDefended_never|].
  unfold explainHeuristic, explainParts. rewrite !(attackers_nil _ _ Hside).
  change (List.length (@nil Move)) with 0%nat.
  replace (List.length (defenders mv after) <? 0)%nat with false
    by (symmetry; apply Nat.ltb_ge; lia).
  replace (List.length (defenders mv after') <? 0)%nat with false
    by (symmetry; apply Nat.ltb_ge; lia).
  reflexivity.
Qed.

Lemma explainHeuristic_reads_only_the_move_witness :
  let d5 := Fragment.push Black fd r7 r5 true in
  List.length (attackers (B := Fragment.board) d5 Fragment.AfterE4D5) = 0%nat
  /\ ~ In underDefended (explainParts (B := Fragment.board) d5 Fragment.AfterE4D5)
  /\ explainHeuristic (B := Fragment.board) d5 Fragment.AfterE4 Fragment.AfterE4D5
     = explainHeuristic (B := Fragment.board) d5 Fragment.Initial Fragment.Initial.
Proof.
  intros d5.
  apply (explainHeuristic_reads_only_the_move (B := Fragment.board) d5
           Fragment.AfterE4 Fragment.Initial Fragment.AfterE4D5 Fragment.Initial).
  exact fragment_movesOfSideToMove.
Defined.

(** ** The score of an info line *)

Lemma string_of_uint_nonempty (p : positive) :
  NilEmpty.string_of_uint (Pos.to_uint p) <> EmptyString.
Proof.
  pose proof (DecimalPos.Unsigned.to_uint_nonnil p) as H.
  destruct (Pos.to_uint p); [contradiction | ..]; discriminate.
Qed.

Lemma string_of_uint_head (u : Decimal.uint) (s : string) :
  forall r, NilEmpty.string_of_uint u ++ s <> String "-"%char r \/ u = Decimal.Nil.
Proof. intros r. destruct u; [now right | ..]; left; discriminate. Qed.

Lemma spanDigits_nondigit (c : ascii) (rest : string) :
  Js.isDigit c = false -> Js.spanDigits (String c rest) = (EmptyString, String c rest).
Proof. intros Hc. cbn [Js.spanDigits]. now rewrite Hc. Qed.

(** A printed safe integer followed by a character that is no digit is
    matched whole by [-?\\d+]. *)
Lemma signedDigitsHere_numStr (n : Z) (c : ascii) (rest : string) :
  isSafeInteger n = true ->
  Js.isDigit c = false ->
  signedDigitsHere (numStr n ++ String c rest) = Some (numStr n).
Proof.
  intros Hs Hc. unfold numStr. rewrite Hs.
  pose proof (spanDigits_nondigit c rest Hc) as Hr.
  destruct n as [|p|p]; cbn [Z.to_int NilEmpty.string_of_int].
  - cbn. now rewrite Hc.
  - pose proof (string_of_uint_nonempty p) as Hne.
    pose proof (DecimalPos.Unsigned.to_uint_nonnil p) as Hnn.
    unfold signedDigitsHere.
    rewrite (spanDigits_string_of_uint _ _ Hr).
    destruct (Pos.to_uint p) eqn:E; try contradiction; reflexivity.
  - pose proof (string_of_uint_nonempty p) as Hne.
    cbn [append]. unfold signedDigitsHere.
    rewrite (spanDigits_string_of_uint _ _ Hr).
    destruct (NilEmpty.string_of_uint (Pos.to_uint p)); [contradiction|reflexivity].
Qed.

Lemma startsWith_numStr (n : Z) :
  isSafeInteger n = true -> Js.startsWith (numStr n) "-" = (n <? 0).
Proof.
  intros Hs. unfold numStr, Js.startsWith. rewrite Hs.
  destruct n as [|p|p]; cbn [Z.to_int NilEmpty.string_of_int]; [reflexivity| |].
  - now destruct (Pos.to_uint p).
  - cbn [String.prefix]. destruct (ascii_dec "-" "-") as [_|Hn]; [|now elim Hn].
    now destruct (NilEmpty.string_of_uint (Pos.to_uint p)).
Qed.

Lemma includes_tail (c : ascii) (s p : string) :
  Js.includes (String c s) p = false ->
  String.prefix p (String c s) = false /\ Js.includes s p = false.
Proof. cbn [Js.includes]. apply orb_false_elim. Qed.

(** Nothing before the word [score] is taken for it. *)
Lemma matchScore_skip (pre tl : string) :
  Js.includes pre "sc" = false ->
  matchScore (pre ++ String "s" tl) = matchScore (String "s" tl).
Proof.
  induction pre as [|c pre IH]; [reflexivity|]. intros H.
  apply includes_tail in H. destruct H as (Hp & Hi).
  specialize (IH Hi). unfold matchScore in *.
  remember (String "s" tl) as s eqn:Es.
  change (String c pre ++ s)%string with (String c (pre ++ s)).
  cbn [searchFirst].
  replace (scoreHere (String c (pre ++ s))) with (@None (string * string));
    [exact IH|].
  symmetry. unfold scoreHere. cbn [stripPrefix].
  destruct (Ascii.eqb_spec "s"%char c) as [<-|]; [|reflexivity].
  destruct pre as [|c' pre]; [subst s; reflexivity|].
  cbn [append stripPrefix].
  destruct (Ascii.eqb_spec "c"%char c') as [<-|]; [|reflexivity].
  exfalso. cbn [String.prefix] in Hp.
  destruct (ascii_dec "s" "s") as [_|Hn]; [|now elim Hn].
  destruct (ascii_dec "c" "c") as [_|Hn]; [|now elim Hn].
  destruct pre; discriminate Hp.
Qed.

Lemma searchFirst_here {A : Type} (here : string -> option A) (s : string) (a : A) :
  here s = Some a -> searchFirst here s = Some a.
Proof. intros H. destruct s; cbn [searchFirst]; now rewrite H. Qed.

Lemma matchScore_reads_cp (pre rest : string) (n : Z) :
  isSafeInteger n = true ->
  Js.includes pre "sc" = false ->
  matchScore (pre ++ "score cp " ++ numStr n ++ " " ++ rest) = Some ("cp", numStr n).
Proof.
  intros Hs Hpre.
  change ("score cp " ++ numStr n ++ " " ++ rest)%string
    with (String "s" ("core cp " ++ numStr n ++ " " ++ rest))%string.
  rewrite (matchScore_skip pre _ Hpre).
  change (String "s" ("core cp " ++ numStr n ++ " " ++ rest))%string
    with ("score " ++ ("cp " ++ (numStr n ++ String " " rest)))%string.
  apply searchFirst_here. unfold scoreHere. rewrite !stripPrefix_app.
  now rewrite (signedDigitsHere_numStr n " " rest Hs eq_refl).
Qed.

Lemma matchScore_reads_mate (pre rest : string) (n : Z) :
  isSafeInteger n = true ->
  Js.includes pre "sc" = false ->
  matchScore (pre ++ "score mate " ++ numStr n ++ " " ++ rest) = Some ("mate", numStr n).
Proof.
  intros Hs Hpre.
  change ("score mate " ++ numStr n ++ " " ++ rest)%string
    with (String "s" ("core mate " ++ numStr n ++ " " ++ rest))%string.
  rewrite (matchScore_skip pre _ Hpre).
  change (String "s" ("core mate " ++ numStr n ++ " " ++ rest))%string
    with ("score " ++ ("mate " ++ (numStr n ++ String " " rest)))%string.
  apply searchFirst_here. unfold scoreHere. rewrite stripPrefix_app.
  change (stripPrefix "cp " ("mate " ++ (numStr n ++ String " " rest)))
    with (@None string).
  rewrite stripPrefix_app.
  now rewrite (signedDigitsHere_numStr n " " rest Hs eq_refl).
Qed.

(** X24: the score of an info line is read back exactly.  Whatever comes
    before the word [score], as long as it does not hold the letters sc,
    a centipawn score that is a safe integer (at most 2^53 - 1 in
    magnitude) becomes [lastCp] as the number it is, and a mate score
    becomes 100000, or -100000 when it is negative. *)
Theorem onInfo_reads_score {B : Board} (pre rest : string) (n : Z) (e : Env B) :
  isSafeInteger n = true ->
  Js.includes pre "sc" = false ->
  e_lastCp (onInfo (pre ++ "score cp " ++ numStr n ++ " " ++ rest) e) = n
  /\ e_lastCp (onInfo (pre ++ "score mate " ++ numStr n ++ " " ++ rest) e)
     = (if n <? 0 then -100000 else 100000).
Proof.
  intros Hs Hpre. unfold onInfo. cbn [e_lastCp].
  rewrite (matchScore_reads_cp pre rest n Hs Hpre), (matchScore_reads_mate pre rest n Hs Hpre).
  change (String.eqb "cp" "cp") with true. change (String.eqb "mate" "cp") with false.
  cbv iota. rewrite (parseInt_numStr n Hs), (startsWith_numStr n Hs). now split.
Qed.

Lemma onInfo_reads_score_witness :
  e_lastCp (onInfo (infoHead ++ "score cp " ++ numStr (-31) ++ " " ++ "nodes 1000 pv e2e4")
                   searchingEnv) = -31
  /\ e_lastCp (onInfo (infoHead ++ "score mate " ++ numStr (-31) ++ " " ++ "nodes 1000 pv e2e4")
                      searchingEnv)
     = (if -31 <? 0 then -100000 else 100000).
Proof.
  apply (onInfo_reads_score (B := Fragment.board) infoHead "nodes 1000 pv e2e4" (-31)
           searchingEnv).
  - reflexivity.
  - reflexivity.
Defined.

(** A score beyond the safe integers is rounded as a Number is: 2^53 + 1
    is read as 2^53. *)
Example onInfo_rounds_long_score :
  e_lastCp (onInfo (infoHead ++ "score cp 9007199254740993 nodes 1000 pv e2e4") searchingEnv)
  = 9007199254740992.
Proof. vm_compute. reflexivity. Qed.
